(** * ietfdata.tools.participants: the participant database

    A shallow embedding of [src/ietfdata/tools/participants.py]: the
    [Participant] record, the [ParticipantDB] resolver built on it, and
    the properties of lookup, merge and persistence.

    Python objects are mutable and compared by identity ([Participant]
    defines neither [__eq__] nor [__hash__]), so the embedding keeps an
    object store: a [Participant] lives at an address ([ref]) of the
    store, and the database's index and people set hold addresses. *)

From Stdlib Require Import ZArith String Ascii DecimalString DecimalZ.
From stdpp Require Import base option list gmap strings sorting.

Local Open Scope string_scope.
Local Open Scope Z_scope.
#[local] Set Warnings "-clear-no-such-hyp".

(** ** Exceptions *)

Inductive exn :=
  | RuntimeError (msg : string)
  | KeyError
  | ValueError
  | RecursionError.

Inductive result (A : Type) :=
  | Ok (a : A)
  | Raise (e : exn).
Arguments Ok {A} a.
Arguments Raise {A} e.

#[global] Instance result_ret : MRet result := @Ok.
#[global] Instance result_bind : MBind result := fun A B f r =>
  match r with
  | Ok a => f a
  | Raise e => Raise e
  end.

Definition isNone {A} (o : option A) : bool :=
  match o with None => true | Some _ => false end.

(** ** Participant *)

(** [Dict[str, List[str]]]: a Python dict keeps insertion order, and its
    keys are unique. *)
Definition dict := list (string * list string).

Record Participant := mkParticipant {
  person_id : option string;
  identifiers : dict
}.

(** The (type, value) pairs of a dict, in the order of the nested loops
    [for ident_type in d: for ident_value in d[ident_type]]. *)
Definition items (d : dict) : list (string * string) :=
  d ≫= fun tv => pair tv.1 <$> tv.2.

Fixpoint dict_add (t v : string) (d : dict) : dict :=
  match d with
  | [] => [(t, [v])]
  | (t', vs) :: d' =>
      if decide (t' = t)
      then (t', if decide (v ∈ vs) then vs else (vs ++ [v])%list) :: d'
      else (t', vs) :: dict_add t v d'
  end.

Definition add_identifier (ident_type ident_value : string) (p : Participant)
  : Participant :=
  mkParticipant (person_id p) (dict_add ident_type ident_value (identifiers p)).

Definition dict_count (d : dict) : nat :=
  foldl (fun count tv => (count + length tv.2)%nat) 0%nat d.

Definition num_idents (p : Participant) : nat := dict_count (identifiers p).

(** ** The object store *)

(** Addresses of the store (a notation, so that the lemmas on lists and
    sets of [nat] apply as they are). *)
Abbreviation ref := nat.

(** [Participant(person_id)]: a fresh object with no identifiers. *)
Definition Participant_init (person_id : option string) : Participant :=
  mkParticipant person_id [].

(** Reading through a reference.  Every reference a Python program holds
    is to a live object; [people_closed] below states it for the
    people set, and the default is never observed there. *)
Definition deref (h : list Participant) (r : ref) : Participant :=
  default (Participant_init None) (h !! r).

(** [self.merge_into(other)]: every identifier of [self] is added to
    [other], then [self.identifiers = {}]. *)
Definition store_merge_into (self other : ref) (h : list Participant)
  : list Participant :=
  let h' := foldl (fun h tv => alter (add_identifier tv.1 tv.2) other h)
                  h (items (identifiers (deref h self))) in
  alter (fun p => mkParticipant (person_id p) []) self h'.

(** ** ParticipantDB *)

Record ParticipantDB := mkDB {
  pid : Z;
  idents : gmap string (gmap string ref);
  people : gset ref;
  objs : list Participant
}.

Definition set_pid (n : Z) (db : ParticipantDB) : ParticipantDB :=
  mkDB n (idents db) (people db) (objs db).
Definition set_idents (ix : gmap string (gmap string ref)) (db : ParticipantDB)
  : ParticipantDB :=
  mkDB (pid db) ix (people db) (objs db).
Definition set_people (s : gset ref) (db : ParticipantDB) : ParticipantDB :=
  mkDB (pid db) (idents db) s (objs db).
Definition set_objs (h : list Participant) (db : ParticipantDB) : ParticipantDB :=
  mkDB (pid db) (idents db) (people db) h.

(** [ParticipantDB()] with [path = None]. *)
Definition db_empty : ParticipantDB := mkDB 0 ∅ ∅ [].

(** [self.idents[t][v]], when both keys are present. *)
Definition idx_get (ix : gmap string (gmap string ref)) (t v : string)
  : option ref :=
  ix !! t ≫= fun m => m !! v.

(** [v in self.idents[t]] (at every use [t] is a key of [self.idents]). *)
Definition value_in (ix : gmap string (gmap string ref)) (t v : string) : bool :=
  bool_decide (is_Some (idx_get ix t v)).

(** [self.idents[t][v] = r] (at every use [t] is a key of [self.idents]). *)
Definition idx_set (t v : string) (r : ref) (ix : gmap string (gmap string ref))
  : gmap string (gmap string ref) :=
  <[t := <[v := r]> (default ∅ (ix !! t))]> ix.

(** [if not t in self.idents: self.idents[t] = {}] *)
Definition ensure_type (t : string) (ix : gmap string (gmap string ref))
  : gmap string (gmap string ref) :=
  match ix !! t with
  | None => <[t := ∅]> ix
  | Some _ => ix
  end.

Definition index_person (db : ParticipantDB) (t v : string) : result ref :=
  match idx_get (idents db) t v with
  | Some r => Ok r
  | None => Raise KeyError
  end.

(** [person.add_identifier(t, v)] on the object at [r]. *)
Definition db_add_identifier (r : ref) (t v : string) (db : ParticipantDB)
  : ParticipantDB :=
  set_objs (alter (add_identifier t v) r (objs db)) db.

Definition merge_into (self other : ref) (db : ParticipantDB) : ParticipantDB :=
  set_objs (store_merge_into self other (objs db)) db.

Definition repoint (from_person to_person r : ref) : ref :=
  if decide (r = from_person) then to_person else r.

Definition update_refs (from_person to_person : ref) (db : ParticipantDB)
  : ParticipantDB :=
  set_idents
    ((fun m : gmap string ref => repoint from_person to_person <$> m)
       <$> idents db) db.

(** [self.people.remove(r)]: [KeyError] when [r] is not a member. *)
Definition people_remove (r : ref) (db : ParticipantDB) : result ParticipantDB :=
  if decide (r ∈ people db)
  then Ok (set_people (people db ∖ {[r]}) db)
  else Raise KeyError.

(** The three lines shared by the two creating branches of
    [person_with_identifier]: [person = Participant()],
    [person.add_identifier(t, v)], [self.people.add(person)]. *)
Definition create_person (t v : string) (db : ParticipantDB)
  : ref * ParticipantDB :=
  let r := length (objs db) in
  (r, set_people ({[r]} ∪ people db)
        (set_objs (objs db ++ [add_identifier t v (Participant_init None)])%list db)).

Definition person_with_identifier (ident_type ident_value : string)
    (db : ParticipantDB) : ref * ParticipantDB :=
  match idents db !! ident_type with
  | None =>
      let '(person, db) := create_person ident_type ident_value db in
      (person,
       set_idents (<[ident_type := <[ident_value := person]> ∅]> (idents db)) db)
  | Some m =>
      match m !! ident_value with
      | None =>
          let '(person, db) := create_person ident_type ident_value db in
          (person,
           set_idents (<[ident_type := <[ident_value := person]> m]> (idents db)) db)
      | Some person => (person, db)
      end
  end.

Definition replaced_by : string := "replaced_by".

Fixpoint identifies_same_person (fuel : nat)
    (ident_type1 ident_value1 ident_type2 ident_value2 : string)
    (db : ParticipantDB) : result ParticipantDB :=
  let db := set_idents (ensure_type ident_type1 (idents db)) db in
  let db := set_idents (ensure_type ident_type2 (idents db)) db in
  let known1 := value_in (idents db) ident_type1 ident_value1 in
  let known2 := value_in (idents db) ident_type2 ident_value2 in
  if negb known1 && negb known2 then
    match fuel with
    | O => Raise RecursionError
    | S fuel' =>
        identifies_same_person fuel'
          ident_type1 ident_value1 ident_type2 ident_value2
          (person_with_identifier ident_type1 ident_value1 db).2
    end
  else if known1 && negb known2 then
    person ← index_person db ident_type1 ident_value1;
    let db := db_add_identifier person ident_type2 ident_value2 db in
    Ok (set_idents (idx_set ident_type2 ident_value2 person (idents db)) db)
  else if negb known1 && known2 then
    person ← index_person db ident_type2 ident_value2;
    let db := db_add_identifier person ident_type1 ident_value1 db in
    Ok (set_idents (idx_set ident_type1 ident_value1 person (idents db)) db)
  else if known1 && known2 then
    person1 ← index_person db ident_type1 ident_value1;
    person2 ← index_person db ident_type2 ident_value2;
    if decide (person1 = person2) then Ok db
    else
      let id1 := person_id (deref (objs db) person1) in
      let id2 := person_id (deref (objs db) person2) in
      if isNone id1 && isNone id2 then
        people_remove person2 (update_refs person2 person1 (merge_into person2 person1 db))
      else if negb (isNone id1) && isNone id2 then
        people_remove person2 (update_refs person2 person1 (merge_into person2 person1 db))
      else if isNone id1 && negb (isNone id2) then
        people_remove person1 (update_refs person1 person2 (merge_into person1 person2 db))
      else
        match id1, id2 with
        | Some id1, Some id2 =>
            (* [person_id] is written by neither [merge_into] nor
               [_update_refs]: the value passed to [add_identifier] after
               them is the one read here. *)
            if (num_idents (deref (objs db) person1)
                <? num_idents (deref (objs db) person2))%nat
            then
              let db := update_refs person2 person1 (merge_into person2 person1 db) in
              Ok (db_add_identifier person2 replaced_by id1 db)
            else
              let db := update_refs person1 person2 (merge_into person1 person2 db) in
              Ok (db_add_identifier person1 replaced_by id2 db)
        | _, _ => Raise (RuntimeError "This cannot happen (1)")
        end
  else Raise (RuntimeError "This cannot happen (2)").

(** ** Persistence *)

(** [s[n:]] *)
Fixpoint str_drop (n : nat) (s : string) : string :=
  match n, s with
  | O, _ => s
  | S n', String _ s' => str_drop n' s'
  | S _, EmptyString => EmptyString
  end.

Fixpoint zeros (n : nat) : string :=
  match n with
  | O => EmptyString
  | S n' => String "0" (zeros n')
  end.

Definition zfill (width : nat) (s : string) : string :=
  zeros (width - String.length s) ++ s.

Definition decimal (n : Z) : string :=
  NilZero.string_of_uint (N.to_uint (Z.to_N n)).

(** [f"{n:06}"]: sign-aware zero padding to six characters. *)
Definition format_06 (n : Z) : string :=
  if n <? 0 then String "-" (zfill 5 (decimal (- n))) else zfill 6 (decimal n).

(** [f"PID:{n:06}"] *)
Definition format_pid (n : Z) : string := "PID:" ++ format_06 n.

(** The parsed JSON document: stable ID to identifiers, in the order
    [json.load] yields the keys (the order of the file). *)
Definition saved := list (string * dict).

(** The body of the innermost loop of [__init__]. *)
Definition load_value (person : ref) (t v : string) (db : ParticipantDB)
  : ParticipantDB :=
  let db := db_add_identifier person t v db in
  let db := set_idents (ensure_type t (idents db)) db in
  set_idents (idx_set t v person (idents db)) db.

(** Python's [int] on strings is a parameter of the embedding, [None]
    standing for [ValueError]; what the development needs of it is
    [int_reads_numerals] below. *)
Section int_parameter.

Variable py_int : string → option Z.

(** The body of [for pid in saved_data]. *)
Definition load_person (db : ParticipantDB) (rec : string * dict)
  : result ParticipantDB :=
  let person := length (objs db) in
  let db := set_objs (objs db ++ [Participant_init (Some rec.1)])%list db in
  let db := set_people ({[person]} ∪ people db) db in
  let db := foldl (fun db tv => load_value person tv.1 tv.2 db) db (items rec.2) in
  match py_int (str_drop 4 rec.1) with
  | None => Raise ValueError
  | Some pid_int => Ok (if pid db <? pid_int then set_pid pid_int db else db)
  end.

Fixpoint load_loop (saved_data : saved) (db : ParticipantDB)
  : result ParticipantDB :=
  match saved_data with
  | [] => Ok db
  | rec :: rest => db ← load_person db rec; load_loop rest db
  end.

(** [ParticipantDB(path)], the file at [path] already parsed. *)
Definition ParticipantDB_init (path : option saved) : result ParticipantDB :=
  match path with
  | None => Ok db_empty
  | Some saved_data => load_loop saved_data db_empty
  end.

Definition load (saved_data : saved) : result ParticipantDB :=
  ParticipantDB_init (Some saved_data).

End int_parameter.

(** [int(f"{n:06}") == n] for every [n >= 0]: [int] reads back the
    numerals that [save] writes. *)
Definition int_reads_numerals (py_int : string → option Z) : Prop :=
  ∀ n, 0 ≤ n → py_int (format_06 n) = Some n.

(** [int] on the ASCII decimal numerals with an optional minus sign (it
    accepts more: a plus sign, blanks around, underscores between
    digits, other decimal digits); the examples run with it. *)
Definition int_ascii (s : string) : option Z :=
  Z.of_int <$> NilZero.int_of_string s.

(** The body of [for person in self.people] in [save].  The local dict
    [people] is written with [sort_keys=True], so the order in which its
    keys were inserted is not observable: it is a finite map here. *)
Definition save_person (st : ParticipantDB * gmap string dict) (person : ref)
  : ParticipantDB * gmap string dict :=
  let '(db, out) := st in
  match person_id (deref (objs db) person) with
  | None =>
      let db := set_pid (pid db + 1) db in
      let s := format_pid (pid db) in
      let db :=
        set_objs (alter (fun p => mkParticipant (Some s) (identifiers p))
                    person (objs db)) db in
      (db, <[s := identifiers (deref (objs db) person)]> out)
  | Some s => (db, <[s := identifiers (deref (objs db) person)]> out)
  end.

(** Python string comparison is by code point, which on UTF-8 encoded
    text is the byte-wise order of [String.compare]. *)
Definition str_le (s1 s2 : string) : Prop := (s1 <=? s2)%string = true.

#[global] Instance str_le_dec s1 s2 : Decision (str_le s1 s2).
Proof. unfold str_le. apply _. Defined.

Definition key_le {A} (a b : string * A) : Prop := str_le a.1 b.1.

#[global] Instance key_le_dec {A} (a b : string * A) : Decision (key_le a b).
Proof. unfold key_le. apply _. Defined.

(** [json.dump(people, outf, indent=3, sort_keys=True)]: the document
    written, keys sorted at both levels of nesting.  With a fixed
    indentation the bytes of the file are a function of this list. *)
Definition json_dump (out : gmap string dict) : saved :=
  merge_sort key_le
    ((fun kd : string * dict => (kd.1, merge_sort key_le kd.2))
       <$> map_to_list out).

(** [save].  A Python set is iterated in an order fixed by the hashes of
    its members, which for these objects are their memory addresses:
    the order is an argument, [order], an enumeration of [self.people]
    (see [enumerates]). *)
Definition save_loop (order : list ref) (db : ParticipantDB)
  : ParticipantDB * gmap string dict :=
  foldl save_person (db, ∅) order.

Definition save (order : list ref) (db : ParticipantDB)
  : ParticipantDB * saved :=
  let '(db, out) := save_loop order db in (db, json_dump out).

Definition enumerates (order : list ref) (s : gset ref) : Prop :=
  NoDup order ∧ ∀ r, r ∈ order ↔ r ∈ s.

(** ** Reachable states *)

(** The keys of a parsed JSON object are pairwise distinct (of a
    repeated key [json.load] keeps the last value). *)
Definition json_object (saved_data : saved) : Prop := NoDup saved_data.*1.

(** The states a client can bring a database to through its public
    interface: the constructor, [person_with_identifier],
    [identifies_same_person] and [save]. *)
Inductive reachable (py_int : string → option Z) : ParticipantDB → Prop :=
  | reach_init path db :
      from_option json_object True path →
      ParticipantDB_init py_int path = Ok db → reachable py_int db
  | reach_person t v db :
      reachable py_int db →
      reachable py_int (person_with_identifier t v db).2
  | reach_same fuel t1 v1 t2 v2 db db' :
      reachable py_int db →
      identifies_same_person fuel t1 v1 t2 v2 db = Ok db' →
      reachable py_int db'
  | reach_save order db :
      reachable py_int db → enumerates order (people db) →
      reachable py_int (save order db).1.

(** A sequence of [identifies_same_person] calls. *)
Definition call := (string * string * (string * string))%type.

Fixpoint run_calls (fuel : nat) (calls : list call) (db : ParticipantDB)
  : result ParticipantDB :=
  match calls with
  | [] => Ok db
  | c :: rest =>
      db ← identifies_same_person fuel c.1.1 c.1.2 c.2.1 c.2.2 db;
      run_calls fuel rest db
  end.

(** ** Observations used in the statements *)

(** The stable ID of the owner of an identifier, through the index. *)
Definition owner_id (db : ParticipantDB) (t v : string) : option string :=
  idx_get (idents db) t v ≫= fun r => person_id (deref (objs db) r).

(** The person at [r] holds the identifier [(t, v)]. *)
Definition holds (db : ParticipantDB) (r : ref) (t v : string) : Prop :=
  (t, v) ∈ items (identifiers (deref (objs db) r)).

(** An identifier stored in some person of the people set. *)
Definition stored (db : ParticipantDB) (t v : string) : Prop :=
  ∃ r, r ∈ people db ∧ holds db r t v.

(** Two identifiers are owned by the same person in the index. *)
Definition together (db : ParticipantDB) (k k' : string * string) : Prop :=
  ∃ r, idx_get (idents db) k.1 k.2 = Some r ∧
       idx_get (idents db) k'.1 k'.2 = Some r.

(** The index groups the identifiers in the same way in both states. *)
Definition same_partition (db1 db2 : ParticipantDB) : Prop :=
  ∀ k k', together db1 k k' ↔ together db2 k k'.

(** Every member of the people set is an object of the store, and every
    index entry points into the people set. *)
Definition people_closed (db : ParticipantDB) : Prop :=
  ∀ r, r ∈ people db → (r < length (objs db))%nat.

Definition index_in_people (db : ParticipantDB) : Prop :=
  ∀ t v r, idx_get (idents db) t v = Some r → r ∈ people db.

Definition db_inv (db : ParticipantDB) : Prop :=
  people_closed db ∧ index_in_people db.

(** * Vocabulary of the statements *)

Implicit Types (t v : string) (r : ref) (db : ParticipantDB) (L : saved).
Implicit Types (h : list Participant) (out : gmap string dict).
Implicit Types (ix : gmap string (gmap string ref)).

(** The two guards at the head of [identifies_same_person]. *)
Definition ensure_types t1 t2 db : ParticipantDB :=
  set_idents (ensure_type t2 (ensure_type t1 (idents db))) db.

(** Cases 2 and 3: the unknown identifier joins the known person. *)
Definition attach r t v db : ParticipantDB :=
  set_idents (idx_set t v r (idents db)) (db_add_identifier r t v db).

(** [src] merged into [dst], index repointed. *)
Definition absorb (src dst : ref) db : ParticipantDB :=
  update_refs src dst (merge_into src dst db).

(** Case 4 with two distinct owners. *)
Definition merge_decision (p1 p2 : ref) db : result ParticipantDB :=
  match person_id (deref (objs db) p1), person_id (deref (objs db) p2) with
  | None, None => people_remove p2 (absorb p2 p1 db)
  | Some _, None => people_remove p2 (absorb p2 p1 db)
  | None, Some _ => people_remove p1 (absorb p1 p2 db)
  | Some id1, Some id2 =>
      if (num_idents (deref (objs db) p1) <? num_idents (deref (objs db) p2))%nat
      then Ok (db_add_identifier p2 replaced_by id1 (absorb p2 p1 db))
      else Ok (db_add_identifier p1 replaced_by id2 (absorb p1 p2 db))
  end.

(** The loop of [merge_into]: the identifiers [l] added to [dst]. *)
Definition add_all (dst : ref) (l : list (string * string)) h
  : list Participant :=
  foldl (fun h tv => alter (add_identifier tv.1 tv.2) dst h) h l.

(** [away] has been merged into [surv]: the survivor holds the
    identifiers of both, keeps its stable ID, and every index entry of
    either person points at the survivor. *)
Definition merged_into db db' (away surv : ref) : Prop :=
  (∀ t v, holds db' surv t v ↔ holds db surv t v ∨ holds db away t v) ∧
  (∀ t v r, idx_get (idents db) t v = Some r →
            idx_get (idents db') t v = Some (repoint away surv r)) ∧
  person_id (deref (objs db') surv) = person_id (deref (objs db) surv) ∧
  person_id (deref (objs db') away) = person_id (deref (objs db) away).

(** The person merged away by case 4 of [identifies_same_person], and
    the one that survives. *)
Definition merged_away db (p1 p2 : ref) : ref :=
  match person_id (deref (objs db) p1), person_id (deref (objs db) p2) with
  | None, None => p2
  | Some _, None => p2
  | None, Some _ => p1
  | Some _, Some _ =>
      if (num_idents (deref (objs db) p1) <? num_idents (deref (objs db) p2))%nat
      then p2 else p1
  end.

Definition survivor db (p1 p2 : ref) : ref :=
  if decide (merged_away db p1 p2 = p1) then p2 else p1.

Definition both_stable db (p1 p2 : ref) : Prop :=
  is_Some (person_id (deref (objs db) p1)) ∧
  is_Some (person_id (deref (objs db) p2)).

(** The rule as the specification words it: the person with strictly
    more identifiers survives, the second one on a tie. *)
Definition fewer_into_more_survivor db (p1 p2 : ref) : ref :=
  if (num_idents (deref (objs db) p2) <? num_idents (deref (objs db) p1))%nat
  then p1 else p2.

(** What a call returns: the recursive call of case 1 lands in case 2,
    or in the no-op of case 4 when the two identifiers are equal. *)
Definition same_person_result t1 v1 t2 v2 db : result ParticipantDB :=
  let db0 := ensure_types t1 t2 db in
  match idx_get (idents db0) t1 v1, idx_get (idents db0) t2 v2 with
  | None, None =>
      let db1 := (person_with_identifier t1 v1 db0).2 in
      if decide (t2 = t1 ∧ v2 = v1) then Ok db1
      else Ok (attach (length (objs db)) t2 v2 db1)
  | Some p, None => Ok (attach p t2 v2 db0)
  | None, Some p => Ok (attach p t1 v1 db0)
  | Some p1, Some p2 =>
      if decide (p1 = p2) then Ok db0 else merge_decision p1 p2 db0
  end.

(** The stable IDs present in the store. *)
Definition stable_id db (s : string) : Prop :=
  ∃ r, person_id (deref (objs db) r) = Some s.

(** One call, from [db] to [db'], with arguments [(t1, v1)], [(t2, v2)]:
    nothing stored is lost, and what is gained is an argument or a
    [replaced_by] identifier naming a stable ID. *)
Definition conserves (t1 v1 t2 v2 : string) db db' : Prop :=
  (∀ t v, stored db t v → stored db' t v) ∧
  (∀ t v, stored db' t v →
     stored db t v ∨ (t = t1 ∧ v = v1) ∨ (t = t2 ∧ v = v2) ∨
     (t = replaced_by ∧ stable_id db v)) ∧
  (∀ r, person_id (deref (objs db') r) = person_id (deref (objs db) r)).

(** The identifiers passed to a sequence of calls. *)
Definition call_args (calls : list call) : list (string * string) :=
  calls ≫= fun c => [c.1; c.2].

(** The index after a call, as a function of the index before it. *)
Definition index_after (t1 v1 t2 v2 : string) db db' : Prop :=
  match idx_get (idents db) t1 v1, idx_get (idents db) t2 v2 with
  | Some p1, Some p2 =>
      (p1 = p2 ∧ ∀ t v, idx_get (idents db') t v = idx_get (idents db) t v) ∨
      (p1 ≠ p2 ∧ ∃ src dst,
         ((src = p1 ∧ dst = p2) ∨ (src = p2 ∧ dst = p1)) ∧
         ∀ t v, idx_get (idents db') t v
                = repoint src dst <$> idx_get (idents db) t v)
  | Some p, None =>
      ∀ t v, idx_get (idents db') t v =
             if decide (t = t2 ∧ v = v2) then Some p
             else idx_get (idents db) t v
  | None, Some p =>
      ∀ t v, idx_get (idents db') t v =
             if decide (t = t1 ∧ v = v1) then Some p
             else idx_get (idents db) t v
  | None, None =>
      ∀ t v, idx_get (idents db') t v =
             if decide ((t = t1 ∧ v = v1) ∨ (t = t2 ∧ v = v2))
             then Some (length (objs db))
             else idx_get (idents db) t v
  end.

(** The person at [r] has no stable ID. *)
Definition unpublished db (r : ref) : bool :=
  isNone (person_id (deref (objs db) r)).

(** What [save] writes for the person at [r]. *)
Definition record_of db (r : ref) : option string * dict :=
  (person_id (deref (objs db) r), identifiers (deref (objs db) r)).

(** The two databases hold the same persons: the same stable IDs with
    the same identifiers. *)
Definition same_records db1 db2 : Prop :=
  ∀ rec, (∃ r, r ∈ people db1 ∧ record_of db1 r = rec) ↔
         (∃ r, r ∈ people db2 ∧ record_of db2 r = rec).

Definition all_published db : Prop :=
  ∀ r, r ∈ people db → unpublished db r = false.

Definition ids_distinct db : Prop :=
  ∀ r r' s, r ∈ people db → r' ∈ people db →
    person_id (deref (objs db) r) = Some s →
    person_id (deref (objs db) r') = Some s → r = r'.

(** One stable ID, one set of identifiers. *)
Definition ids_functional db (l : list ref) : Prop :=
  ∀ r r' s, r ∈ l → r' ∈ l →
    person_id (deref (objs db) r) = Some s →
    person_id (deref (objs db) r') = Some s →
    identifiers (deref (objs db) r) = identifiers (deref (objs db) r').

(** The stable IDs [save] writes for the sequence numbers [ns]. *)
Definition with_ids (recs : list (N * dict)) : saved :=
  (fun nd => (format_pid (Z.of_N nd.1), nd.2)) <$> recs.

(** The index and the persons agree: an identifier is indexed to [r]
    exactly when [r] is in the people set and holds it. *)
Definition coherent db : Prop :=
  ∀ t v r, idx_get (idents db) t v = Some r ↔ r ∈ people db ∧ holds db r t v.

(** Every stable ID in the people set reads back as a number no larger
    than the counter, which is not negative. *)
Definition ids_numbered (py_int : string → option Z) db : Prop :=
  0 ≤ pid db ∧
  ∀ r s, r ∈ people db → person_id (deref (objs db) r) = Some s →
    ∃ n : Z, py_int (str_drop 4 s) = Some n ∧ n ≤ pid db.

(** The stable ID under which [load] indexes [(t, v)]: that of the last
    record of the document that lists it. *)
Definition last_owner (t v : string) (init : option string) L : option string :=
  foldl (fun acc rec => if decide ((t, v) ∈ items rec.2) then Some rec.1 else acc)
        init L.

(** Every indexed person has a stable ID (as after [load]). *)
Definition index_published db : Prop :=
  ∀ t v r, idx_get (idents db) t v = Some r →
    is_Some (person_id (deref (objs db) r)).

(** Two identifiers are held by one person of the people set. *)
Definition cohabit db (k k' : string * string) : Prop :=
  ∃ r, r ∈ people db ∧ holds db r k.1 k.2 ∧ holds db r k'.1 k'.2.

(** The same groups of identifiers, the [replaced_by] identifiers (which
    name the surviving stable ID) left aside. *)
Definition same_groups db1 db2 : Prop :=
  ∀ k k', k.1 ≠ replaced_by → k'.1 ≠ replaced_by →
    cohabit db1 k k' ↔ cohabit db2 k k'.

(** The groups after [p1] and [p2] have been merged, either way. *)
Definition merged_cohabit db (p1 p2 : ref) (k k' : string * string) : Prop :=
  (∃ r, r ∈ people db ∧ r ≠ p1 ∧ r ≠ p2 ∧
        holds db r k.1 k.2 ∧ holds db r k'.1 k'.2) ∨
  ((holds db p1 k.1 k.2 ∨ holds db p2 k.1 k.2) ∧
   (holds db p1 k'.1 k'.2 ∨ holds db p2 k'.1 k'.2)).

(** What a merge of [src] into [dst] does to the people set and to the
    identifiers other than [replaced_by]. *)
Definition merge_shape db db' (src dst : ref) : Prop :=
  dst ∈ people db' ∧
  (∀ r, r ∈ people db' → r ∈ people db) ∧
  (∀ r, r ∈ people db → r ≠ src → r ∈ people db') ∧
  ∀ r t v, t ≠ replaced_by →
    holds db' r t v ↔
    (r ≠ src ∧ holds db r t v) ∨ (r = dst ∧ holds db src t v).

(** ** Vocabulary of the further properties *)

(** A Python dict has each key once. *)
Definition keys_distinct (d : dict) : Prop := NoDup d.*1.

(** No value is listed twice under one type. *)
Definition values_distinct (d : dict) : Prop :=
  Forall (fun tv : string * list string => NoDup tv.2) d.

(** [self.identifiers = {}] *)
Definition clear_identifiers (p : Participant) : Participant :=
  mkParticipant (person_id p) [].

(** Every index entry points at a person of the people set that holds
    the identifier. *)
Definition index_sound db : Prop :=
  ∀ t v r, idx_get (idents db) t v = Some r → r ∈ people db ∧ holds db r t v.

(** No index entry points at [r]. *)
Definition unindexed db (r : ref) : Prop :=
  ∀ t v, idx_get (idents db) t v ≠ Some r.

(** [k] is one of the two arguments of a call or, before the call, had
    the owner of one of them. *)
Definition joined (t1 v1 t2 v2 : string) db (k : string * string) : Prop :=
  k = (t1, v1) ∨ k = (t2, v2) ∨ together db k (t1, v1) ∨ together db k (t2, v2).

(** No type with an empty list of values. *)
Definition values_nonempty (d : dict) : Prop :=
  Forall (fun tv : string * list string => tv.2 ≠ []) d.

(** The dicts that the methods of [Participant] build. *)
Definition dict_wf (d : dict) : Prop :=
  keys_distinct d ∧ values_distinct d ∧ values_nonempty d.

Definition store_wf db : Prop :=
  ∀ r, dict_wf (identifiers (deref (objs db) r)).

(** A document with its keys in order and written once, at both levels,
    and with no value twice and no empty list: the form in which [save]
    writes. *)
Definition canonical (L : saved) : Prop :=
  Sorted key_le L ∧ NoDup L.*1 ∧
  Forall (fun rec : string * dict => Sorted key_le rec.2 ∧ dict_wf rec.2) L.

(** ** States used as examples *)

(** The database of a result that is known to be [Ok]. *)
Definition db_or_empty (r : result ParticipantDB) : ParticipantDB :=
  match r with Ok db => db | Raise _ => db_empty end.

(** Two published persons, the second with more identifiers. *)
Definition saved_two : saved :=
  [("PID:000001", [("email", ["a"])]);
   ("PID:000002", [("email", ["b"; "c"])])].

(** The loaded databases. *)
Definition db_two : ParticipantDB := db_or_empty (load int_ascii saved_two).

(** Two published persons with one identifier each. *)
Definition saved_tie : saved :=
  [("PID:000001", [("email", ["a"])]);
   ("PID:000002", [("email", ["b"])])].

Definition db_tie : ParticipantDB := db_or_empty (load int_ascii saved_tie).

(** The two published persons of [saved_tie], loaded in the other order. *)
Definition db_tie_rev : ParticipantDB := db_or_empty (load int_ascii (reverse saved_tie)).

(** The two published persons of [saved_tie], merged. *)
Definition db_merged : ParticipantDB :=
  db_or_empty (identifies_same_person 1 "email" "a" "email" "b" db_tie).

(** Two unpublished persons, created in the two possible orders. *)
Definition db_ab : ParticipantDB :=
  (person_with_identifier "email" "b"
     (person_with_identifier "email" "a" db_empty).2).2.

Definition db_ba : ParticipantDB :=
  (person_with_identifier "email" "a"
     (person_with_identifier "email" "b" db_empty).2).2.

(** * Basic facts *)

Section dict_facts.

Lemma items_cons t vs (d : dict) :
  items ((t, vs) :: d) = ((pair t <$> vs) ++ items d)%list.
Proof. reflexivity. Qed.

Lemma elem_of_pair_fmap (t t' v' : string) (vs : list string) :
  (t', v') ∈ pair t <$> vs ↔ t' = t ∧ v' ∈ vs.
Proof.
  rewrite list_elem_of_fmap. split.
  - intros [y [[= -> ->] Hy]]. done.
  - intros [-> Hv]. eauto.
Qed.

Lemma elem_of_items t v (d : dict) :
  (t, v) ∈ items d ↔ ∃ vs, (t, vs) ∈ d ∧ v ∈ vs.
Proof.
  induction d as [|[t0 vs0] d IH].
  - split; [by intros ?%elem_of_nil|]. by intros [vs [?%elem_of_nil _]].
  - rewrite items_cons, elem_of_app, elem_of_pair_fmap, IH. split.
    + intros [[-> Hv]|[vs [Hd Hv]]].
      * exists vs0. split; [left|done].
      * exists vs. split; [by right|done].
    + intros [vs [Hd Hv]]. apply elem_of_cons in Hd as [[= -> ->]|Hd].
      * by left.
      * right. eauto.
Qed.

Lemma elem_of_items_dict_add t v t' v' (d : dict) :
  (t', v') ∈ items (dict_add t v d) ↔ (t', v') ∈ items d ∨ (t' = t ∧ v' = v).
Proof.
  induction d as [|[t0 vs] d IH]; cbn [dict_add].
  - rewrite items_cons, elem_of_app, elem_of_pair_fmap, list_elem_of_singleton.
    change (items []) with (@nil (string * string)). rewrite elem_of_nil. tauto.
  - destruct (decide (t0 = t)) as [->|Hne].
    + rewrite !items_cons, !elem_of_app, !elem_of_pair_fmap.
      destruct (decide (v ∈ vs)) as [Hin|Hnin].
      * split; [tauto|]. intros [H|[-> ->]]; [done|]. by left.
      * rewrite elem_of_app, list_elem_of_singleton. tauto.
    + rewrite !items_cons, !elem_of_app, IH. tauto.
Qed.

End dict_facts.

Section index_facts.

Lemma idx_get_ensure_type ix t t' v' :
  idx_get (ensure_type t ix) t' v' = idx_get ix t' v'.
Proof.
  unfold ensure_type, idx_get. destruct (ix !! t) eqn:Ht; [done|].
  destruct (decide (t = t')) as [<-|Hne].
  - rewrite lookup_insert_eq, Ht. simpl. apply lookup_empty.
  - by rewrite lookup_insert_ne.
Qed.

Lemma idx_get_idx_set ix t v r t' v' :
  idx_get (idx_set t v r ix) t' v' =
  if decide (t' = t ∧ v' = v) then Some r else idx_get ix t' v'.
Proof.
  unfold idx_set, idx_get. destruct (decide (t = t')) as [<-|Hne].
  - rewrite lookup_insert_eq. simpl. destruct (decide (v = v')) as [<-|Hnv].
    + rewrite lookup_insert_eq. by rewrite decide_True.
    + rewrite lookup_insert_ne by done.
      rewrite decide_False by (intros [_ Hv]; by apply Hnv).
      destruct (ix !! t); [done|]. simpl. apply lookup_empty.
  - rewrite lookup_insert_ne by done.
    by rewrite decide_False by (intros [Ht _]; by apply Hne).
Qed.

Lemma idx_get_insert_Some ix t v r m :
  ix !! t = Some m → <[t := <[v := r]> m]> ix = idx_set t v r ix.
Proof. intros H. unfold idx_set. by rewrite H. Qed.

Lemma idx_get_insert_None ix t v r :
  ix !! t = None → <[t := <[v := r]> ∅]> ix = idx_set t v r ix.
Proof. intros H. unfold idx_set. by rewrite H. Qed.

Lemma idx_get_update_refs a b db t v :
  idx_get (idents (update_refs a b db)) t v =
  repoint a b <$> idx_get (idents db) t v.
Proof.
  unfold update_refs, idx_get. simpl. rewrite lookup_fmap.
  destruct (idents db !! t) as [m|]; [|done]. simpl. apply lookup_fmap.
Qed.

Lemma value_in_true ix t v :
  value_in ix t v = true ↔ is_Some (idx_get ix t v).
Proof. unfold value_in. apply bool_decide_eq_true. Qed.

Lemma value_in_Some ix t v r :
  idx_get ix t v = Some r → value_in ix t v = true.
Proof. intros H. apply value_in_true. eauto. Qed.

Lemma value_in_None ix t v :
  idx_get ix t v = None → value_in ix t v = false.
Proof.
  intros H. unfold value_in. apply bool_decide_eq_false. rewrite H.
  by intros [? ?].
Qed.

(** [person_with_identifier] in terms of the index lookup. *)
Lemma person_with_identifier_unfold t v db :
  person_with_identifier t v db =
  match idx_get (idents db) t v with
  | Some r => (r, db)
  | None =>
      let r := length (objs db) in
      (r, mkDB (pid db) (idx_set t v r (idents db)) ({[r]} ∪ people db)
            (objs db ++ [mkParticipant None [(t, [v])]]))
  end.
Proof.
  unfold person_with_identifier, idx_get.
  destruct (idents db !! t) as [m|] eqn:Ht; simpl.
  - destruct (m !! v) eqn:Hv; [done|]. simpl.
    by rewrite (idx_get_insert_Some _ _ _ _ _ Ht).
  - by rewrite (idx_get_insert_None _ _ _ _ Ht).
Qed.

End index_facts.

(** * C7: [person_with_identifier] is get-or-create *)

(** C7.  [person_with_identifier t v]: when [(t, v)] is in the index, the
    owning person is returned and the database is unchanged; when it is
    not, the person returned is a new object of the store whose only
    identifier is [(t, v)], a member of the people set and the owner of
    [(t, v)] in the index; in every state a second call with the same
    arguments returns the person the first one returned and changes
    nothing. *)
Theorem person_with_identifier_get_or_create (t v : string) (db : ParticipantDB) :
  (∀ r, idx_get (idents db) t v = Some r →
        person_with_identifier t v db = (r, db)) ∧
  (idx_get (idents db) t v = None →
     let r := (person_with_identifier t v db).1 in
     let db' := (person_with_identifier t v db).2 in
     objs db !! r = None ∧
     objs db' !! r = Some (mkParticipant None [(t, [v])]) ∧
     r ∈ people db' ∧
     idx_get (idents db') t v = Some r) ∧
  person_with_identifier t v (person_with_identifier t v db).2 =
    person_with_identifier t v db.
Proof.
  assert (Hpwi := person_with_identifier_unfold t v db).
  destruct (idx_get (idents db) t v) as [r|] eqn:Hget.
  - split_and!.
    + by intros ? [= <-].
    + done.
    + rewrite Hpwi. simpl. rewrite person_with_identifier_unfold. by rewrite Hget.
  - rewrite Hpwi. simpl. split_and!.
    + done.
    + intros _. split_and!.
      * apply lookup_ge_None. lia.
      * rewrite lookup_app_r by lia. by rewrite Nat.sub_diag.
      * set_solver.
      * rewrite idx_get_idx_set. by rewrite decide_True.
    + rewrite person_with_identifier_unfold. simpl.
      rewrite idx_get_idx_set. by rewrite decide_True.
Qed.

(** * The cases of [identifies_same_person] *)

Section same_person_cases.

Lemma identifies_same_person_unfold fuel t1 v1 t2 v2 db :
  identifies_same_person fuel t1 v1 t2 v2 db =
  let db0 := ensure_types t1 t2 db in
  match idx_get (idents db0) t1 v1, idx_get (idents db0) t2 v2 with
  | None, None =>
      match fuel with
      | O => Raise RecursionError
      | S fuel' =>
          identifies_same_person fuel' t1 v1 t2 v2
            (person_with_identifier t1 v1 db0).2
      end
  | Some p, None => Ok (attach p t2 v2 db0)
  | None, Some p => Ok (attach p t1 v1 db0)
  | Some p1, Some p2 =>
      if decide (p1 = p2) then Ok db0 else merge_decision p1 p2 db0
  end.
Proof.
  cbv zeta. set (db0 := ensure_types t1 t2 db).
  assert (Hstep : identifies_same_person fuel t1 v1 t2 v2 db =
    if negb (value_in (idents db0) t1 v1) && negb (value_in (idents db0) t2 v2)
    then match fuel with
         | O => Raise RecursionError
         | S fuel' => identifies_same_person fuel' t1 v1 t2 v2
                        (person_with_identifier t1 v1 db0).2
         end
    else if value_in (idents db0) t1 v1 && negb (value_in (idents db0) t2 v2)
    then person ← index_person db0 t1 v1; Ok (attach person t2 v2 db0)
    else if negb (value_in (idents db0) t1 v1) && value_in (idents db0) t2 v2
    then person ← index_person db0 t2 v2; Ok (attach person t1 v1 db0)
    else if value_in (idents db0) t1 v1 && value_in (idents db0) t2 v2
    then person1 ← index_person db0 t1 v1;
         person2 ← index_person db0 t2 v2;
         if decide (person1 = person2) then Ok db0
         else
           let id1 := person_id (deref (objs db0) person1) in
           let id2 := person_id (deref (objs db0) person2) in
           if isNone id1 && isNone id2 then
             people_remove person2 (absorb person2 person1 db0)
           else if negb (isNone id1) && isNone id2 then
             people_remove person2 (absorb person2 person1 db0)
           else if isNone id1 && negb (isNone id2) then
             people_remove person1 (absorb person1 person2 db0)
           else
             match id1, id2 with
             | Some id1, Some id2 =>
                 if (num_idents (deref (objs db0) person1)
                     <? num_idents (deref (objs db0) person2))%nat
                 then Ok (db_add_identifier person2 replaced_by id1
                            (absorb person2 person1 db0))
                 else Ok (db_add_identifier person1 replaced_by id2
                            (absorb person1 person2 db0))
             | _, _ => Raise (RuntimeError "This cannot happen (1)")
             end
    else Raise (RuntimeError "This cannot happen (2)")).
  { destruct fuel; reflexivity. }
  rewrite Hstep. clear Hstep. unfold index_person.
  destruct (idx_get (idents db0) t1 v1) as [p1|] eqn:H1;
    destruct (idx_get (idents db0) t2 v2) as [p2|] eqn:H2;
    rewrite ?(value_in_Some _ _ _ _ H1), ?(value_in_Some _ _ _ _ H2),
      ?(value_in_None _ _ _ H1), ?(value_in_None _ _ _ H2); simpl; try done.
  destruct (decide (p1 = p2)); [done|].
  unfold merge_decision. simpl.
  destruct (person_id (deref (objs db) p1)), (person_id (deref (objs db) p2));
    done.
Qed.

End same_person_cases.

(** * The object store under [add_identifier] and [merge_into] *)

Section store_facts.

Lemma deref_alter f h r r' :
  deref (alter f r h) r' =
  if decide (r' = r ∧ (r < length h)%nat) then f (deref h r) else deref h r'.
Proof.
  unfold deref. destruct (decide (r' = r)) as [->|Hne].
  - rewrite list_lookup_alter_eq. destruct (h !! r) eqn:Hr; simpl.
    + apply lookup_lt_Some in Hr as Hlt. by rewrite decide_True by done.
    + apply lookup_ge_None in Hr.
      by rewrite decide_False by (intros [_ ?]; lia).
  - rewrite list_lookup_alter_ne by done.
    by rewrite decide_False by (intros [? _]; done).
Qed.

Lemma deref_lt_of_person_id h r s :
  person_id (deref h r) = Some s → (r < length h)%nat.
Proof.
  unfold deref. destruct (h !! r) eqn:Hr; [|done].
  intros _. by apply lookup_lt_Some in Hr.
Qed.

Lemma deref_lt_of_items h r k :
  k ∈ items (identifiers (deref h r)) → (r < length h)%nat.
Proof.
  unfold deref. destruct (h !! r) eqn:Hr.
  - intros _. by apply lookup_lt_Some in Hr.
  - simpl. by intros ?%elem_of_nil.
Qed.

Lemma deref_app_l h h' r :
  (r < length h)%nat → deref (h ++ h') r = deref h r.
Proof. intros Hlt. unfold deref. by rewrite lookup_app_l. Qed.

Lemma deref_app_new h p :
  deref (h ++ [p]) (length h) = p.
Proof.
  unfold deref. rewrite lookup_app_r by lia. by rewrite Nat.sub_diag.
Qed.

Lemma deref_ge h r :
  (length h ≤ r)%nat → deref h r = Participant_init None.
Proof. intros Hge. unfold deref. by rewrite lookup_ge_None_2. Qed.

Lemma add_all_cons dst k l h :
  add_all dst (k :: l) h = add_all dst l (alter (add_identifier k.1 k.2) dst h).
Proof. reflexivity. Qed.

Lemma add_all_length dst l h : length (add_all dst l h) = length h.
Proof.
  revert h. induction l as [|k l IH]; intros h; [done|].
  rewrite add_all_cons, IH. apply length_alter.
Qed.

Lemma add_all_other dst l h r :
  r ≠ dst → deref (add_all dst l h) r = deref h r.
Proof.
  intros Hne. revert h. induction l as [|k l IH]; intros h; [done|].
  rewrite add_all_cons, IH, deref_alter.
  by rewrite decide_False by (intros [? _]; done).
Qed.

Lemma add_all_person_id dst l h r :
  person_id (deref (add_all dst l h) r) = person_id (deref h r).
Proof.
  revert h. induction l as [|k l IH]; intros h; [done|].
  rewrite add_all_cons, IH, deref_alter.
  by destruct (decide _) as [[-> _]|].
Qed.

Lemma add_all_items dst l h k :
  k ∈ items (identifiers (deref (add_all dst l h) dst)) ↔
  k ∈ items (identifiers (deref h dst)) ∨ ((dst < length h)%nat ∧ k ∈ l).
Proof.
  revert h. induction l as [|[t v] l IH]; intros h.
  - simpl. rewrite elem_of_nil. tauto.
  - rewrite add_all_cons, IH, deref_alter, length_alter.
    rewrite elem_of_cons. destruct k as [t' v'].
    destruct (decide (dst = dst ∧ (dst < length h)%nat)) as [[_ Hlt]|Hn].
    + simpl. rewrite elem_of_items_dict_add. split.
      * intros [[H|[-> ->]]|[_ H]]; auto.
      * intros [H|[_ [[= -> ->]|H]]]; auto.
    + assert (¬ (dst < length h)%nat) by (intros ?; by apply Hn). tauto.
Qed.

Lemma store_merge_into_length src dst h :
  length (store_merge_into src dst h) = length h.
Proof. unfold store_merge_into. rewrite length_alter. apply add_all_length. Qed.

Lemma store_merge_into_person_id src dst h r :
  person_id (deref (store_merge_into src dst h) r) = person_id (deref h r).
Proof.
  unfold store_merge_into. rewrite deref_alter.
  destruct (decide _) as [[-> _]|]; simpl; apply add_all_person_id.
Qed.

Lemma store_merge_into_items src dst h r k :
  src ≠ dst →
  k ∈ items (identifiers (deref (store_merge_into src dst h) r)) ↔
  (r ≠ src ∧ k ∈ items (identifiers (deref h r))) ∨
  (r = dst ∧ (dst < length h)%nat ∧ k ∈ items (identifiers (deref h src))).
Proof.
  intros Hne. unfold store_merge_into. rewrite deref_alter.
  fold (add_all dst (items (identifiers (deref h src))) h).
  rewrite add_all_length.
  destruct (decide (r = src ∧ (src < length h)%nat)) as [[-> Hlt]|Hn].
  - simpl. change (items []) with (@nil (string * string)).
    rewrite elem_of_nil. split; [done|]. intros [[? _]|[? _]]; done.
  - destruct (decide (r = dst)) as [->|Hrd].
    + rewrite add_all_items. split.
      * intros [H|[H1 H2]]; [left|right]; auto.
      * intros [[_ H]|[_ [H1 H2]]]; auto.
    + rewrite add_all_other by done. split.
      * intros H. left. split; [|done]. intros ->.
        apply Hn. split; [done|]. by apply deref_lt_of_items in H.
      * intros [[_ H]|[? _]]; done.
Qed.

End store_facts.

(** * The database under the steps of [identifies_same_person] *)

Section db_facts.

Lemma ensure_type_present (ix : gmap string (gmap string ref)) t :
  is_Some (ix !! t) → ensure_type t ix = ix.
Proof. intros [m Hm]. unfold ensure_type. by rewrite Hm. Qed.

Lemma ensure_type_lookup (ix : gmap string (gmap string ref)) t t' :
  is_Some (ix !! t') ∨ t' = t → is_Some (ensure_type t ix !! t').
Proof.
  unfold ensure_type. intros [H| ->].
  - destruct (ix !! t) eqn:Ht; [done|].
    destruct (decide (t = t')) as [->|Hne].
    + rewrite lookup_insert_eq. eauto.
    + by rewrite lookup_insert_ne.
  - destruct (ix !! t) eqn:Ht; [eauto|]. rewrite lookup_insert_eq. eauto.
Qed.

Lemma idx_set_lookup (ix : gmap string (gmap string ref)) t v r t' :
  is_Some (ix !! t') ∨ t' = t → is_Some (idx_set t v r ix !! t').
Proof.
  unfold idx_set. intros H. destruct (decide (t = t')) as [->|Hne].
  - rewrite lookup_insert_eq. eauto.
  - rewrite lookup_insert_ne by done. by destruct H as [H| ->].
Qed.

Lemma idx_get_ensure_types t1 t2 db t v :
  idx_get (idents (ensure_types t1 t2 db)) t v = idx_get (idents db) t v.
Proof. simpl. by rewrite !idx_get_ensure_type. Qed.

Lemma holds_ensure_types t1 t2 db r t v :
  holds (ensure_types t1 t2 db) r t v ↔ holds db r t v.
Proof. done. Qed.

Lemma holds_db_add_identifier r t v db r' t' v' :
  holds (db_add_identifier r t v db) r' t' v' ↔
  holds db r' t' v' ∨ (r' = r ∧ (r < length (objs db))%nat ∧ t' = t ∧ v' = v).
Proof.
  unfold holds, db_add_identifier. cbn [objs set_objs].
  rewrite deref_alter. destruct (decide _) as [[-> Hlt]|Hn].
  - cbn [add_identifier identifiers]. rewrite elem_of_items_dict_add. tauto.
  - split; [by left|]. intros [H|(-> & Hlt & _)]; [done|].
    exfalso. by apply Hn.
Qed.

Lemma holds_attach r t v db r' t' v' :
  holds (attach r t v db) r' t' v' ↔
  holds db r' t' v' ∨ (r' = r ∧ (r < length (objs db))%nat ∧ t' = t ∧ v' = v).
Proof. apply holds_db_add_identifier. Qed.

Lemma idx_get_attach r t v db t' v' :
  idx_get (idents (attach r t v db)) t' v' =
  if decide (t' = t ∧ v' = v) then Some r else idx_get (idents db) t' v'.
Proof. apply idx_get_idx_set. Qed.

Lemma holds_absorb src dst db r t v :
  src ≠ dst →
  holds (absorb src dst db) r t v ↔
  (r ≠ src ∧ holds db r t v) ∨
  (r = dst ∧ (dst < length (objs db))%nat ∧ holds db src t v).
Proof. intros Hne. by apply store_merge_into_items. Qed.

Lemma idx_get_absorb src dst db t v :
  idx_get (idents (absorb src dst db)) t v =
  repoint src dst <$> idx_get (idents db) t v.
Proof. unfold absorb. by rewrite idx_get_update_refs. Qed.

Lemma person_id_absorb src dst db r :
  person_id (deref (objs (absorb src dst db)) r) = person_id (deref (objs db) r).
Proof. apply store_merge_into_person_id. Qed.

Lemma person_id_db_add_identifier r0 t v db r :
  person_id (deref (objs (db_add_identifier r0 t v db)) r) =
  person_id (deref (objs db) r).
Proof.
  cbn [db_add_identifier objs set_objs]. rewrite deref_alter.
  by destruct (decide _) as [[-> _]|].
Qed.

Lemma length_objs_absorb src dst db :
  length (objs (absorb src dst db)) = length (objs db).
Proof. apply store_merge_into_length. Qed.

Lemma length_objs_db_add_identifier r t v db :
  length (objs (db_add_identifier r t v db)) = length (objs db).
Proof. apply length_alter. Qed.

Lemma people_remove_Ok r db :
  r ∈ people db → people_remove r db = Ok (set_people (people db ∖ {[r]}) db).
Proof. intros H. unfold people_remove. by rewrite decide_True. Qed.

Lemma people_remove_inv r db db' :
  people_remove r db = Ok db' →
  r ∈ people db ∧ db' = set_people (people db ∖ {[r]}) db.
Proof.
  unfold people_remove. destruct (decide _); [|done]. by intros [= <-].
Qed.

End db_facts.

(** * C1, C2: merging two known persons *)

Section merge.

Lemma store_merge_into_src src dst h :
  identifiers (deref (store_merge_into src dst h) src) = [].
Proof.
  unfold store_merge_into. rewrite deref_alter.
  destruct (decide _) as [|Hn]; [done|].
  fold (add_all dst (items (identifiers (deref h src))) h) in *.
  rewrite add_all_length in Hn.
  rewrite deref_ge; [done|]. rewrite add_all_length.
  destruct (decide (src < length h)%nat); [|lia]. exfalso. by apply Hn.
Qed.

Lemma absorb_merged_into src dst db :
  src ≠ dst → (dst < length (objs db))%nat →
  merged_into db (absorb src dst db) src dst.
Proof.
  intros Hne Hlt. split_and!.
  - intros t v. rewrite holds_absorb by done. split.
    + intros [[_ ?]|(_ & _ & ?)]; auto.
    + intros [?|?]; [left|right]; auto.
  - intros t v r Hr. by rewrite idx_get_absorb, Hr.
  - apply person_id_absorb.
  - apply person_id_absorb.
Qed.

Lemma merged_into_ensure_types t1 t2 db db' away surv :
  merged_into (ensure_types t1 t2 db) db' away surv → merged_into db db' away surv.
Proof.
  intros (H1 & H2 & H3 & H4). split_and!; try done.
  intros t v r Hr. apply H2. by rewrite idx_get_ensure_types.
Qed.

Lemma merged_into_tombstone db db' away surv s :
  away ≠ surv →
  merged_into db db' away surv →
  merged_into db (db_add_identifier away replaced_by s db') away surv.
Proof.
  intros Hne (H1 & H2 & H3 & H4). split_and!.
  - intros t v. rewrite holds_db_add_identifier, H1. split; [|tauto].
    intros [?|[? _]]; [done|]. by destruct Hne.
  - done.
  - by rewrite person_id_db_add_identifier.
  - by rewrite person_id_db_add_identifier.
Qed.

Lemma tombstone_identifiers src dst db s :
  (src < length (objs db))%nat →
  identifiers (deref (objs (db_add_identifier src replaced_by s (absorb src dst db))) src)
  = [(replaced_by, [s])].
Proof.
  intros Hlt. cbn [db_add_identifier objs set_objs]. rewrite deref_alter.
  rewrite decide_True by (by rewrite length_objs_absorb).
  cbn [add_identifier identifiers absorb update_refs merge_into objs set_objs
       set_idents].
  by rewrite store_merge_into_src.
Qed.

(** C1 (as the code has it).  When both identifiers are known, owned by
    two distinct persons that both have stable IDs: if the second
    person holds strictly more identifiers than the first, the second
    is merged into the first; otherwise (fewer or as many) the first is
    merged into the second, so the second argument wins a tie.  In both
    cases the identifiers of the person merged away become the single
    [("replaced_by", <stable ID of the survivor>)]. *)
Theorem both_stable_merge fuel t1 v1 t2 v2 db (p1 p2 : ref) id1 id2 :
  idx_get (idents db) t1 v1 = Some p1 →
  idx_get (idents db) t2 v2 = Some p2 →
  p1 ≠ p2 →
  person_id (deref (objs db) p1) = Some id1 →
  person_id (deref (objs db) p2) = Some id2 →
  ∃ db', identifies_same_person fuel t1 v1 t2 v2 db = Ok db' ∧
    if (num_idents (deref (objs db) p1) <? num_idents (deref (objs db) p2))%nat
    then merged_into db db' p2 p1 ∧
         identifiers (deref (objs db') p2) = [(replaced_by, [id1])]
    else merged_into db db' p1 p2 ∧
         identifiers (deref (objs db') p1) = [(replaced_by, [id2])].
Proof.
  intros H1 H2 Hne Hid1 Hid2.
  rewrite identifies_same_person_unfold. cbv zeta.
  rewrite !idx_get_ensure_types, H1, H2.
  rewrite decide_False by done. unfold merge_decision.
  change (objs (ensure_types t1 t2 db)) with (objs db).
  rewrite Hid1, Hid2.
  assert (Hlt1 := deref_lt_of_person_id _ _ _ Hid1).
  assert (Hlt2 := deref_lt_of_person_id _ _ _ Hid2).
  destruct (num_idents (deref (objs db) p1) <? num_idents (deref (objs db) p2))%nat.
  - eexists. split; [done|]. split.
    + apply merged_into_ensure_types with t1 t2.
      apply merged_into_tombstone; [done|].
      by apply absorb_merged_into.
    + by apply tombstone_identifiers.
  - eexists. split; [done|]. split.
    + apply merged_into_ensure_types with t1 t2.
      apply merged_into_tombstone; [done|].
      by apply absorb_merged_into.
    + by apply tombstone_identifiers.
Qed.

(** C2 (as the code has it).  After a merge of two distinct known
    persons, every index entry that pointed at the person merged away
    points at the survivor and the other entries are unchanged.  When at
    most one of the two has a stable ID the person merged away leaves
    the people set; when both have one it stays a member, carrying the
    [replaced_by] identifier. *)
Theorem merge_repoints_index fuel t1 v1 t2 v2 db (p1 p2 : ref) :
  idx_get (idents db) t1 v1 = Some p1 →
  idx_get (idents db) t2 v2 = Some p2 →
  p1 ≠ p2 →
  p1 ∈ people db → p2 ∈ people db →
  let away := merged_away db p1 p2 in
  let surv := survivor db p1 p2 in
  ∃ db', identifies_same_person fuel t1 v1 t2 v2 db = Ok db' ∧
    (∀ t v r, idx_get (idents db) t v = Some r →
              idx_get (idents db') t v = Some (repoint away surv r)) ∧
    (∀ t v, idx_get (idents db') t v ≠ Some away) ∧
    surv ∈ people db' ∧
    (both_stable db p1 p2 → away ∈ people db') ∧
    (¬ both_stable db p1 p2 → away ∉ people db').
Proof.
  intros H1 H2 Hne Hp1 Hp2 away surv.
  rewrite identifies_same_person_unfold. cbv zeta.
  rewrite !idx_get_ensure_types, H1, H2.
  rewrite decide_False by done.
  assert (Hrepoint : ∀ src dst, src ≠ dst → ∀ t v,
    idx_get (idents (absorb src dst (ensure_types t1 t2 db))) t v ≠ Some src).
  { intros src dst Hsd t v. rewrite idx_get_absorb.
    destruct (idx_get _ t v) as [r|]; [|done]. simpl. unfold repoint.
    intros [= Heq]. destruct (decide (r = src)); congruence. }
  assert (Hidx : ∀ src dst t v r, idx_get (idents db) t v = Some r →
    idx_get (idents (absorb src dst (ensure_types t1 t2 db))) t v
    = Some (repoint src dst r)).
  { intros src dst t v r Hr.
    by rewrite idx_get_absorb, idx_get_ensure_types, Hr. }
  subst away surv. unfold survivor, merge_decision, both_stable, merged_away.
  change (objs (ensure_types t1 t2 db)) with (objs db).
  destruct (person_id (deref (objs db) p1)) as [id1|] eqn:Hid1;
    destruct (person_id (deref (objs db) p2)) as [id2|] eqn:Hid2.
  - destruct (num_idents (deref (objs db) p1) <? num_idents (deref (objs db) p2))%nat.
    + rewrite decide_False by congruence. eexists. split; [done|].
      split_and!; [exact (Hidx _ _)|exact (Hrepoint p2 p1 ltac:(congruence))|done|done|].
      intros []. split; eauto.
    + rewrite decide_True by done. eexists. split; [done|].
      split_and!; [exact (Hidx _ _)|exact (Hrepoint p1 p2 ltac:(congruence))|done|done|].
      intros []. split; eauto.
  - rewrite decide_False by congruence. rewrite people_remove_Ok by done.
    eexists. split; [done|].
    split_and!; [exact (Hidx _ _)|exact (Hrepoint p2 p1 ltac:(congruence))| | |].
    + cbn. set_solver.
    + by intros [_ [? [=]]].
    + intros _. cbn. set_solver.
  - rewrite decide_True by done. rewrite people_remove_Ok by done.
    eexists. split; [done|].
    split_and!; [exact (Hidx _ _)|exact (Hrepoint p1 p2 ltac:(congruence))| | |].
    + cbn. set_solver.
    + by intros [[? [=]] _].
    + intros _. cbn. set_solver.
  - rewrite decide_False by congruence. rewrite people_remove_Ok by done.
    eexists. split; [done|].
    split_and!; [exact (Hidx _ _)|exact (Hrepoint p2 p1 ltac:(congruence))| | |].
    + cbn. set_solver.
    + by intros [_ [? [=]]].
    + intros _. cbn. set_solver.
Qed.

Lemma both_stable_merge_witness :
  ∃ db', identifies_same_person 1 "email" "a" "email" "b" db_two = Ok db' ∧
    if (num_idents (deref (objs db_two) 0) <? num_idents (deref (objs db_two) 1))%nat
    then merged_into db_two db' 1 0 ∧
         identifiers (deref (objs db') 1%nat) = [(replaced_by, ["PID:000001"])]
    else merged_into db_two db' 0 1 ∧
         identifiers (deref (objs db') 0%nat) = [(replaced_by, ["PID:000002"])].
Proof.
  apply (both_stable_merge 1 "email" "a" "email" "b" db_two 0 1
           "PID:000001" "PID:000002").
  - vm_compute. reflexivity.
  - vm_compute. reflexivity.
  - lia.
  - vm_compute. reflexivity.
  - vm_compute. reflexivity.
Defined.

(** C1 as worded fails: the first person holds one identifier and the
    second two, and it is the second, larger, person that is merged away
    into the first. *)
Lemma fewer_into_more_counterexample :
  ∃ db', load int_ascii saved_two = Ok db_two ∧
    identifies_same_person 1 "email" "a" "email" "b" db_two = Ok db' ∧
    idx_get (idents db_two) "email" "a" = Some 0%nat ∧
    idx_get (idents db_two) "email" "b" = Some 1%nat ∧
    num_idents (deref (objs db_two) 0) = 1%nat ∧
    num_idents (deref (objs db_two) 1) = 2%nat ∧
    fewer_into_more_survivor db_two 0 1 = 1%nat ∧
    idx_get (idents db') "email" "b" = Some 0%nat ∧
    idx_get (idents db') "email" "b" ≠ Some (fewer_into_more_survivor db_two 0 1) ∧
    identifiers (deref (objs db') 1%nat) = [(replaced_by, ["PID:000001"])].
Proof.
  eexists. split; [vm_compute; reflexivity|].
  split_and!; try (vm_compute; reflexivity).
  vm_compute. discriminate.
Qed.

Lemma gset_elem_of_compute (x : nat) (s : gset nat) :
  bool_decide (x ∈ s) = true → x ∈ s.
Proof. apply bool_decide_eq_true_1. Qed.

Lemma merge_repoints_index_witness :
  ∃ db', identifies_same_person 1 "email" "a" "email" "b" db_tie = Ok db' ∧
    (∀ t v r, idx_get (idents db_tie) t v = Some r →
              idx_get (idents db') t v
              = Some (repoint (merged_away db_tie 0 1) (survivor db_tie 0 1) r)) ∧
    (∀ t v, idx_get (idents db') t v ≠ Some (merged_away db_tie 0 1)) ∧
    survivor db_tie 0 1 ∈ people db' ∧
    (both_stable db_tie 0 1 → merged_away db_tie 0 1 ∈ people db') ∧
    (¬ both_stable db_tie 0 1 → merged_away db_tie 0 1 ∉ people db').
Proof.
  apply (merge_repoints_index 1 "email" "a" "email" "b" db_tie 0 1).
  - vm_compute. reflexivity.
  - vm_compute. reflexivity.
  - lia.
  - apply gset_elem_of_compute. vm_compute. reflexivity.
  - apply gset_elem_of_compute. vm_compute. reflexivity.
Defined.

(** C2 as worded fails when both persons have stable IDs: the person
    merged away (address 0) is still a member of the people set. *)
Lemma merged_away_stays_counterexample :
  ∃ db', load int_ascii saved_tie = Ok db_tie ∧
    identifies_same_person 1 "email" "a" "email" "b" db_tie = Ok db' ∧
    idx_get (idents db_tie) "email" "a" = Some 0%nat ∧
    idx_get (idents db_tie) "email" "b" = Some 1%nat ∧
    idx_get (idents db') "email" "a" = Some 1%nat ∧
    identifiers (deref (objs db') 0%nat) = [(replaced_by, ["PID:000002"])] ∧
    0%nat ∈ people db'.
Proof.
  eexists. split; [vm_compute; reflexivity|].
  split_and!; try (vm_compute; reflexivity).
Qed.

End merge.

(** * [identifies_same_person] without recursion *)

Section same_person_result.

Lemma ensure_types_fixed t1 t2 db :
  is_Some (idents db !! t1) → is_Some (idents db !! t2) →
  ensure_types t1 t2 db = db.
Proof.
  intros H1 H2. unfold ensure_types.
  rewrite (ensure_type_present _ t1) by done.
  rewrite (ensure_type_present _ t2) by done. by destruct db.
Qed.

Lemma ensure_types_lookup t1 t2 db :
  is_Some (idents (ensure_types t1 t2 db) !! t1) ∧
  is_Some (idents (ensure_types t1 t2 db) !! t2).
Proof.
  simpl. split.
  - apply ensure_type_lookup. left. apply ensure_type_lookup. by right.
  - apply ensure_type_lookup. by right.
Qed.

Lemma identifies_same_person_S fuel t1 v1 t2 v2 db :
  identifies_same_person (S fuel) t1 v1 t2 v2 db =
  same_person_result t1 v1 t2 v2 db.
Proof.
  rewrite identifies_same_person_unfold. unfold same_person_result. cbv zeta.
  set (db0 := ensure_types t1 t2 db).
  destruct (idx_get (idents db0) t1 v1) as [p1|] eqn:H1; [done|].
  destruct (idx_get (idents db0) t2 v2) as [p2|] eqn:H2; [done|].
  assert (Hpwi := person_with_identifier_unfold t1 v1 db0).
  rewrite H1 in Hpwi. rewrite Hpwi. cbn [snd].
  set (db1 := mkDB _ _ _ _).
  destruct (ensure_types_lookup t1 t2 db) as [Ht1 Ht2]. fold db0 in Ht1, Ht2.
  rewrite identifies_same_person_unfold. cbv zeta.
  rewrite ensure_types_fixed.
  2: { apply idx_set_lookup. by right. }
  2: { apply idx_set_lookup. by left. }
  subst db1. cbn [idents]. rewrite !idx_get_idx_set.
  rewrite decide_True by done.
  destruct (decide (t2 = t1 ∧ v2 = v1)) as [?|Hn].
  - by rewrite decide_True by done.
  - by rewrite H2.
Qed.

Lemma identifies_same_person_Ok fuel t1 v1 t2 v2 db db' :
  identifies_same_person fuel t1 v1 t2 v2 db = Ok db' →
  same_person_result t1 v1 t2 v2 db = Ok db'.
Proof.
  destruct fuel as [|fuel]; [|by rewrite identifies_same_person_S].
  rewrite identifies_same_person_unfold. unfold same_person_result. cbv zeta.
  destruct (idx_get _ t1 v1), (idx_get _ t2 v2); done.
Qed.

End same_person_result.

(** * The invariant of reachable states *)

Section invariant.

Lemma db_inv_empty : db_inv db_empty.
Proof.
  split.
  - intros r. cbn. set_solver.
  - intros t v r. unfold idx_get. cbn. by rewrite lookup_empty.
Qed.

Lemma db_inv_ensure_types t1 t2 db : db_inv db → db_inv (ensure_types t1 t2 db).
Proof.
  intros [Hc Hi]. split; [done|].
  intros t v r. rewrite idx_get_ensure_types. apply Hi.
Qed.

Lemma db_inv_ensure_type t db :
  db_inv db → db_inv (set_idents (ensure_type t (idents db)) db).
Proof.
  intros [Hc Hi]. split; [done|].
  intros t' v r. cbn. rewrite idx_get_ensure_type. apply Hi.
Qed.

Lemma db_inv_person_with_identifier t v db :
  db_inv db → db_inv (person_with_identifier t v db).2.
Proof.
  intros [Hc Hi]. rewrite person_with_identifier_unfold.
  destruct (idx_get (idents db) t v) as [r|] eqn:Hget; [done|].
  cbn. split.
  - intros r. cbn. rewrite length_app. cbn.
    intros [->%elem_of_singleton|Hr]%elem_of_union; [lia|].
    apply Hc in Hr. lia.
  - intros t' v' r. cbn. rewrite idx_get_idx_set.
    destruct (decide _); [intros [= <-]; set_solver|].
    intros Hr%Hi. set_solver.
Qed.

Lemma db_inv_db_add_identifier r t v db :
  db_inv db → db_inv (db_add_identifier r t v db).
Proof.
  intros [Hc Hi]. split; [|done].
  intros r' Hr'. rewrite length_objs_db_add_identifier. by apply Hc.
Qed.

Lemma db_inv_attach r t v db :
  r ∈ people db → db_inv db → db_inv (attach r t v db).
Proof.
  intros Hr [Hc Hi]. split.
  - intros r' Hr'. cbn. rewrite length_alter. by apply Hc.
  - intros t' v' r'. rewrite idx_get_attach.
    destruct (decide _); [by intros [= <-]|]. apply Hi.
Qed.

Lemma db_inv_absorb src dst db :
  dst ∈ people db → db_inv db → db_inv (absorb src dst db).
Proof.
  intros Hdst [Hc Hi]. split.
  - intros r Hr. rewrite length_objs_absorb. by apply Hc.
  - intros t v r. rewrite idx_get_absorb.
    destruct (idx_get (idents db) t v) as [r0|] eqn:Hr0; [|done].
    cbn. intros [= <-]. unfold repoint. destruct (decide _); [done|].
    by apply Hi in Hr0.
Qed.

Lemma db_inv_absorb_remove src dst db :
  src ≠ dst → dst ∈ people db → db_inv db →
  db_inv (set_people (people (absorb src dst db) ∖ {[src]}) (absorb src dst db)).
Proof.
  intros Hne Hdst Hinv. destruct (db_inv_absorb src dst db Hdst Hinv) as [Hc Hi].
  split.
  - intros r Hr. apply Hc. cbn in Hr. set_solver.
  - intros t v r Hr. cbn. change (idents (set_people _ ?d)) with (idents d) in Hr.
    assert (r ≠ src).
    { rewrite idx_get_absorb in Hr.
      destruct (idx_get (idents db) t v) as [r0|]; [|done].
      cbn in Hr. injection Hr as <-. unfold repoint.
      destruct (decide _); congruence. }
    apply Hi in Hr. cbn in Hr. set_solver.
Qed.

Lemma merge_decision_total (p1 p2 : ref) db :
  p1 ≠ p2 → p1 ∈ people db → p2 ∈ people db → db_inv db →
  ∃ db', merge_decision p1 p2 db = Ok db' ∧ db_inv db'.
Proof.
  intros Hne H1 H2 Hinv. unfold merge_decision.
  destruct (person_id (deref (objs db) p1)), (person_id (deref (objs db) p2)).
  - destruct (_ <? _)%nat; eexists; (split; [done|]);
      apply db_inv_db_add_identifier; by apply db_inv_absorb.
  - rewrite people_remove_Ok by done. eexists. split; [done|].
    apply db_inv_absorb_remove; [congruence|done..].
  - rewrite people_remove_Ok by done. eexists. split; [done|].
    by apply db_inv_absorb_remove.
  - rewrite people_remove_Ok by done. eexists. split; [done|].
    apply db_inv_absorb_remove; [congruence|done..].
Qed.

Lemma same_person_result_total t1 v1 t2 v2 db :
  db_inv db → ∃ db', same_person_result t1 v1 t2 v2 db = Ok db' ∧ db_inv db'.
Proof.
  intros Hinv. apply (db_inv_ensure_types t1 t2) in Hinv as Hinv0.
  unfold same_person_result. cbv zeta.
  destruct (idx_get _ t1 v1) as [p1|] eqn:H1;
    destruct (idx_get _ t2 v2) as [p2|] eqn:H2.
  - destruct (decide (p1 = p2)); [by eexists|].
    apply merge_decision_total; [done|..|done].
    + by apply Hinv0 in H1.
    + by apply Hinv0 in H2.
  - eexists. split; [done|]. apply db_inv_attach; [|done]. by apply Hinv0 in H1.
  - eexists. split; [done|]. apply db_inv_attach; [|done]. by apply Hinv0 in H2.
  - assert (Hinv1 := db_inv_person_with_identifier t1 v1 _ Hinv0).
    destruct (decide _); eexists; (split; [done|]); [done|].
    apply db_inv_attach; [|done].
    rewrite person_with_identifier_unfold, H1. cbn. set_solver.
Qed.

Lemma identifies_same_person_inv fuel t1 v1 t2 v2 db db' :
  db_inv db → identifies_same_person fuel t1 v1 t2 v2 db = Ok db' → db_inv db'.
Proof.
  intros Hinv Hr%identifies_same_person_Ok.
  destruct (same_person_result_total t1 v1 t2 v2 db Hinv) as (db'' & Heq & Hinv').
  congruence.
Qed.

End invariant.

Section invariant_persistence.

Variable py_int : string → option Z.

Lemma people_load_value r t v db :
  people (load_value r t v db) = people db.
Proof. done. Qed.

Lemma db_inv_load_value r t v db :
  r ∈ people db → db_inv db → db_inv (load_value r t v db).
Proof.
  intros Hr Hinv. unfold load_value.
  apply (db_inv_db_add_identifier r t v) in Hinv.
  apply (db_inv_ensure_type t) in Hinv.
  destruct Hinv as [Hc Hi]. split; [done|].
  intros t' v' r'. cbn [set_idents idents]. rewrite idx_get_idx_set.
  destruct (decide _); [by intros [= <-]|]. apply Hi.
Qed.

Lemma db_inv_load_values r l db :
  r ∈ people db → db_inv db →
  db_inv (foldl (fun db tv => load_value r tv.1 tv.2 db) db l) ∧
  people (foldl (fun db tv => load_value r tv.1 tv.2 db) db l) = people db.
Proof.
  revert db. induction l as [|k l IH]; intros db Hr Hinv; [done|].
  cbn [foldl]. destruct (IH (load_value r k.1 k.2 db)) as [H1 H2].
  - by rewrite people_load_value.
  - by apply db_inv_load_value.
  - split; [done|]. by rewrite H2.
Qed.

Lemma db_inv_set_pid n db : db_inv db → db_inv (set_pid n db).
Proof. done. Qed.

Lemma db_inv_load_person db rec db' :
  db_inv db → load_person py_int db rec = Ok db' → db_inv db'.
Proof.
  intros [Hc Hi]. unfold load_person.
  set (db2 := set_people _ _).
  assert (Hinv2 : db_inv db2).
  { split.
    - intros r. cbn. rewrite length_app. cbn.
      intros [->%elem_of_singleton|Hr]%elem_of_union; [lia|].
      apply Hc in Hr. lia.
    - intros t v r Hr. apply Hi in Hr. cbn. set_solver. }
  assert (Hin : length (objs db) ∈ people db2) by (cbn; set_solver).
  destruct (db_inv_load_values (length (objs db)) (items rec.2) db2 Hin Hinv2)
    as [Hinv3 _].
  destruct (py_int _); [|done]. intros [= <-].
  destruct (_ <? _); [by apply db_inv_set_pid|done].
Qed.

Lemma db_inv_load_loop data db db' :
  db_inv db → load_loop py_int data db = Ok db' → db_inv db'.
Proof.
  revert db. induction data as [|rec data IH]; intros db Hinv; cbn [load_loop].
  - by intros [= <-].
  - destruct (load_person py_int db rec) as [db1|] eqn:H1; [|done]. cbn.
    apply IH. by apply db_inv_load_person in H1.
Qed.

Lemma db_inv_init path db : ParticipantDB_init py_int path = Ok db → db_inv db.
Proof.
  destruct path as [data|]; cbn.
  - apply db_inv_load_loop, db_inv_empty.
  - intros [= <-]. apply db_inv_empty.
Qed.

(** What [save] leaves alone. *)
Lemma save_person_frame db out r :
  let db' := (save_person (db, out) r).1 in
  people db' = people db ∧ idents db' = idents db ∧
  length (objs db') = length (objs db).
Proof.
  cbn [save_person]. destruct (person_id _); cbn; [done|].
  by rewrite length_alter.
Qed.

Lemma save_loop_frame order db :
  let db' := (save_loop order db).1 in
  people db' = people db ∧ idents db' = idents db ∧
  length (objs db') = length (objs db).
Proof.
  unfold save_loop. generalize (∅ : gmap string dict).
  revert db. induction order as [|r order IH]; intros db out; [done|].
  cbn [foldl]. destruct (save_person (db, out) r) as [db1 out1] eqn:Hstep.
  destruct (save_person_frame db out r) as (H1 & H2 & H3).
  rewrite Hstep in H1, H2, H3. cbn [fst] in H1, H2, H3.
  destruct (IH db1 out1) as (H1' & H2' & H3'). cbv zeta.
  by rewrite H1', H2', H3'.
Qed.

Lemma save_fst order db : (save order db).1 = (save_loop order db).1.
Proof. unfold save. by destruct (save_loop order db). Qed.

Lemma db_inv_save order db : db_inv db → db_inv (save order db).1.
Proof.
  intros [Hc Hi]. rewrite save_fst.
  destruct (save_loop_frame order db) as (H1 & H2 & H3).
  split.
  - intros r. rewrite H1, H3. apply Hc.
  - intros t v r. rewrite H1, H2. apply Hi.
Qed.

Lemma reachable_db_inv db : reachable py_int db → db_inv db.
Proof.
  induction 1 as [path db _ Hinit|t v db _ IH|fuel t1 v1 t2 v2 db db' _ IH Hcall
                  |order db _ IH _].
  - by apply db_inv_init in Hinit.
  - by apply db_inv_person_with_identifier.
  - by apply identifies_same_person_inv in Hcall.
  - by apply db_inv_save.
Qed.

End invariant_persistence.

(** * C9: [identifies_same_person] does not raise *)

Section never_raises.

Variable py_int : string → option Z.

(** C9.  In every reachable state and for all four strings, a call of
    [identifies_same_person] returns (one level of recursion is enough),
    and at no recursion depth does it reach one of the two
    [RuntimeError] branches. *)
Theorem identifies_same_person_never_raises db t1 v1 t2 v2 :
  reachable py_int db →
  (∀ fuel, ∃ db', identifies_same_person (S fuel) t1 v1 t2 v2 db = Ok db') ∧
  (∀ fuel msg,
     identifies_same_person fuel t1 v1 t2 v2 db ≠ Raise (RuntimeError msg)).
Proof.
  intros Hinv%reachable_db_inv.
  destruct (same_person_result_total t1 v1 t2 v2 db Hinv) as (db' & Hres & _).
  split.
  - intros fuel. exists db'. by rewrite identifies_same_person_S.
  - intros [|fuel] msg.
    + rewrite identifies_same_person_unfold. cbv zeta.
      unfold same_person_result in Hres. cbv zeta in Hres.
      destruct (idx_get _ t1 v1), (idx_get _ t2 v2); try done.
      destruct (decide _); [done|]. by rewrite Hres.
    + by rewrite identifies_same_person_S, Hres.
Qed.

End never_raises.

Lemma identifies_same_person_never_raises_witness :
  (∀ fuel, ∃ db',
     identifies_same_person (S fuel) "email" "j.doe@example.org"
       "name" "Jane Doe" db_empty = Ok db') ∧
  (∀ fuel msg,
     identifies_same_person fuel "email" "j.doe@example.org"
       "name" "Jane Doe" db_empty ≠ Raise (RuntimeError msg)).
Proof.
  apply (identifies_same_person_never_raises int_ascii db_empty).
  apply (reach_init int_ascii None); done.
Defined.

(** * C5: identifiers are conserved *)

Section conservation.

Lemma conserves_attach p t1 v1 t2 v2 t v db :
  (t = t1 ∧ v = v1) ∨ (t = t2 ∧ v = v2) →
  conserves t1 v1 t2 v2 db (attach p t v db).
Proof.
  intros Harg. split_and!.
  - intros t' v' (r & Hr & Hh). exists r. split; [done|].
    apply holds_attach. by left.
  - intros t' v' (r & Hr & Hh). apply holds_attach in Hh as [Hh|(-> & _ & -> & ->)].
    + left. by exists r.
    + right. destruct Harg; auto.
  - intros r. apply person_id_db_add_identifier.
Qed.

Lemma conserves_absorb_remove src dst t1 v1 t2 v2 db :
  src ≠ dst → src ∈ people db → dst ∈ people db → people_closed db →
  conserves t1 v1 t2 v2 db
    (set_people (people (absorb src dst db) ∖ {[src]}) (absorb src dst db)).
Proof.
  intros Hne Hsrc Hdst Hc. split_and!.
  - intros t v (r & Hr & Hh). destruct (decide (r = src)) as [->|Hrs].
    + exists dst. split; [cbn; set_solver|].
      apply (holds_absorb src dst db dst t v Hne). right.
      split_and!; [done|by apply Hc|done].
    + exists r. split; [cbn; set_solver|].
      apply (holds_absorb src dst db r t v Hne). by left.
  - intros t v (r & Hr & Hh). left.
    apply (holds_absorb src dst db r t v Hne) in Hh as [[_ Hh]|(_ & _ & Hh)].
    + exists r. split; [cbn in Hr; set_solver|done].
    + by exists src.
  - intros r. apply person_id_absorb.
Qed.

Lemma conserves_absorb_tombstone src dst s t1 v1 t2 v2 db :
  src ≠ dst → src ∈ people db → dst ∈ people db → people_closed db →
  person_id (deref (objs db) dst) = Some s →
  conserves t1 v1 t2 v2 db
    (db_add_identifier src replaced_by s (absorb src dst db)).
Proof.
  intros Hne Hsrc Hdst Hc Hs. split_and!.
  - intros t v (r & Hr & Hh). destruct (decide (r = src)) as [->|Hrs].
    + exists dst. split; [done|]. apply holds_db_add_identifier. left.
      apply (holds_absorb src dst db dst t v Hne). right.
      split_and!; [done|by apply Hc|done].
    + exists r. split; [done|]. apply holds_db_add_identifier. left.
      apply (holds_absorb src dst db r t v Hne). by left.
  - intros t v (r & Hr & Hh).
    apply holds_db_add_identifier in Hh as [Hh|(-> & _ & -> & ->)].
    + left.
      apply (holds_absorb src dst db r t v Hne) in Hh as [[_ Hh]|(_ & _ & Hh)].
      * by exists r.
      * by exists src.
    + right. right. right. split; [done|]. by exists dst.
  - intros r. rewrite person_id_db_add_identifier. apply person_id_absorb.
Qed.

Lemma conserves_merge_decision (p1 p2 : ref) t1 v1 t2 v2 db db' :
  p1 ≠ p2 → p1 ∈ people db → p2 ∈ people db → people_closed db →
  merge_decision p1 p2 db = Ok db' → conserves t1 v1 t2 v2 db db'.
Proof.
  intros Hne H1 H2 Hc. unfold merge_decision.
  destruct (person_id (deref (objs db) p1)) eqn:Hid1;
    destruct (person_id (deref (objs db) p2)) eqn:Hid2.
  - destruct (_ <? _)%nat; intros [= <-].
    + apply conserves_absorb_tombstone; [congruence|done..].
    + by apply conserves_absorb_tombstone.
  - rewrite people_remove_Ok by done. intros [= <-].
    apply conserves_absorb_remove; [congruence|done..].
  - rewrite people_remove_Ok by done. intros [= <-].
    by apply conserves_absorb_remove.
  - rewrite people_remove_Ok by done. intros [= <-].
    apply conserves_absorb_remove; [congruence|done..].
Qed.

Lemma conserves_refl t1 v1 t2 v2 db : conserves t1 v1 t2 v2 db db.
Proof. split_and!; auto. Qed.

Lemma conserves_trans t1 v1 t2 v2 db1 db2 db3 :
  conserves t1 v1 t2 v2 db1 db2 → conserves t1 v1 t2 v2 db2 db3 →
  conserves t1 v1 t2 v2 db1 db3.
Proof.
  intros (A1 & B1 & C1) (A2 & B2 & C2). split_and!.
  - auto.
  - intros t v [H|[H|[H|[-> [r Hr]]]]]%B2; auto.
    right. right. right. split; [done|]. exists r. by rewrite <- C1.
  - intros r. by rewrite C2.
Qed.

Lemma conserves_ensure_types ta tb t1 v1 t2 v2 db :
  conserves t1 v1 t2 v2 db (ensure_types ta tb db).
Proof. split_and!; auto. Qed.

Lemma conserves_person_with_identifier t1 v1 t2 v2 db :
  people_closed db →
  conserves t1 v1 t2 v2 db (person_with_identifier t1 v1 db).2.
Proof.
  intros Hc. rewrite person_with_identifier_unfold.
  destruct (idx_get (idents db) t1 v1) as [r0|]; [apply conserves_refl|].
  cbn [snd]. split_and!.
  - intros t v (r & Hr & Hh). exists r. split; [cbn; set_solver|].
    unfold holds in *. cbn [objs]. rewrite deref_app_l; [done|by apply Hc].
  - intros t v (r & Hr & Hh). cbn [people] in Hr. unfold holds in Hh. cbn [objs] in Hh.
    apply elem_of_union in Hr as [->%elem_of_singleton|Hr].
    + rewrite deref_app_new in Hh. cbn in Hh.
      apply list_elem_of_singleton in Hh as [= -> ->]. auto.
    + rewrite deref_app_l in Hh by (by apply Hc). left. by exists r.
  - intros r. cbn [objs]. destruct (decide (r < length (objs db))%nat).
    + by rewrite deref_app_l.
    + rewrite (deref_ge (objs db)) by lia.
      destruct (decide (r = length (objs db))) as [->|].
      * by rewrite deref_app_new.
      * rewrite deref_ge; [done|]. rewrite length_app. cbn. lia.
Qed.

Lemma conserves_same_person_result t1 v1 t2 v2 db db' :
  db_inv db → same_person_result t1 v1 t2 v2 db = Ok db' →
  conserves t1 v1 t2 v2 db db'.
Proof.
  intros Hinv. apply (db_inv_ensure_types t1 t2) in Hinv as Hinv0.
  intros Hres. change (conserves t1 v1 t2 v2 (ensure_types t1 t2 db) db').
  revert Hres. unfold same_person_result. cbv zeta.
  destruct (idx_get _ t1 v1) as [p1|] eqn:H1;
    destruct (idx_get _ t2 v2) as [p2|] eqn:H2.
  - destruct (decide (p1 = p2)); [intros [= <-]; apply conserves_refl|].
    intros Hm. destruct Hinv0 as [Hc0 Hi0].
    apply (conserves_merge_decision p1 p2 t1 v1 t2 v2) in Hm; eauto.
  - intros [= <-]. apply conserves_attach. by right.
  - intros [= <-]. apply conserves_attach. by left.
  - destruct Hinv0 as [Hc0 Hi0].
    assert (Hpwi := conserves_person_with_identifier t1 v1 t2 v2 _ Hc0).
    destruct (decide _); intros [= <-]; [done|].
    eapply conserves_trans; [exact Hpwi|]. apply conserves_attach. by right.
Qed.

Lemma run_calls_conserve fuel calls db :
  db_inv db →
  ∃ db', run_calls (S fuel) calls db = Ok db' ∧ db_inv db' ∧
    (∀ t v, stored db t v → stored db' t v) ∧
    (∀ t v, stored db' t v →
       stored db t v ∨ (t, v) ∈ call_args calls ∨
       (t = replaced_by ∧ stable_id db v)) ∧
    (∀ r, person_id (deref (objs db') r) = person_id (deref (objs db) r)).
Proof.
  revert db. induction calls as [|[[t1 v1] [t2 v2]] calls IH]; intros db Hinv.
  - exists db. split_and!; auto.
  - cbn [run_calls fst snd]. rewrite identifies_same_person_S.
    destruct (same_person_result_total t1 v1 t2 v2 db Hinv) as (db1 & Hres & Hinv1).
    rewrite Hres. cbn.
    destruct (conserves_same_person_result _ _ _ _ _ _ Hinv Hres) as (A1 & B1 & C1).
    destruct (IH db1 Hinv1) as (db' & Hrun & Hinv' & A2 & B2 & C2).
    exists db'. split_and!; [done|done|auto| |].
    + intros t v [H|[H|[-> [r Hr]]]]%B2.
      * apply B1 in H as [H|[[-> ->]|[[-> ->]|H]]]; auto.
        -- right. left. unfold call_args. cbn. set_solver.
        -- right. left. unfold call_args. cbn. set_solver.
      * right. left. unfold call_args in *. cbn. set_solver.
      * right. right. split; [done|]. exists r. by rewrite <- C1.
    + intros r. by rewrite C2.
Qed.

(** C5 (as the code has it).  Over any sequence of
    [identifies_same_person] calls from a state satisfying the
    invariant, every identifier stored in a person of the people set
    stays stored, and an identifier stored afterwards was stored before,
    or is an argument of one of the calls, or is a [replaced_by]
    identifier whose value is a stable ID. *)
Theorem calls_conserve_identifiers fuel calls db :
  db_inv db →
  ∃ db', run_calls (S fuel) calls db = Ok db' ∧
    (∀ t v, stored db t v → stored db' t v) ∧
    (∀ t v, stored db' t v →
       stored db t v ∨ (t, v) ∈ call_args calls ∨
       (t = replaced_by ∧ stable_id db v)).
Proof.
  intros Hinv.
  destruct (run_calls_conserve fuel calls db Hinv) as (db' & H1 & _ & H2 & H3 & _).
  eauto.
Qed.

Lemma db_inv_db_tie : db_inv db_tie.
Proof.
  apply (reachable_db_inv int_ascii), (reach_init int_ascii (Some saved_tie));
    [|reflexivity].
  by apply (bool_decide_unpack _).
Qed.

Lemma calls_conserve_identifiers_witness :
  ∃ db', run_calls 1 [("email", "a", ("email", "b"))] db_tie = Ok db' ∧
    (∀ t v, stored db_tie t v → stored db' t v) ∧
    (∀ t v, stored db' t v →
       stored db_tie t v ∨
       (t, v) ∈ call_args [("email", "a", ("email", "b"))] ∨
       (t = replaced_by ∧ stable_id db_tie v)).
Proof.
  apply (calls_conserve_identifiers 0 [("email", "a", ("email", "b"))] db_tie).
  apply db_inv_db_tie.
Defined.

(** C5 as worded fails: merging two published persons stores a
    [replaced_by] identifier that was not stored before and is not an
    argument of the call. *)
Lemma conservation_counterexample :
  ∃ db', load int_ascii saved_tie = Ok db_tie ∧
    run_calls 1 [("email", "a", ("email", "b"))] db_tie = Ok db' ∧
    stored db' "replaced_by" "PID:000002" ∧
    ¬ stored db_tie "replaced_by" "PID:000002" ∧
    ("replaced_by", "PID:000002") ∉ call_args [("email", "a", ("email", "b"))].
Proof.
  eexists. split; [vm_compute; reflexivity|].
  split; [vm_compute; reflexivity|]. split_and!.
  - exists 0%nat. split; [vm_compute; reflexivity|].
    unfold holds. vm_compute. left.
  - intros (r & _ & Hh). unfold holds in Hh.
    assert (Hlt := deref_lt_of_items _ _ _ Hh).
    change (length (objs db_tie)) with 2%nat in Hlt.
    destruct r as [|[|r]]; [| |lia]; vm_compute in Hh;
      apply list_elem_of_In in Hh; cbn in Hh; intuition discriminate.
  - intros Hin. vm_compute in Hin.
    apply list_elem_of_In in Hin; cbn in Hin; intuition discriminate.
Qed.

End conservation.

(** * C6: the order of the two arguments *)

Section symmetry.

Lemma merge_decision_index (p1 p2 : ref) db db' :
  merge_decision p1 p2 db = Ok db' →
  ∃ src dst, ((src = p1 ∧ dst = p2) ∨ (src = p2 ∧ dst = p1)) ∧
    ∀ t v, idx_get (idents db') t v = repoint src dst <$> idx_get (idents db) t v.
Proof.
  unfold merge_decision.
  destruct (person_id (deref (objs db) p1)), (person_id (deref (objs db) p2)).
  - destruct (_ <? _)%nat; intros [= <-].
    + exists p2, p1. split; [by right|]. intros t v. apply idx_get_absorb.
    + exists p1, p2. split; [by left|]. intros t v. apply idx_get_absorb.
  - intros [_ ->]%people_remove_inv.
    exists p2, p1. split; [by right|]. intros t v. apply idx_get_absorb.
  - intros [_ ->]%people_remove_inv.
    exists p1, p2. split; [by left|]. intros t v. apply idx_get_absorb.
  - intros [_ ->]%people_remove_inv.
    exists p2, p1. split; [by right|]. intros t v. apply idx_get_absorb.
Qed.

Lemma same_person_result_index t1 v1 t2 v2 db db' :
  same_person_result t1 v1 t2 v2 db = Ok db' → index_after t1 v1 t2 v2 db db'.
Proof.
  unfold same_person_result, index_after. cbv zeta.
  rewrite !idx_get_ensure_types.
  destruct (idx_get (idents db) t1 v1) as [p1|] eqn:H1;
    destruct (idx_get (idents db) t2 v2) as [p2|] eqn:H2.
  - destruct (decide (p1 = p2)) as [->|Hne].
    + intros [= <-]. left. split; [done|]. intros t v.
      apply idx_get_ensure_types.
    + intros (src & dst & Hsd & Hidx)%merge_decision_index. right.
      split; [done|]. exists src, dst. split; [done|].
      intros t v. by rewrite Hidx, idx_get_ensure_types.
  - intros [= <-] t v. by rewrite idx_get_attach, idx_get_ensure_types.
  - intros [= <-] t v. by rewrite idx_get_attach, idx_get_ensure_types.
  - rewrite person_with_identifier_unfold, idx_get_ensure_types, H1. cbn [snd].
    destruct (decide (t2 = t1 ∧ v2 = v1)) as [[-> ->]|Hn]; intros [= <-] t v.
    + cbn [idents]. rewrite idx_get_idx_set, ?idx_get_ensure_type.
      destruct (decide (t = t1 ∧ v = v1)).
      * by rewrite decide_True by auto.
      * by rewrite decide_False by tauto.
    + rewrite idx_get_attach. cbn [idents].
      rewrite idx_get_idx_set, ?idx_get_ensure_type.
      destruct (decide (t = t2 ∧ v = v2)), (decide (t = t1 ∧ v = v1)).
      * by rewrite decide_True by auto.
      * by rewrite decide_True by auto.
      * by rewrite decide_True by auto.
      * by rewrite decide_False by tauto.
Qed.

Lemma repoint_eq (a b r r' : ref) :
  repoint a b r = repoint a b r' ↔
  r = r' ∨ (r = a ∧ r' = b) ∨ (r = b ∧ r' = a).
Proof.
  unfold repoint. destruct (decide (r = a)), (decide (r' = a)); subst.
  - tauto.
  - split; [intros ->; auto|]. intros [?|[[_ ?]|[? ?]]]; congruence.
  - split; [intros ->; auto|]. intros [?|[[? ?]|[? _]]]; congruence.
  - split; [auto|]. intros [?|[[? ?]|[? ?]]]; congruence.
Qed.

Lemma together_fmap (f : ref → ref) db db' k k' :
  (∀ t v, idx_get (idents db') t v = f <$> idx_get (idents db) t v) →
  together db' k k' ↔
  ∃ r r', idx_get (idents db) k.1 k.2 = Some r ∧
          idx_get (idents db) k'.1 k'.2 = Some r' ∧ f r = f r'.
Proof.
  intros Hidx. unfold together. rewrite !Hidx. split.
  - intros (r0 & Ha & Hb).
    destruct (idx_get (idents db) k.1 k.2) as [r|]; [|done].
    destruct (idx_get (idents db) k'.1 k'.2) as [r'|]; [|done].
    cbn in Ha, Hb. exists r, r'. split_and!; [done|done|congruence].
  - intros (r & r' & -> & -> & Heq). exists (f r). cbn. by rewrite Heq.
Qed.

Lemma together_ext db1 db2 :
  (∀ t v, idx_get (idents db1) t v = idx_get (idents db2) t v) →
  same_partition db1 db2.
Proof. intros Hidx k k'. unfold together. by rewrite !Hidx. Qed.

Lemma index_after_symmetric t1 v1 t2 v2 db dbA dbB :
  index_after t1 v1 t2 v2 db dbA → index_after t2 v2 t1 v1 db dbB →
  same_partition dbA dbB.
Proof.
  unfold index_after.
  destruct (idx_get (idents db) t1 v1) as [p1|] eqn:H1;
    destruct (idx_get (idents db) t2 v2) as [p2|] eqn:H2.
  - intros [[-> HA]|[Hne (sa & da & Hsa & HA)]] [[Heq HB]|[Hne' (sb & db0 & Hsb & HB)]];
      try congruence.
    + apply together_ext. intros t v. by rewrite HA, HB.
    + intros k k'.
      rewrite (together_fmap _ db dbA k k' HA), (together_fmap _ db dbB k k' HB).
      split; intros (r & r' & Hr & Hr' & Heq); exists r, r';
        (split_and!; [done|done|]); apply repoint_eq; apply repoint_eq in Heq;
        destruct Hsa as [[-> ->]|[-> ->]], Hsb as [[-> ->]|[-> ->]]; tauto.
  - intros HA HB. apply together_ext. intros t v. by rewrite HA, HB.
  - intros HA HB. apply together_ext. intros t v. by rewrite HA, HB.
  - intros HA HB. apply together_ext. intros t v. rewrite HA, HB.
    destruct (decide ((t = t1 ∧ v = v1) ∨ t = t2 ∧ v = v2)).
    + by rewrite decide_True by tauto.
    + by rewrite decide_False by tauto.
Qed.

End symmetry.

(** * C10: [save] assigns the missing stable IDs *)

Section save_ids.

Lemma save_person_Some db out r s :
  person_id (deref (objs db) r) = Some s →
  save_person (db, out) r = (db, <[s := identifiers (deref (objs db) r)]> out).
Proof. intros H. cbn [save_person]. by rewrite H. Qed.

Lemma save_person_None db out r :
  person_id (deref (objs db) r) = None →
  save_person (db, out) r =
  (set_objs (alter (fun p => mkParticipant (Some (format_pid (pid db + 1)))
                               (identifiers p)) r (objs db))
     (set_pid (pid db + 1) db),
   <[format_pid (pid db + 1) := identifiers (deref (objs db) r)]> out).
Proof.
  intros H. cbn [save_person]. rewrite H. cbn [set_pid pid objs set_objs].
  f_equal. f_equal. rewrite deref_alter.
  by destruct (decide _).
Qed.

Lemma save_fold_published order db out :
  (∀ r, r ∈ order → unpublished db r = false) →
  (foldl save_person (db, out) order).1 = db.
Proof.
  revert out. induction order as [|r order IH]; intros out Hall; [done|].
  cbn [foldl]. unfold unpublished in Hall.
  destruct (person_id (deref (objs db) r)) as [s|] eqn:Hs.
  - rewrite (save_person_Some _ _ _ _ Hs). apply IH.
    intros r' Hr'. apply Hall. by right.
  - specialize (Hall r ltac:(left)). by rewrite Hs in Hall.
Qed.

Lemma save_fold_spec order :
  NoDup order → ∀ db out,
  (∀ r, r ∈ order → (r < length (objs db))%nat) →
  let db' := (foldl save_person (db, out) order).1 in
  (∀ r, r ∈ order → unpublished db' r = false) ∧
  (∀ r, unpublished db r = false → deref (objs db') r = deref (objs db) r) ∧
  (∀ r, r ∉ order → deref (objs db') r = deref (objs db) r) ∧
  (∀ r, identifiers (deref (objs db') r) = identifiers (deref (objs db) r)) ∧
  pid db' = pid db + Z.of_nat (length (List.filter (unpublished db) order)).
Proof.
  induction 1 as [|r order Hnin Hnd IH]; intros db out Hlt; cbv zeta.
  - cbn. split_and!; try done; [by intros r ?%elem_of_nil|lia].
  - cbn [foldl List.filter].
    destruct (person_id (deref (objs db) r)) as [s|] eqn:Hs.
    + rewrite (save_person_Some _ _ _ _ Hs).
      destruct (IH db (<[s:=identifiers (deref (objs db) r)]> out))
        as (A & B & C & D & E).
      { intros r' Hr'. apply Hlt. by right. }
      unfold unpublished at 3. rewrite Hs. cbn [isNone].
      split_and!; try done.
      * intros r' [->|Hr']%elem_of_cons; [|by apply A].
        unfold unpublished. rewrite B; unfold unpublished; by rewrite Hs.
      * intros r' Hr'. apply C. intros ?. apply Hr'. by right.
    + rewrite (save_person_None _ _ _ Hs).
      set (db1 := set_objs _ _).
      assert (Hr : (r < length (objs db))%nat) by (apply Hlt; left).
      assert (Hd1 : ∀ r', r' ≠ r → deref (objs db1) r' = deref (objs db) r').
      { intros r' Hne. subst db1. cbn [objs set_objs]. rewrite deref_alter.
        by rewrite decide_False by (intros [? _]; done). }
      assert (Hd1r : deref (objs db1) r =
                     mkParticipant (Some (format_pid (pid db + 1)))
                       (identifiers (deref (objs db) r))).
      { subst db1. cbn [objs set_objs]. rewrite deref_alter.
        by rewrite decide_True by done. }
      destruct (IH db1 (<[format_pid (pid db + 1):=identifiers (deref (objs db) r)]> out))
        as (A & B & C & D & E).
      { intros r' Hr'. subst db1. cbn [objs set_objs]. rewrite length_alter.
        apply Hlt. by right. }
      unfold unpublished at 3. rewrite Hs. cbn [isNone].
      split_and!.
      * intros r' [->|Hr']%elem_of_cons; [|by apply A].
        unfold unpublished. rewrite C by done. by rewrite Hd1r.
      * intros r' Hr'. assert (r' ≠ r).
        { intros ->. unfold unpublished in Hr'. by rewrite Hs in Hr'. }
        rewrite B; [by apply Hd1|]. unfold unpublished. by rewrite Hd1.
      * intros r' Hr'. apply not_elem_of_cons in Hr' as [Hne Hr'].
        rewrite C by done. by apply Hd1.
      * intros r'. rewrite D. destruct (decide (r' = r)) as [->|Hne].
        -- by rewrite Hd1r.
        -- by rewrite Hd1.
      * rewrite E. subst db1. cbn [pid set_pid set_objs].
        rewrite (List.filter_ext_in (unpublished _) (unpublished db)).
        -- cbn [length]. lia.
        -- intros r' Hr'%list_elem_of_In. unfold unpublished.
           cbn [objs set_objs]. rewrite deref_alter.
           rewrite decide_False; [done|]. intros [-> _]. done.
Qed.

(** C10.  [save] over an enumeration of the people set: afterwards every
    member of the people set has a stable ID, the counter has grown by
    the number of members that had none, and a second [save] (over any
    enumeration) leaves the database as it is: no new stable ID, the
    same counter. *)
Theorem save_assigns_stable_ids order db :
  people_closed db → enumerates order (people db) →
  let db' := (save order db).1 in
  (∀ r, r ∈ people db' → is_Some (person_id (deref (objs db') r))) ∧
  pid db' = pid db + Z.of_nat (length (List.filter (unpublished db) order)) ∧
  (∀ order', enumerates order' (people db') → (save order' db').1 = db').
Proof.
  intros Hc [Hnd Hen]. cbv zeta. rewrite save_fst. unfold save_loop.
  destruct (save_fold_spec order Hnd db ∅) as (A & B & C & D & E).
  { intros r Hr. apply Hc. by apply Hen. }
  destruct (save_loop_frame order db) as (F1 & F2 & F3). unfold save_loop in *.
  set (db' := (foldl save_person (db, ∅) order).1) in *.
  assert (Hpub : ∀ r, r ∈ people db' → unpublished db' r = false).
  { intros r Hr. apply A, Hen. by rewrite <- F1. }
  split_and!.
  - intros r Hr%Hpub. unfold unpublished in Hr.
    by destruct (person_id (deref (objs db') r)).
  - done.
  - intros order' [_ Hen']. rewrite save_fst. apply save_fold_published.
    intros r Hr. apply Hpub. by apply Hen'.
Qed.

Lemma enumerates_01 (s : gset nat) :
  s = {[1%nat]} ∪ ({[0%nat]} ∪ ∅) → enumerates [0%nat; 1%nat] s.
Proof.
  intros ->. split.
  - repeat constructor; set_solver.
  - intros r. set_solver.
Qed.

Lemma save_assigns_stable_ids_witness :
  (∀ r, r ∈ people (save [0%nat; 1%nat] db_ab).1 →
        is_Some (person_id (deref (objs (save [0%nat; 1%nat] db_ab).1) r))) ∧
  pid (save [0%nat; 1%nat] db_ab).1 =
    pid db_ab + Z.of_nat (length (List.filter (unpublished db_ab) [0%nat; 1%nat])) ∧
  (∀ order', enumerates order' (people (save [0%nat; 1%nat] db_ab).1) →
             (save order' (save [0%nat; 1%nat] db_ab).1).1
             = (save [0%nat; 1%nat] db_ab).1).
Proof.
  apply (save_assigns_stable_ids [0%nat; 1%nat] db_ab).
  - intros r Hr. change (r ∈ ({[1%nat]} ∪ ({[0%nat]} ∪ ∅) : gset nat)) in Hr.
    change (length (objs db_ab)) with 2%nat.
    apply elem_of_union in Hr as [->%elem_of_singleton|Hr]; [lia|].
    apply elem_of_union in Hr as [->%elem_of_singleton|Hr]; [lia|].
    by apply not_elem_of_empty in Hr.
  - apply enumerates_01. reflexivity.
Defined.

End save_ids.

(** * C8: the output of [save] *)

Section save_output.

Lemma save_fold_out_lookup order db out s d :
  (∀ r, r ∈ order → unpublished db r = false) →
  ids_functional db order →
  (foldl save_person (db, out) order).2 !! s = Some d ↔
  (∃ r, r ∈ order ∧ record_of db r = (Some s, d)) ∨
  (out !! s = Some d ∧
   ∀ r, r ∈ order → person_id (deref (objs db) r) ≠ Some s).
Proof.
  revert out. induction order as [|r order IH]; intros out Hpub Hfun.
  - cbn. split.
    + intros H. right. split; [done|]. by intros r ?%elem_of_nil.
    + intros [(r & ?%elem_of_nil & _)|[H _]]; done.
  - cbn [foldl]. assert (Hr := Hpub r ltac:(left)). unfold unpublished in Hr.
    destruct (person_id (deref (objs db) r)) as [sr|] eqn:Hsr; [|done].
    rewrite (save_person_Some _ _ _ _ Hsr). rewrite IH; cycle 1.
    { intros r' Hr'. apply Hpub. by right. }
    { intros r1 r2 s' H1 H2. apply Hfun; by right. }
    split.
    + intros [(r' & Hr' & Hrec)|[Hout Hnone]].
      * left. exists r'. split; [by right|done].
      * destruct (decide (sr = s)) as [->|Hne].
        -- rewrite lookup_insert_eq in Hout. injection Hout as <-.
           left. exists r. split; [left|]. unfold record_of. by rewrite Hsr.
        -- rewrite lookup_insert_ne in Hout by done. right. split; [done|].
           intros r' [->|Hr']%elem_of_cons; [congruence|by apply Hnone].
    + intros [(r' & Hr' & Hrec)|[Hout Hnone]].
      * apply elem_of_cons in Hr' as [->|Hr']; [|left; eauto].
        unfold record_of in Hrec. rewrite Hsr in Hrec. injection Hrec as -> <-.
        destruct (decide (Exists (fun r' => person_id (deref (objs db) r') = Some s) order))
          as [Hex|Hnex].
        -- apply Exists_exists in Hex as (r' & Hr' & Hs').
           left. exists r'. split; [done|]. unfold record_of. rewrite Hs'.
           f_equal. symmetry. apply (Hfun r r' s); [left|by right|done..].
        -- right. rewrite lookup_insert_eq. split; [done|].
           intros r' Hr' Hs'. apply Hnex. apply Exists_exists. eauto.
      * right. assert (sr ≠ s).
        { intros ->. by apply (Hnone r ltac:(left)). }
        rewrite lookup_insert_ne by done. split; [done|].
        intros r' Hr'. apply Hnone. by right.
Qed.

Lemma save_out_lookup order db s d :
  enumerates order (people db) → all_published db → ids_functional db order →
  (save_loop order db).2 !! s = Some d ↔
  ∃ r, r ∈ people db ∧ record_of db r = (Some s, d).
Proof.
  intros [_ Hen] Hpub Hfun. unfold save_loop.
  rewrite save_fold_out_lookup.
  - rewrite lookup_empty. split.
    + intros [(r & Hr & Hrec)|[[=] _]]. exists r. split; [by apply Hen|done].
    + intros (r & Hr & Hrec). left. exists r. split; [by apply Hen|done].
  - intros r Hr. by apply Hpub, Hen.
  - done.
Qed.

Lemma save_snd order db : (save order db).2 = json_dump (save_loop order db).2.
Proof. unfold save. by destruct (save_loop order db). Qed.

Lemma elem_of_json_dump (out : gmap string dict) rec :
  rec ∈ json_dump out ↔
  ∃ d, out !! rec.1 = Some d ∧ rec.2 = merge_sort key_le d.
Proof.
  unfold json_dump. rewrite merge_sort_Permutation, list_elem_of_fmap. split.
  - intros ([s d] & -> & Hsd%elem_of_map_to_list). cbn. eauto.
  - intros (d & Hd & Hrec). exists (rec.1, d). split.
    + destruct rec as [s d']. cbn in *. by rewrite Hrec.
    + by apply elem_of_map_to_list.
Qed.

#[global] Instance key_le_total {A} : Total (@key_le A).
Proof. intros a b. unfold key_le, str_le. apply String.leb_total. Qed.

(** The document is written with its keys in order, at both levels. *)
Lemma json_dump_sorted (out : gmap string dict) :
  Sorted key_le (json_dump out) ∧
  Forall (fun rec : string * dict => Sorted key_le rec.2) (json_dump out).
Proof.
  split.
  - unfold json_dump. apply (Sorted_merge_sort key_le).
  - apply Forall_forall. intros [s0 d0] (d & _ & Heq)%elem_of_json_dump.
    cbn [snd] in Heq |- *. subst d0. apply (Sorted_merge_sort key_le).
Qed.

(** For two databases that hold the same persons, all of them with a
    stable ID already and these IDs pairwise distinct, [save] writes the
    same document, whatever the order in which the two people sets are
    iterated; its keys are in sorted order, at both levels. *)
Lemma save_deterministic_general db1 db2 order1 order2 :
  enumerates order1 (people db1) → enumerates order2 (people db2) →
  same_records db1 db2 →
  all_published db1 → ids_distinct db1 →
  (save order1 db1).2 = (save order2 db2).2 ∧
  Sorted key_le (save order1 db1).2 ∧
  Forall (fun rec : string * dict => Sorted key_le rec.2) (save order1 db1).2.
Proof.
  intros Hen1 Hen2 Hsame Hpub1 Hdis1.
  assert (Hpub2 : all_published db2).
  { intros r Hr. unfold unpublished.
    destruct (person_id (deref (objs db2) r)) as [s|] eqn:Hs; [done|].
    destruct (proj2 (Hsame (record_of db2 r)) ltac:(eauto)) as (r1 & Hr1 & Hrec).
    apply Hpub1 in Hr1. unfold unpublished in Hr1. unfold record_of in Hrec.
    rewrite Hs in Hrec. injection Hrec as Hid _. by rewrite Hid in Hr1. }
  assert (Hfun1 : ids_functional db1 order1).
  { intros r r' s Hr Hr' H1 H2. destruct Hen1 as [_ Hen1].
    by rewrite (Hdis1 r r' s ltac:(by apply Hen1) ltac:(by apply Hen1) H1 H2). }
  assert (Hfun2 : ids_functional db2 order2).
  { intros r r' s Hr Hr' H1 H2. destruct Hen2 as [_ Hen2].
    apply Hen2 in Hr, Hr'.
    destruct (proj2 (Hsame (record_of db2 r)) ltac:(eauto)) as (r1 & Hr1 & Hrec1).
    destruct (proj2 (Hsame (record_of db2 r')) ltac:(eauto)) as (r1' & Hr1' & Hrec1').
    unfold record_of in Hrec1, Hrec1'. rewrite H1 in Hrec1. rewrite H2 in Hrec1'.
    injection Hrec1 as Hid1 <-. injection Hrec1' as Hid1' <-.
    by rewrite (Hdis1 r1 r1' s Hr1 Hr1' Hid1 Hid1'). }
  rewrite !save_snd. split; [|apply json_dump_sorted].
  f_equal. apply map_eq. intros s.
  apply option_eq. intros d.
  rewrite (save_out_lookup order1 db1 s d Hen1 Hpub1 Hfun1).
  rewrite (save_out_lookup order2 db2 s d Hen2 Hpub2 Hfun2).
  apply Hsame.
Qed.

Lemma people_01 (r : nat) :
  r ∈ ({[1%nat]} ∪ ({[0%nat]} ∪ ∅) : gset nat) ↔ r = 0%nat ∨ r = 1%nat.
Proof. set_solver. Qed.

Lemma same_records_01 db1 db2 :
  people db1 = {[1%nat]} ∪ ({[0%nat]} ∪ ∅) →
  people db2 = {[1%nat]} ∪ ({[0%nat]} ∪ ∅) →
  record_of db1 0 = record_of db2 1 →
  record_of db1 1 = record_of db2 0 →
  same_records db1 db2.
Proof.
  intros Hp1 Hp2 H01 H10 rec. rewrite Hp1, Hp2. split.
  - intros (r & [-> | ->]%people_01 & <-).
    + exists 1%nat. split; [by apply people_01; right|done].
    + exists 0%nat. split; [by apply people_01; left|done].
  - intros (r & [-> | ->]%people_01 & <-).
    + exists 1%nat. split; [by apply people_01; right|done].
    + exists 0%nat. split; [by apply people_01; left|done].
Qed.

End save_output.

(** * C4: the counter after [load] *)

Section int_ascii_facts.

Lemma uint_of_string_zeros k s :
  NilEmpty.uint_of_string (zeros k ++ s) =
  Nat.iter k Decimal.D0 <$> NilEmpty.uint_of_string s.
Proof.
  induction k as [|k IH].
  - change (zeros 0 ++ s) with s. by destruct (NilEmpty.uint_of_string s).
  - change (NilEmpty.uint_of_string (zeros (S k) ++ s))
      with (uint_of_char "0" (NilEmpty.uint_of_string (zeros k ++ s))).
    rewrite IH. by destruct (NilEmpty.uint_of_string s).
Qed.

Lemma of_uint_iter_zeros k d :
  Pos.of_uint (Nat.iter k Decimal.D0 d) = Pos.of_uint d.
Proof. induction k as [|k IH]; [done|]. cbn. exact IH. Qed.

Lemma int_of_string_digits s u :
  s ≠ "" → NilEmpty.uint_of_string s = Some u →
  NilZero.int_of_string s = Some (Decimal.Pos u).
Proof.
  destruct s as [|a s]; [done|]. intros _ Hu.
  unfold NilZero.int_of_string, NilZero.uint_of_string.
  destruct (Ascii.eqb a "-") eqn:Ha.
  - apply Ascii.eqb_eq in Ha as ->. cbn in Hu.
    by destruct (NilEmpty.uint_of_string s).
  - by rewrite Hu.
Qed.

Lemma decimal_digits (n : N) :
  decimal (Z.of_N n) ≠ "" ∧
  NilEmpty.uint_of_string (decimal (Z.of_N n)) = Some (N.to_uint n).
Proof.
  unfold decimal. rewrite N2Z.id.
  assert (Hnn : N.to_uint n ≠ Decimal.Nil).
  { destruct n; [done|]. apply DecimalPos.Unsigned.to_uint_nonnil. }
  assert (Heq : NilZero.string_of_uint (N.to_uint n) =
                NilEmpty.string_of_uint (N.to_uint n)).
  { by destruct (N.to_uint n). }
  rewrite Heq. split; [|apply NilEmpty.usu].
  by destruct (N.to_uint n).
Qed.

Lemma append_nonempty s1 s2 : s2 ≠ "" → s1 ++ s2 ≠ "".
Proof. by destruct s1, s2. Qed.

Lemma int_ascii_numeral (n : N) :
  int_ascii (format_06 (Z.of_N n)) = Some (Z.of_N n).
Proof.
  unfold format_06.
  rewrite (proj2 (Z.ltb_ge (Z.of_N n) 0)) by lia.
  unfold zfill. destruct (decimal_digits n) as [Hne Hu].
  unfold int_ascii.
  rewrite (int_of_string_digits _ (Nat.iter (6 - String.length (decimal (Z.of_N n)))
                                     Decimal.D0 (N.to_uint n))).
  - cbn. unfold Z.of_uint. rewrite of_uint_iter_zeros.
    change (Pos.of_uint (N.to_uint n)) with (N.of_uint (N.to_uint n)).
    by rewrite DecimalN.Unsigned.of_to.
  - by apply append_nonempty.
  - by rewrite uint_of_string_zeros, Hu.
Qed.

(** The ASCII reader reads back the numerals that [save] writes. *)
Lemma int_ascii_reads_numerals : int_reads_numerals int_ascii.
Proof.
  intros n Hn. rewrite <- (Z2N.id n) by done. apply int_ascii_numeral.
Qed.

End int_ascii_facts.

Section load_counter.

Variable py_int : string → option Z.
Hypothesis py_int_numerals : int_reads_numerals py_int.

(** [load] reads back the stable IDs that [save] writes. *)
Lemma py_int_format_pid (n : Z) :
  0 ≤ n → py_int (str_drop 4 (format_pid n)) = Some n.
Proof. apply py_int_numerals. Qed.

Lemma pid_load_values r l db :
  pid (foldl (fun db tv => load_value r tv.1 tv.2 db) db l) = pid db.
Proof.
  revert db. induction l as [|k l IH]; intros db; [done|].
  cbn [foldl]. by rewrite IH.
Qed.

Lemma load_person_pid db s d n :
  py_int (str_drop 4 s) = Some n →
  ∃ db', load_person py_int db (s, d) = Ok db' ∧ pid db' = Z.max (pid db) n.
Proof.
  intros Hn. unfold load_person. cbn [fst snd]. rewrite Hn.
  set (db3 := foldl _ _ _).
  assert (Hpid : pid db3 = pid db) by (subst db3; by rewrite pid_load_values).
  destruct (pid db3 <? n) eqn:Hlt; eexists; (split; [done|]); cbn; lia.
Qed.

Lemma load_loop_pid (recs : list (N * dict)) db :
  0 ≤ pid db →
  ∃ db', load_loop py_int (with_ids recs) db = Ok db' ∧
    pid db' = Z.max (pid db) (Z.of_N (foldr N.max 0%N (fst <$> recs))).
Proof.
  revert db. induction recs as [|[n d] recs IH]; intros db Hpos.
  - exists db. split; [done|]. cbn [fmap list_fmap foldr]. lia.
  - cbn [with_ids fmap list_fmap load_loop fst snd].
    destruct (load_person_pid db (format_pid (Z.of_N n)) d (Z.of_N n)
                (py_int_format_pid (Z.of_N n) ltac:(lia))) as (db1 & Hload & Hpid).
    rewrite Hload. cbn [mbind result_bind].
    destruct (IH db1 ltac:(lia)) as (db' & Hrest & Hpid').
    exists db'. split; [done|]. rewrite Hpid', Hpid. cbn [foldr]. lia.
Qed.

(** C4 (as the code has it).  Loading a document whose keys are stable
    IDs in the format of [save] sets the counter to the largest of
    their sequence numbers (zero for the empty document); [save]
    increments the counter before it formats a new stable ID. *)
Theorem load_sets_counter (recs : list (N * dict)) :
  ∃ db, load py_int (with_ids recs) = Ok db ∧
    pid db = Z.of_N (foldr N.max 0%N (fst <$> recs)).
Proof.
  destruct (load_loop_pid recs db_empty ltac:(done)) as (db & Hload & Hpid).
  exists db. split; [done|]. rewrite Hpid. cbn [pid db_empty]. lia.
Qed.

End load_counter.

Lemma load_sets_counter_witness :
  ∃ db, load int_ascii (with_ids [(123%N, [("email", ["a"])]);
                                  (7%N, [("email", ["b"])])]) = Ok db ∧
    pid db = Z.of_N (foldr N.max 0%N
                       (fst <$> [(123%N, [("email", ["a"])]);
                                 (7%N, [("email", ["b"])])])).
Proof.
  apply (load_sets_counter int_ascii int_ascii_reads_numerals
           [(123%N, [("email", ["a"])]); (7%N, [("email", ["b"])])]).
Defined.

(** C4 as worded fails: after loading the single stable ID [PID:000123]
    the counter is 123, not 124. *)
Lemma load_counter_counterexample :
  ∃ db, load int_ascii [("PID:000123", [("email", ["a"])])] = Ok db ∧
    pid db = 123 ∧ pid db ≠ 123 + 1.
Proof. eexists. split; [vm_compute; reflexivity|]. split; [done|]. cbn. lia. Qed.

(** * C3: [save] then [load] *)

Section round_trip.

Variable py_int : string → option Z.
Hypothesis py_int_numerals : int_reads_numerals py_int.

Lemma last_owner_cons t v init rec L :
  last_owner t v init (rec :: L) =
  last_owner t v (if decide ((t, v) ∈ items rec.2) then Some rec.1 else init) L.
Proof. reflexivity. Qed.

Lemma last_owner_unique t v s init L :
  (∀ rec, rec ∈ L → (t, v) ∈ items rec.2 → rec.1 = s) →
  (last_owner t v init L = Some s ∧ ∃ rec, rec ∈ L ∧ (t, v) ∈ items rec.2) ∨
  (last_owner t v init L = init ∧ ∀ rec, rec ∈ L → (t, v) ∉ items rec.2).
Proof.
  revert init. induction L as [|rec L IH]; intros init Hall.
  - right. split; [done|]. by intros rec ?%elem_of_nil.
  - rewrite last_owner_cons.
    destruct (decide ((t, v) ∈ items rec.2)) as [Hin|Hnin].
    + left. assert (Hs : rec.1 = s) by (apply Hall; [left|done]).
      destruct (IH (Some rec.1)) as [[Heq _]|[Heq _]].
      { intros rec' Hrec'. apply Hall. by right. }
      * split; [done|]. exists rec. split; [left|done].
      * split; [by rewrite Heq, Hs|]. exists rec. split; [left|done].
    + destruct (IH init) as [[Heq (rec' & Hrec' & Hin')]|[Heq Hnone]].
      { intros rec' Hrec'. apply Hall. by right. }
      * left. split; [done|]. exists rec'. split; [by right|done].
      * right. split; [done|].
        intros rec' [->|Hrec']%elem_of_cons; [done|by apply Hnone].
Qed.

Lemma items_Permutation (d d' : dict) k : d ≡ₚ d' → k ∈ items d ↔ k ∈ items d'.
Proof.
  intros Hp. destruct k as [t v]. rewrite !elem_of_items.
  split; intros (vs & Hd & Hv); exists vs; (split; [|done]).
  - by rewrite <- Hp.
  - by rewrite Hp.
Qed.

Lemma idx_get_load_value person t0 v0 db t v :
  idx_get (idents (load_value person t0 v0 db)) t v =
  if decide (t = t0 ∧ v = v0) then Some person else idx_get (idents db) t v.
Proof.
  unfold load_value. cbn [idents set_idents db_add_identifier set_objs].
  by rewrite idx_get_idx_set, idx_get_ensure_type.
Qed.

Lemma person_id_load_value person t0 v0 db r :
  person_id (deref (objs (load_value person t0 v0 db)) r) =
  person_id (deref (objs db) r).
Proof. apply (person_id_db_add_identifier person t0 v0 db r). Qed.

Lemma load_values_spec person (l : list (string * string)) db :
  let db' := foldl (fun db tv => load_value person tv.1 tv.2 db) db l in
  (∀ t v, idx_get (idents db') t v =
          if decide ((t, v) ∈ l) then Some person else idx_get (idents db) t v) ∧
  (∀ r, person_id (deref (objs db') r) = person_id (deref (objs db) r)).
Proof.
  revert db. induction l as [|[t0 v0] l IH]; intros db; cbv zeta.
  - split; [|done]. intros t v. by rewrite decide_False by apply not_elem_of_nil.
  - cbn [foldl fst snd]. destruct (IH (load_value person t0 v0 db)) as [A B].
    split.
    + intros t v. rewrite A, idx_get_load_value.
      destruct (decide ((t, v) ∈ l)) as [Hin|Hnin].
      * by rewrite decide_True by (by right).
      * destruct (decide (t = t0 ∧ v = v0)) as [[-> ->]|Hne].
        -- by rewrite decide_True by left.
        -- rewrite decide_False; [done|].
           intros [[= -> ->]|?]%elem_of_cons; [by apply Hne|done].
    + intros r. by rewrite B, person_id_load_value.
Qed.

Lemma load_person_owner db s d n :
  index_published db → py_int (str_drop 4 s) = Some n →
  ∃ db', load_person py_int db (s, d) = Ok db' ∧ index_published db' ∧
    ∀ t v, owner_id db' t v =
           if decide ((t, v) ∈ items d) then Some s else owner_id db t v.
Proof.
  intros Hpub Hn. unfold load_person. cbn [fst snd]. rewrite Hn.
  set (db2 := set_people _ _).
  destruct (load_values_spec (length (objs db)) (items d) db2) as [A B].
  set (db3 := foldl _ db2 _) in *.
  assert (Hnew : person_id (deref (objs db3) (length (objs db))) = Some s).
  { rewrite B. subst db2. cbn [objs set_people set_objs]. by rewrite deref_app_new. }
  assert (Hold : ∀ r, (r < length (objs db))%nat →
            person_id (deref (objs db3) r) = person_id (deref (objs db) r)).
  { intros r Hr. rewrite B. subst db2. cbn [objs set_people set_objs].
    by rewrite deref_app_l. }
  assert (Hclosed : ∀ t v r, idx_get (idents db) t v = Some r →
            (r < length (objs db))%nat).
  { intros t v r [s' Hs']%Hpub. by apply deref_lt_of_person_id in Hs'. }
  assert (Hres : index_published db3 ∧
            ∀ t v, owner_id db3 t v =
                   if decide ((t, v) ∈ items d) then Some s else owner_id db t v).
  { split.
    - intros t v r. rewrite A. destruct (decide _).
      + intros [= <-]. rewrite Hnew. eauto.
      + change (idents db2) with (idents db). intros Hr.
        rewrite Hold by (by eapply Hclosed). by eapply Hpub.
    - intros t v. unfold owner_id. rewrite A. destruct (decide _); [done|].
      change (idents db2) with (idents db).
      destruct (idx_get (idents db) t v) as [r|] eqn:Hr; [|done].
      cbn. apply Hold. by eapply Hclosed. }
  destruct (pid db3 <? n); eexists; (split; [done|]); exact Hres.
Qed.

Lemma load_loop_owner L db :
  index_published db →
  (∀ rec, rec ∈ L → is_Some (py_int (str_drop 4 rec.1))) →
  ∃ db', load_loop py_int L db = Ok db' ∧ index_published db' ∧
    ∀ t v, owner_id db' t v = last_owner t v (owner_id db t v) L.
Proof.
  revert db. induction L as [|[s d] L IH]; intros db Hpub Hparse.
  - exists db. by split_and!.
  - destruct (Hparse (s, d) ltac:(left)) as [n Hn]. cbn [fst] in Hn.
    destruct (load_person_owner db s d n Hpub Hn) as (db1 & Hload & Hpub1 & Hown1).
    destruct (IH db1 Hpub1) as (db' & Hrest & Hpub' & Hown').
    { intros rec Hrec. apply Hparse. by right. }
    exists db'. cbn [load_loop]. rewrite Hload. cbn [mbind result_bind].
    split_and!; [done|done|]. intros t v.
    by rewrite Hown', last_owner_cons, Hown1.
Qed.

Lemma save_person_ids db out r :
  r ∈ people db → (r < length (objs db))%nat →
  ids_numbered py_int db → ids_distinct db →
  let db1 := (save_person (db, out) r).1 in
  ids_numbered py_int db1 ∧ ids_distinct db1.
Proof.
  intros Hr Hlt [Hpos Hnum] Hdis. cbv zeta.
  destruct (person_id (deref (objs db) r)) as [s|] eqn:Hs.
  { by rewrite (save_person_Some _ _ _ _ Hs). }
  rewrite (save_person_None _ _ _ Hs). cbn [fst].
  set (db1 := set_objs _ _).
  assert (Hd1 : ∀ r', r' ≠ r → deref (objs db1) r' = deref (objs db) r').
  { intros r' Hne. subst db1. cbn [objs set_objs]. rewrite deref_alter.
    by rewrite decide_False by (intros [? _]; done). }
  assert (Hd1r : person_id (deref (objs db1) r) = Some (format_pid (pid db + 1))).
  { subst db1. cbn [objs set_objs]. rewrite deref_alter.
    by rewrite decide_True by done. }
  assert (Hfresh : ∀ r', r' ∈ people db →
            person_id (deref (objs db) r') ≠ Some (format_pid (pid db + 1))).
  { intros r' Hr' Hid. destruct (Hnum r' _ Hr' Hid) as (n & Hn & Hle).
    rewrite (py_int_format_pid py_int py_int_numerals) in Hn by lia.
    injection Hn as Hn. lia. }
  split; [split|].
  - cbn. lia.
  - intros r' s' Hr' Hs'. destruct (decide (r' = r)) as [->|Hne].
    + rewrite Hd1r in Hs'. injection Hs' as <-.
      exists (pid db + 1).
      split; [apply (py_int_format_pid py_int py_int_numerals); lia|]. cbn. lia.
    + rewrite Hd1 in Hs' by done.
      destruct (Hnum r' s' Hr' Hs') as (n & Hn & Hle). exists n.
      split; [done|]. cbn. lia.
  - intros r1 r2 s' Hr1 Hr2 H1 H2.
    destruct (decide (r1 = r)) as [->|Hne1], (decide (r2 = r)) as [->|Hne2];
      try done.
    + rewrite Hd1r in H1. injection H1 as <-. rewrite Hd1 in H2 by done.
      by apply Hfresh in H2.
    + rewrite Hd1r in H2. injection H2 as <-. rewrite Hd1 in H1 by done.
      by apply Hfresh in H1.
    + rewrite Hd1 in H1, H2 by done. by apply (Hdis r1 r2 s').
Qed.

Lemma save_fold_ids order db out :
  (∀ r, r ∈ order → r ∈ people db ∧ (r < length (objs db))%nat) →
  ids_numbered py_int db → ids_distinct db →
  let db' := (foldl save_person (db, out) order).1 in
  ids_numbered py_int db' ∧ ids_distinct db'.
Proof.
  revert db out. induction order as [|r order IH]; intros db out Hin Hnum Hdis;
    [done|].
  cbn [foldl]. destruct (Hin r ltac:(left)) as [Hr Hlt].
  destruct (save_person_ids db out r Hr Hlt Hnum Hdis) as [Hnum1 Hdis1].
  destruct (save_person_frame db out r) as (F1 & F2 & F3).
  destruct (save_person (db, out) r) as [db1 out1]. cbn [fst] in *.
  apply IH; [|done..].
  intros r' Hr'. rewrite F1, F3. apply Hin. by right.
Qed.

(** What one step of [save] writes, read in the state it leaves. *)
Lemma save_person_out db out r :
  (r < length (objs db))%nat →
  ∃ s, person_id (deref (objs (save_person (db, out) r).1) r) = Some s ∧
    save_person (db, out) r =
    ((save_person (db, out) r).1,
     <[s := identifiers (deref (objs (save_person (db, out) r).1) r)]> out).
Proof.
  intros Hlt. destruct (person_id (deref (objs db) r)) as [s|] eqn:Hs.
  - rewrite (save_person_Some _ _ _ _ Hs). cbn [fst]. eauto.
  - rewrite (save_person_None _ _ _ Hs). cbn [fst objs set_objs].
    rewrite deref_alter, decide_True by done. cbn. eauto.
Qed.

(** Saving again over the same order writes the same document. *)
Lemma save_fold_replay order :
  NoDup order → ∀ db out,
  (∀ r, r ∈ order → (r < length (objs db))%nat) →
  (foldl save_person (db, out) order).2 =
  (foldl save_person ((foldl save_person (db, out) order).1, out) order).2.
Proof.
  induction 1 as [|r order Hnin Hnd IH]; intros db out Hlt; [done|].
  cbn [foldl].
  destruct (save_person_out db out r (Hlt r ltac:(left))) as (s & Hs & Hstep).
  destruct (save_person_frame db out r) as (_ & _ & F3).
  set (db1 := (save_person (db, out) r).1) in *.
  rewrite Hstep. set (out1 := <[s:=_]> out).
  assert (Hlt1 : ∀ r', r' ∈ order → (r' < length (objs db1))%nat).
  { intros r' Hr'. rewrite F3. apply Hlt. by right. }
  destruct (save_fold_spec order Hnd db1 out1 Hlt1) as (_ & _ & C & _ & _).
  set (db' := (foldl save_person (db1, out1) order).1) in *.
  assert (Hr' : save_person (db', out) r = (db', out1)).
  { rewrite (save_person_Some db' out r s); rewrite (C r Hnin); done. }
  rewrite Hr'. apply IH. done.
Qed.

(** From a state in which the index and the persons agree, whose
    stable IDs are pairwise distinct and read back as numbers no larger
    than the counter, [save] writes a document that [load] accepts, and
    in the loaded database the index has the same entries as the saved
    one, each owned by a person with the same stable ID. *)
Lemma save_load_round_trip_general order db :
  enumerates order (people db) → people_closed db → coherent db →
  ids_numbered py_int db → ids_distinct db →
  ∃ db'', load py_int (save order db).2 = Ok db'' ∧
    (∀ t v, owner_id db'' t v = owner_id (save order db).1 t v) ∧
    (∀ t v, is_Some (idx_get (idents db'') t v) ↔
            is_Some (idx_get (idents (save order db).1) t v)).
Proof.
  intros Hen Hc Hcoh Hnum Hdis. destruct Hen as [Hnd Hen].
  rewrite save_snd, save_fst. unfold save_loop.
  assert (Hlt : ∀ r, r ∈ order → (r < length (objs db))%nat).
  { intros r Hr. by apply Hc, Hen. }
  destruct (save_fold_spec order Hnd db ∅ Hlt) as (A & _ & _ & D & _).
  destruct (save_loop_frame order db) as (F1 & F2 & F3). unfold save_loop in *.
  destruct (save_fold_ids order db ∅) as [Hnum' Hdis']; [|done..|].
  { intros r Hr. split; [by apply Hen|by apply Hlt]. }
  rewrite (save_fold_replay order Hnd db ∅ Hlt).
  set (db' := (foldl save_person (db, ∅) order).1) in *.
  assert (Hen' : enumerates order (people db')) by (by rewrite F1).
  assert (Hpub' : all_published db').
  { intros r Hr. apply A, Hen. by rewrite <- F1. }
  assert (Hcoh' : coherent db').
  { intros t v r. rewrite F2, F1. unfold holds. rewrite D. apply Hcoh. }
  assert (Hfun' : ids_functional db' order).
  { intros r r' s Hr Hr' H1 H2. destruct Hen' as [_ Hen'].
    by rewrite (Hdis' r r' s ltac:(by apply Hen') ltac:(by apply Hen') H1 H2). }
  assert (Hout : ∀ s d, (save_loop order db').2 !! s = Some d ↔
            ∃ r, r ∈ people db' ∧ record_of db' r = (Some s, d)).
  { intros s d. by apply save_out_lookup. }
  unfold save_loop in Hout. set (out := (foldl save_person (db', ∅) order).2) in *.
  assert (Hdoc : ∀ rec t v, rec ∈ json_dump out → (t, v) ∈ items rec.2 →
            ∃ r, r ∈ people db' ∧ person_id (deref (objs db') r) = Some rec.1 ∧
                 holds db' r t v).
  { intros rec t v (d & Hd & Hsort)%elem_of_json_dump Hin.
    apply Hout in Hd as (r & Hr & Hrec). unfold record_of in Hrec.
    injection Hrec as Hid Hids. exists r. split_and!; [done|done|].
    unfold holds. rewrite Hids. destruct rec as [s0 d0]. cbn [snd] in Hsort, Hin.
    subst d0.
    by apply (items_Permutation _ d (t, v) (merge_sort_Permutation key_le d)). }
  destruct (load_loop_owner (json_dump out) db_empty) as (db'' & Hload & Hpub'' & Hown).
  { intros t v r. unfold idx_get. cbn. by rewrite lookup_empty. }
  { intros rec (d & Hd & _)%elem_of_json_dump.
    apply Hout in Hd as (r & Hr & Hrec). unfold record_of in Hrec.
    injection Hrec as Hid _. destruct Hnum' as [_ Hnum'].
    destruct (Hnum' r _ Hr Hid) as (n & Hn & _). eauto. }
  assert (Howner : ∀ t v, owner_id db'' t v = owner_id db' t v).
  { intros t v. rewrite Hown.
    change (owner_id db_empty t v) with (@None string).
    unfold owner_id at 1.
    destruct (idx_get (idents db') t v) as [r|] eqn:Hidx.
    - apply Hcoh' in Hidx as Hr. destruct Hr as [Hr Hh].
      apply Hpub' in Hr as Hp. unfold unpublished in Hp.
      destruct (person_id (deref (objs db') r)) as [s|] eqn:Hs; [|done].
      cbn. rewrite Hs.
      destruct (last_owner_unique t v s None (json_dump out)) as [[Heq _]|[_ Hnone]].
      + intros rec Hrec Hin.
        destruct (Hdoc rec t v) as (r' & Hr' & Hid' & Hh'); [done..|].
        assert (idx_get (idents db') t v = Some r') as Hidx' by (by apply Hcoh').
        assert (r' = r) as -> by congruence. congruence.
      + done.
      + exfalso. apply (Hnone (s, merge_sort key_le (identifiers (deref (objs db') r)))).
        * apply elem_of_json_dump. exists (identifiers (deref (objs db') r)).
          split; [|done]. apply Hout. exists r. split; [done|].
          unfold record_of. by rewrite Hs.
        * cbn [snd]. rewrite (items_Permutation _ (identifiers (deref (objs db') r)))
            by apply merge_sort_Permutation. exact Hh.
    - cbn.
      destruct (last_owner_unique t v "" None (json_dump out)) as [[_ (rec & Hin & Hc')]|[Heq _]].
      + intros rec Hin Hc'. exfalso.
        destruct (Hdoc rec t v Hin Hc') as (r' & Hr' & _ & Hh').
        assert (idx_get (idents db') t v = Some r') as Hidx' by (by apply Hcoh').
        congruence.
      + exfalso.
        destruct (Hdoc rec t v Hin Hc') as (r' & Hr' & _ & Hh').
        assert (idx_get (idents db') t v = Some r') as Hidx' by (by apply Hcoh').
        congruence.
      + done. }
  exists db''. split_and!; [done|done|].
  intros t v. split.
  - intros [r Hr]. assert (Hs := Hpub'' t v r Hr). destruct Hs as [s Hs].
    assert (Ho : owner_id db'' t v = Some s) by (unfold owner_id; by rewrite Hr).
    rewrite Howner in Ho. unfold owner_id in Ho.
    destruct (idx_get (idents db') t v); [eauto|done].
  - intros [r Hr]. apply Hcoh' in Hr as Hr'. destruct Hr' as [Hr' _].
    apply Hpub' in Hr'. unfold unpublished in Hr'.
    destruct (person_id (deref (objs db') r)) as [s|] eqn:Hs; [|done].
    assert (Ho : owner_id db' t v = Some s) by (unfold owner_id; by rewrite Hr).
    rewrite <- Howner in Ho. unfold owner_id in Ho.
    destruct (idx_get (idents db'') t v); [eauto|done].
Qed.

End round_trip.

(** * Stable IDs in reachable states *)

Section reachable_ids.

Variable py_int : string → option Z.
Hypothesis py_int_numerals : int_reads_numerals py_int.

(** A step that keeps the counter and the stable IDs, and adds to the
    people set only persons without a stable ID. *)
Lemma ids_step db db' :
  pid db' = pid db →
  (∀ r, person_id (deref (objs db') r) = person_id (deref (objs db) r)) →
  (∀ r, r ∈ people db' →
        r ∈ people db ∨ person_id (deref (objs db') r) = None) →
  ids_numbered py_int db → ids_distinct db → ids_numbered py_int db' ∧ ids_distinct db'.
Proof.
  intros Hpid Hid Hpeople [Hpos Hnum] Hdis. split; [split|].
  - by rewrite Hpid.
  - intros r s [Hr|Hnone]%Hpeople Hs; [|congruence].
    rewrite Hpid. apply (Hnum r s Hr). by rewrite <- Hid.
  - intros r r' s [Hr|Hnone]%Hpeople [Hr'|Hnone']%Hpeople H1 H2; try congruence.
    apply (Hdis r r' s); [done|done|by rewrite <- Hid..].
Qed.

Lemma same_person_result_frame t1 v1 t2 v2 db db' :
  same_person_result t1 v1 t2 v2 db = Ok db' →
  pid db' = pid db ∧
  ∀ r, r ∈ people db' → r ∈ people db ∨ r = length (objs db).
Proof.
  unfold same_person_result. cbv zeta.
  destruct (idx_get _ t1 v1) as [p1|] eqn:H1;
    destruct (idx_get _ t2 v2) as [p2|] eqn:H2.
  - destruct (decide (p1 = p2)); [intros [= <-]; auto|].
    unfold merge_decision.
    destruct (person_id _), (person_id _).
    + destruct (_ <? _)%nat; intros [= <-]; auto.
    + intros [_ ->]%people_remove_inv. split; [done|]. cbn. set_solver.
    + intros [_ ->]%people_remove_inv. split; [done|]. cbn. set_solver.
    + intros [_ ->]%people_remove_inv. split; [done|]. cbn. set_solver.
  - intros [= <-]. auto.
  - intros [= <-]. auto.
  - rewrite person_with_identifier_unfold, H1. cbn [snd].
    destruct (decide _); intros [= <-]; (split; [done|]); cbn; set_solver.
Qed.

Lemma ids_same_person_result t1 v1 t2 v2 db db' :
  db_inv db → same_person_result t1 v1 t2 v2 db = Ok db' →
  ids_numbered py_int db → ids_distinct db → ids_numbered py_int db' ∧ ids_distinct db'.
Proof.
  intros Hinv Hres.
  destruct (conserves_same_person_result _ _ _ _ _ _ Hinv Hres) as (_ & _ & Hid).
  destruct (same_person_result_frame _ _ _ _ _ _ Hres) as [Hpid Hpeople].
  apply ids_step; [done..|].
  intros r [Hr| ->]%Hpeople; [by left|right].
  rewrite Hid. by rewrite deref_ge.
Qed.

Lemma ids_person_with_identifier t v db :
  db_inv db → ids_numbered py_int db → ids_distinct db →
  ids_numbered py_int (person_with_identifier t v db).2 ∧
  ids_distinct (person_with_identifier t v db).2.
Proof.
  intros [Hc _].
  destruct (conserves_person_with_identifier t v t v db Hc) as (_ & _ & Hid).
  apply ids_step; [|done|].
  - rewrite person_with_identifier_unfold. by destruct (idx_get _ t v).
  - intros r Hr. rewrite Hid. revert Hr. rewrite person_with_identifier_unfold.
    destruct (idx_get _ t v); [by left|]. cbn.
    intros [->%elem_of_singleton|Hr]%elem_of_union; [right|by left].
    by rewrite deref_ge.
Qed.

Lemma people_load_values r (l : list (string * string)) db :
  people (foldl (fun db tv => load_value r tv.1 tv.2 db) db l) = people db.
Proof.
  revert db. induction l as [|k l IH]; intros db; [done|].
  cbn [foldl]. by rewrite IH.
Qed.

Lemma load_person_ids db s d db' :
  people_closed db → ids_numbered py_int db → ids_distinct db →
  (∀ r, r ∈ people db → person_id (deref (objs db) r) ≠ Some s) →
  load_person py_int db (s, d) = Ok db' →
  ids_numbered py_int db' ∧ ids_distinct db' ∧
  ∀ r s', r ∈ people db' → person_id (deref (objs db') r) = Some s' →
    s' = s ∨ ∃ r0, r0 ∈ people db ∧ person_id (deref (objs db) r0) = Some s'.
Proof.
  intros Hc [Hpos Hnum] Hdis Hfresh. unfold load_person. cbn [fst snd].
  destruct (py_int (str_drop 4 s)) as [n|] eqn:Hn; [|done].
  set (db2 := set_people _ _).
  destruct (load_values_spec (length (objs db)) (items d) db2) as [_ B].
  assert (Hpeople := people_load_values (length (objs db)) (items d) db2).
  assert (Hpid := pid_load_values (length (objs db)) (items d) db2).
  set (db3 := foldl _ db2 _) in *.
  change (people db2) with ({[length (objs db)]} ∪ people db) in Hpeople.
  change (pid db2) with (pid db) in Hpid.
  assert (Hnew : person_id (deref (objs db3) (length (objs db))) = Some s).
  { rewrite B. subst db2. cbn [objs set_people set_objs]. by rewrite deref_app_new. }
  assert (Hold : ∀ r, r ∈ people db →
            person_id (deref (objs db3) r) = person_id (deref (objs db) r)).
  { intros r Hr. rewrite B. subst db2. cbn [objs set_people set_objs].
    rewrite deref_app_l; [done|by apply Hc]. }
  assert (Hcases : ∀ r, r ∈ people db3 →
            (r = length (objs db) ∧ person_id (deref (objs db3) r) = Some s) ∨
            (r ∈ people db ∧
             person_id (deref (objs db3) r) = person_id (deref (objs db) r))).
  { intros r. rewrite Hpeople.
    intros [->%elem_of_singleton|Hr]%elem_of_union; [by left|right].
    split; [done|by apply Hold]. }
  assert (Hgoal : ∀ p, p = pid db3 ∨ (pid db3 < p ∧ p = n) → n ≤ p →
            let db' := set_pid p db3 in
            ids_numbered py_int db' ∧ ids_distinct db' ∧
            ∀ r s', r ∈ people db' → person_id (deref (objs db') r) = Some s' →
              s' = s ∨ ∃ r0, r0 ∈ people db ∧
                             person_id (deref (objs db) r0) = Some s').
  { intros p Hp Hnp. cbv zeta. split_and!.
    - split; [cbn; lia|]. intros r s' Hr Hs'. cbn [pid set_pid].
      change (people (set_pid p db3)) with (people db3) in Hr.
      change (objs (set_pid p db3)) with (objs db3) in Hs'.
      destruct (Hcases r Hr) as [[-> Hid]|[Hr0 Hid]].
      + rewrite Hid in Hs'. injection Hs' as <-. exists n. split; [done|lia].
      + rewrite Hid in Hs'. destruct (Hnum r s' Hr0 Hs') as (n0 & Hn0 & Hle).
        exists n0. split; [done|lia].
    - intros r1 r2 s' Hr1 Hr2 H1 H2.
      change (people (set_pid p db3)) with (people db3) in Hr1, Hr2.
      change (objs (set_pid p db3)) with (objs db3) in H1, H2.
      destruct (Hcases r1 Hr1) as [[-> Hid1]|[Hr1' Hid1]],
               (Hcases r2 Hr2) as [[-> Hid2]|[Hr2' Hid2]]; [done|..].
      + exfalso. apply (Hfresh r2 Hr2'). congruence.
      + exfalso. apply (Hfresh r1 Hr1'). congruence.
      + apply (Hdis r1 r2 s'); [done|done|congruence..].
    - intros r s' Hr Hs'.
      change (people (set_pid p db3)) with (people db3) in Hr.
      change (objs (set_pid p db3)) with (objs db3) in Hs'.
      destruct (Hcases r Hr) as [[-> Hid]|[Hr0 Hid]].
      + left. congruence.
      + right. exists r. split; [done|congruence]. }
  destruct (pid db3 <? n) eqn:Hlt; intros [= <-].
  - apply (Hgoal n); [right; lia|lia].
  - replace db3 with (set_pid (pid db3) db3) by (by destruct db3).
    apply (Hgoal (pid db3)); [by left|lia].
Qed.

Lemma load_loop_ids L db db' :
  db_inv db → ids_numbered py_int db → ids_distinct db →
  NoDup L.*1 →
  (∀ r s, r ∈ people db → person_id (deref (objs db) r) = Some s → s ∉ L.*1) →
  load_loop py_int L db = Ok db' →
  ids_numbered py_int db' ∧ ids_distinct db'.
Proof.
  revert db. induction L as [|[s d] L IH]; intros db Hinv Hnum Hdis Hnd Hnew.
  - by intros [= <-].
  - cbn [load_loop]. destruct (load_person py_int db (s, d)) as [db1|] eqn:Hload; [|done].
    cbn [mbind result_bind]. cbn [fmap list_fmap fst] in Hnd, Hnew.
    apply NoDup_cons in Hnd as [Hs Hnd].
    destruct (load_person_ids db s d db1) as (Hnum1 & Hdis1 & Hids1);
      [by destruct Hinv|done|done| |done|].
    { intros r Hr Hid. apply (Hnew r s Hr Hid). left. }
    apply IH; [by eapply db_inv_load_person|done|done|done|].
    intros r s' Hr Hs'. destruct (Hids1 r s' Hr Hs') as [->|(r0 & Hr0 & Hs0)]; [done|].
    intros Hin. apply (Hnew r0 s' Hr0 Hs0). by right.
Qed.

(** In every reachable state the stable IDs of the people set are
    pairwise distinct and read back as numbers within the counter. *)
Lemma reachable_ids db :
  reachable py_int db → ids_numbered py_int db ∧ ids_distinct db.
Proof.
  induction 1 as [path db Hjson Hinit|t v db Hreach IH
                  |fuel t1 v1 t2 v2 db db' Hreach IH Hcall
                  |order db Hreach IH Hen].
  - assert (He : ids_numbered py_int db_empty ∧ ids_distinct db_empty).
    { split; [split; [done|]|]; intros r; cbn; set_solver. }
    destruct path as [data|]; cbn in Hinit, Hjson.
    + destruct He. apply (load_loop_ids data db_empty db);
        [apply db_inv_empty|done|done|done| |done].
      intros r s Hr. cbn in Hr. set_solver.
    + by injection Hinit as <-.
  - destruct IH. apply ids_person_with_identifier;
      [by apply (reachable_db_inv py_int)|done..].
  - destruct IH. apply identifies_same_person_Ok in Hcall.
    eapply ids_same_person_result; [by apply (reachable_db_inv py_int)|done..].
  - destruct IH as [Hnum Hdis]. rewrite save_fst. unfold save_loop.
    apply (save_fold_ids py_int py_int_numerals); [|done..].
    apply (reachable_db_inv py_int) in Hreach as [Hc _]. destruct Hen as [_ Hen].
    intros r Hr%Hen. split; [done|by apply Hc].
Qed.

End reachable_ids.

(** * Where the index and the persons agree *)

Section coherence.

Lemma coherent_empty : coherent db_empty.
Proof.
  intros t v r. unfold idx_get. cbn. rewrite lookup_empty. cbn.
  split; [done|]. intros [?%not_elem_of_empty _]. done.
Qed.

Lemma coherent_person_with_identifier t v db :
  people_closed db → coherent db → coherent (person_with_identifier t v db).2.
Proof.
  intros Hc Hcoh. rewrite person_with_identifier_unfold.
  destruct (idx_get (idents db) t v) as [r0|] eqn:Hget; [done|].
  cbn [snd]. intros t' v' r. cbn [idents people]. rewrite idx_get_idx_set.
  unfold holds. cbn [objs]. split.
  - destruct (decide (t' = t ∧ v' = v)) as [[-> ->]|Hne].
    + intros [= <-]. split; [set_solver|]. rewrite deref_app_new. cbn. left.
    + intros [Hr Hh]%Hcoh. split; [set_solver|].
      rewrite deref_app_l; [done|by apply Hc].
  - intros [[->%elem_of_singleton|Hr]%elem_of_union Hh].
    + rewrite deref_app_new in Hh. cbn in Hh.
      apply list_elem_of_singleton in Hh as [= -> ->].
      by rewrite decide_True by done.
    + rewrite deref_app_l in Hh by (by apply Hc).
      assert (Hidx : idx_get (idents db) t' v' = Some r) by (by apply Hcoh).
      rewrite decide_False; [done|]. intros [-> ->]. congruence.
Qed.

Lemma coherent_ensure_types t1 t2 db :
  coherent db → coherent (ensure_types t1 t2 db).
Proof. intros Hcoh t v r. rewrite idx_get_ensure_types. apply Hcoh. Qed.

Lemma coherent_attach p t v db :
  idx_get (idents db) t v = None → p ∈ people db → people_closed db →
  coherent db → coherent (attach p t v db).
Proof.
  intros Hnone Hp Hc Hcoh t' v' r.
  rewrite idx_get_attach, holds_attach.
  change (people (attach p t v db)) with (people db). split.
  - destruct (decide (t' = t ∧ v' = v)) as [[-> ->]|Hne].
    + intros [= <-]. split; [done|]. right. split_and!; [done|by apply Hc|done..].
    + intros [Hr Hh]%Hcoh. split; [done|by left].
  - intros [Hr [Hh|(-> & _ & -> & ->)]].
    + assert (Hidx : idx_get (idents db) t' v' = Some r) by (by apply Hcoh).
      rewrite decide_False; [done|]. intros [-> ->]. congruence.
    + by rewrite decide_True by done.
Qed.

Lemma coherent_absorb_remove src dst db :
  src ≠ dst → src ∈ people db → dst ∈ people db → people_closed db →
  coherent db →
  coherent (set_people (people (absorb src dst db) ∖ {[src]}) (absorb src dst db)).
Proof.
  intros Hne Hsrc Hdst Hc Hcoh t v r.
  change (idents (set_people _ ?d)) with (idents d).
  change (holds (set_people ?s ?d) r t v) with (holds d r t v).
  rewrite idx_get_absorb, (holds_absorb src dst db r t v Hne). cbn [people set_people].
  change (people (absorb src dst db)) with (people db). split.
  - destruct (idx_get (idents db) t v) as [r0|] eqn:Hidx; [|done].
    cbn. intros [= <-]. apply Hcoh in Hidx as [Hr0 Hh0]. unfold repoint.
    destruct (decide (r0 = src)) as [->|Hn0].
    + split; [set_solver|]. right. split_and!; [done|by apply Hc|done].
    + split; [set_solver|]. by left.
  - intros [Hr [[Hrs Hh]|(-> & _ & Hh)]].
    + assert (Hidx : idx_get (idents db) t v = Some r).
      { apply Hcoh. split; [set_solver|done]. }
      rewrite Hidx. cbn. unfold repoint. by rewrite decide_False.
    + assert (Hidx : idx_get (idents db) t v = Some src) by (by apply Hcoh).
      rewrite Hidx. cbn. unfold repoint. by rewrite decide_True.
Qed.

(** A call keeps the agreement of index and persons, unless it merges
    two persons that both have stable IDs. *)
Lemma coherent_same_person_result t1 v1 t2 v2 db db' :
  db_inv db → coherent db →
  (∀ p1 p2, idx_get (idents db) t1 v1 = Some p1 →
            idx_get (idents db) t2 v2 = Some p2 →
            p1 ≠ p2 → ¬ both_stable db p1 p2) →
  same_person_result t1 v1 t2 v2 db = Ok db' → coherent db'.
Proof.
  intros Hinv Hcoh Hnot.
  apply (db_inv_ensure_types t1 t2) in Hinv as [Hc0 Hi0].
  apply (coherent_ensure_types t1 t2) in Hcoh as Hcoh0.
  unfold same_person_result. cbv zeta.
  destruct (idx_get (idents (ensure_types t1 t2 db)) t1 v1) as [p1|] eqn:H1;
    destruct (idx_get (idents (ensure_types t1 t2 db)) t2 v2) as [p2|] eqn:H2.
  - destruct (decide (p1 = p2)) as [Heq|Hne]; [by intros [= <-]|].
    rewrite idx_get_ensure_types in H1, H2.
    specialize (Hnot p1 p2 H1 H2 Hne). unfold both_stable in Hnot.
    assert (Hp1 : p1 ∈ people (ensure_types t1 t2 db)).
    { apply (Hi0 t1 v1). by rewrite idx_get_ensure_types. }
    assert (Hp2 : p2 ∈ people (ensure_types t1 t2 db)).
    { apply (Hi0 t2 v2). by rewrite idx_get_ensure_types. }
    unfold merge_decision. change (objs (ensure_types t1 t2 db)) with (objs db).
    destruct (person_id (deref (objs db) p1)), (person_id (deref (objs db) p2)).
    + exfalso. apply Hnot. split; eauto.
    + intros [_ ->]%people_remove_inv.
      apply coherent_absorb_remove; [congruence|done..].
    + intros [_ ->]%people_remove_inv. by apply coherent_absorb_remove.
    + intros [_ ->]%people_remove_inv.
      apply coherent_absorb_remove; [congruence|done..].
  - intros [= <-]. apply coherent_attach; [done| |done..]. by apply (Hi0 t1 v1).
  - intros [= <-]. apply coherent_attach; [done| |done..]. by apply (Hi0 t2 v2).
  - assert (Hcoh1 := coherent_person_with_identifier t1 v1 _ Hc0 Hcoh0).
    assert (Hinv1 := db_inv_person_with_identifier t1 v1 _ (conj Hc0 Hi0)).
    destruct (decide (t2 = t1 ∧ v2 = v1)) as [|Hn]; intros [= <-]; [done|].
    revert Hcoh1 Hinv1. rewrite person_with_identifier_unfold, H1. cbn [snd].
    intros Hcoh1 [Hc1 _]. apply coherent_attach; [|cbn; set_solver|done..].
    cbn [idents]. rewrite idx_get_idx_set. by rewrite decide_False.
Qed.

Lemma coherent_save order db : coherent db → coherent (save order db).1.
Proof.
  intros Hcoh t v r. rewrite save_fst.
  destruct (save_loop_frame order db) as (F1 & F2 & _).
  rewrite F1, F2. unfold holds.
  assert (Hids : ∀ out l db0,
    identifiers (deref (objs (foldl save_person (db0, out) l).1) r) =
    identifiers (deref (objs db0) r)).
  { intros out l. revert out. induction l as [|r0 l IH]; intros out db0; [done|].
    cbn [foldl]. destruct (person_id (deref (objs db0) r0)) eqn:Hs.
    - by rewrite (save_person_Some _ _ _ _ Hs), IH.
    - rewrite (save_person_None _ _ _ Hs), IH. cbn [objs set_objs].
      rewrite deref_alter. by destruct (decide _) as [[-> _]|]. }
  unfold save_loop. rewrite Hids. apply Hcoh.
Qed.

End coherence.

(** * C6, on the side of the persons *)

Section symmetry_groups.

Lemma merge_shape_cohabit db db' (src dst : ref) k k' :
  src ≠ dst → dst ∈ people db →
  merge_shape db db' src dst →
  k.1 ≠ replaced_by → k'.1 ≠ replaced_by →
  cohabit db' k k' ↔ merged_cohabit db src dst k k'.
Proof.
  intros Hne Hdst (Hd & Hsub & Hsup & Hh) Hk Hk'. split.
  - intros (r & Hr & H1 & H2). apply Hh in H1, H2; [|done..].
    destruct H1 as [[Hrs H1]|[-> H1]], H2 as [[Hrs' H2]|[Heq H2]].
    + destruct (decide (r = dst)) as [->|Hrd].
      * right. auto.
      * left. exists r. split_and!; auto.
    + subst r. right. auto.
    + right. auto.
    + right. auto.
  - intros [(r & Hr & Hrs & Hrd & H1 & H2)|[H1 H2]].
    + exists r. split_and!; [by apply Hsup|apply Hh; auto..].
    + exists dst. split_and!; [done|apply Hh; [done|]..].
      * destruct H1; [by right|left; auto].
      * destruct H2; [by right|left; auto].
Qed.

Lemma merged_cohabit_sym db (p1 p2 : ref) k k' :
  merged_cohabit db p1 p2 k k' ↔ merged_cohabit db p2 p1 k k'.
Proof. unfold merged_cohabit. split; intros [(r & ?)|[[?|?] [?|?]]]; naive_solver. Qed.

Lemma merge_shape_absorb_remove src dst db :
  src ≠ dst → dst ∈ people db → people_closed db →
  merge_shape db
    (set_people (people (absorb src dst db) ∖ {[src]}) (absorb src dst db))
    src dst.
Proof.
  intros Hne Hdst Hc. split_and!.
  - cbn. set_solver.
  - intros r. cbn. set_solver.
  - intros r. cbn. set_solver.
  - intros r t v _.
    change (holds (set_people ?s ?d) r t v) with (holds d r t v).
    rewrite (holds_absorb src dst db r t v Hne). split.
    + intros [?|(-> & _ & ?)]; auto.
    + intros [?|[-> ?]]; [by left|right]. split_and!; [done|by apply Hc|done].
Qed.

Lemma merge_shape_absorb_tombstone src dst s db :
  src ≠ dst → dst ∈ people db → people_closed db →
  merge_shape db (db_add_identifier src replaced_by s (absorb src dst db))
    src dst.
Proof.
  intros Hne Hdst Hc. split_and!; [done..|].
  intros r t v Ht. rewrite holds_db_add_identifier.
  rewrite (holds_absorb src dst db r t v Hne). split.
  - intros [[?|(-> & _ & ?)]|(_ & _ & -> & _)]; auto. done.
  - intros [?|[-> ?]]; left; [by left|right].
    split_and!; [done|by apply Hc|done].
Qed.

Lemma merge_decision_shape (p1 p2 : ref) db db' :
  p1 ≠ p2 → p1 ∈ people db → p2 ∈ people db → people_closed db →
  merge_decision p1 p2 db = Ok db' →
  merge_shape db db' p1 p2 ∨ merge_shape db db' p2 p1.
Proof.
  intros Hne H1 H2 Hc. unfold merge_decision.
  destruct (person_id (deref (objs db) p1)), (person_id (deref (objs db) p2)).
  - destruct (_ <? _)%nat; intros [= <-].
    + right. apply merge_shape_absorb_tombstone; [congruence|done..].
    + left. by apply merge_shape_absorb_tombstone.
  - intros [_ ->]%people_remove_inv. right.
    apply merge_shape_absorb_remove; [congruence|done..].
  - intros [_ ->]%people_remove_inv. left.
    by apply merge_shape_absorb_remove.
  - intros [_ ->]%people_remove_inv. right.
    apply merge_shape_absorb_remove; [congruence|done..].
Qed.

Lemma merge_decision_cohabit (p1 p2 : ref) db db' k k' :
  p1 ≠ p2 → p1 ∈ people db → p2 ∈ people db → people_closed db →
  merge_decision p1 p2 db = Ok db' →
  k.1 ≠ replaced_by → k'.1 ≠ replaced_by →
  cohabit db' k k' ↔ merged_cohabit db p1 p2 k k'.
Proof.
  intros Hne H1 H2 Hc Hres Hk Hk'.
  destruct (merge_decision_shape p1 p2 db db' Hne H1 H2 Hc Hres) as [Hs|Hs].
  - by apply merge_shape_cohabit.
  - rewrite merged_cohabit_sym. apply merge_shape_cohabit; [congruence|done..].
Qed.

(** The persons after a call that creates one (case 1). *)
Lemma holds_created t1 v1 t2 v2 db r t v :
  idx_get (idents db) t1 v1 = None →
  let db1 := (person_with_identifier t1 v1 db).2 in
  let dbA := if decide (t2 = t1 ∧ v2 = v1) then db1
             else attach (length (objs db)) t2 v2 db1 in
  people dbA = {[length (objs db)]} ∪ people db ∧
  (r ∈ people db → (r < length (objs db))%nat →
   (holds dbA r t v ↔ holds db r t v)) ∧
  (holds dbA (length (objs db)) t v ↔ (t = t1 ∧ v = v1) ∨ (t = t2 ∧ v = v2)).
Proof.
  intros Hnone. cbv zeta. rewrite person_with_identifier_unfold, Hnone. cbn [snd].
  set (db1 := mkDB _ _ _ _).
  assert (Hnew : ∀ t' v', holds db1 (length (objs db)) t' v' ↔ t' = t1 ∧ v' = v1).
  { intros t' v'. unfold holds. subst db1. cbn [objs]. rewrite deref_app_new. cbn.
    rewrite list_elem_of_singleton. split; [by intros [= -> ->]|by intros [-> ->]]. }
  assert (Hold : ∀ r', (r' < length (objs db))%nat →
            ∀ t' v', holds db1 r' t' v' ↔ holds db r' t' v').
  { intros r' Hr' t' v'. unfold holds. subst db1. cbn [objs].
    by rewrite deref_app_l. }
  destruct (decide (t2 = t1 ∧ v2 = v1)) as [[-> ->]|Hn].
  - split_and!; [done|intros _ Hr; by apply Hold|].
    rewrite Hnew. tauto.
  - split_and!; [done| |].
    + intros _ Hr. rewrite holds_attach, Hold by done. split; [|by left].
      intros [?|[-> _]]; [done|lia].
    + rewrite holds_attach, Hnew. subst db1. cbn [objs]. rewrite length_app. cbn.
      split; [intros [?|(_ & _ & ? & ?)]; auto|].
      intros [?|[-> ->]]; [by left|right]. split_and!; [done|lia|done..].
Qed.

Lemma same_person_result_groups t1 v1 t2 v2 db dbA dbB :
  db_inv db →
  same_person_result t1 v1 t2 v2 db = Ok dbA →
  same_person_result t2 v2 t1 v1 db = Ok dbB →
  same_groups dbA dbB.
Proof.
  intros Hinv. apply (db_inv_ensure_types t1 t2) in Hinv as Hinv0.
  destruct Hinv as [Hc Hi].
  unfold same_person_result. cbv zeta. rewrite !idx_get_ensure_types.
  destruct (idx_get (idents db) t1 v1) as [p1|] eqn:H1;
    destruct (idx_get (idents db) t2 v2) as [p2|] eqn:H2.
  - destruct (decide (p1 = p2)) as [->|Hne].
    + rewrite decide_True by done. by intros [= <-] [= <-].
    + rewrite decide_False by congruence. intros HA HB k k' Hk Hk'.
      assert (Hp1 := Hi _ _ _ H1). assert (Hp2 := Hi _ _ _ H2).
      rewrite (merge_decision_cohabit p1 p2 (ensure_types t1 t2 db) dbA k k'
                 Hne Hp1 Hp2 Hc HA Hk Hk').
      rewrite (merge_decision_cohabit p2 p1 (ensure_types t2 t1 db) dbB k k'
                 ltac:(congruence) Hp2 Hp1 Hc HB Hk Hk').
      apply (merged_cohabit_sym db p1 p2 k k').
  - by intros [= <-] [= <-].
  - by intros [= <-] [= <-].
  - intros HA HB.
    assert (H1' : idx_get (idents (ensure_types t1 t2 db)) t1 v1 = None)
      by (by rewrite idx_get_ensure_types).
    assert (H2' : idx_get (idents (ensure_types t2 t1 db)) t2 v2 = None)
      by (by rewrite idx_get_ensure_types).
    assert (HsA := fun r t v => holds_created t1 v1 t2 v2 _ r t v H1').
    assert (HsB := fun r t v => holds_created t2 v2 t1 v1 _ r t v H2').
    cbv zeta in HsA, HsB.
    change (objs (ensure_types t1 t2 db)) with (objs db) in HA, HsA.
    change (objs (ensure_types t2 t1 db)) with (objs db) in HB, HsB.
    change (people (ensure_types t1 t2 db)) with (people db) in HsA.
    change (people (ensure_types t2 t1 db)) with (people db) in HsB.
    assert (HeqA : dbA = if decide (t2 = t1 ∧ v2 = v1)
                     then (person_with_identifier t1 v1 (ensure_types t1 t2 db)).2
                     else attach (length (objs db)) t2 v2
                            (person_with_identifier t1 v1 (ensure_types t1 t2 db)).2).
    { destruct (decide (t2 = t1 ∧ v2 = v1)); by injection HA. }
    assert (HeqB : dbB = if decide (t1 = t2 ∧ v1 = v2)
                     then (person_with_identifier t2 v2 (ensure_types t2 t1 db)).2
                     else attach (length (objs db)) t1 v1
                            (person_with_identifier t2 v2 (ensure_types t2 t1 db)).2).
    { destruct (decide (t1 = t2 ∧ v1 = v2)); by injection HB. }
    rewrite <- HeqA in HsA. rewrite <- HeqB in HsB. clear HA HB HeqA HeqB.
    assert (Hsame : ∀ r t v, r ∈ people dbA →
              (holds dbA r t v ↔ holds dbB r t v) ∧ r ∈ people dbB).
    { intros r t v Hr. destruct (HsA r t v) as (PA & OA & NA).
      destruct (HsB r t v) as (PB & OB & NB). rewrite PA in Hr. rewrite PB.
      split; [|done].
      apply elem_of_union in Hr as [->%elem_of_singleton|Hr].
      - rewrite NA, NB. tauto.
      - rewrite OA, OB; [done|done|by apply Hc|done|by apply Hc]. }
    assert (Hsame' : ∀ r t v, r ∈ people dbB →
              (holds dbA r t v ↔ holds dbB r t v) ∧ r ∈ people dbA).
    { intros r t v Hr. destruct (HsA r t v) as (PA & OA & NA).
      destruct (HsB r t v) as (PB & OB & NB). rewrite PB in Hr. rewrite PA.
      split; [|done].
      apply elem_of_union in Hr as [->%elem_of_singleton|Hr].
      - rewrite NA, NB. tauto.
      - rewrite OA, OB; [done|done|by apply Hc|done|by apply Hc]. }
    intros k k' _ _. split.
    + intros (r & Hr & Hk1 & Hk2). exists r.
      split_and!; [by apply (Hsame r k.1 k.2)|
                   by apply (Hsame r k.1 k.2)|by apply (Hsame r k'.1 k'.2)].
    + intros (r & Hr & Hk1 & Hk2). exists r.
      split_and!; [by apply (Hsame' r k.1 k.2)|
                   by apply (Hsame' r k.1 k.2)|by apply (Hsame' r k'.1 k'.2)].
Qed.

(** C6.  From a state satisfying the invariant, the call with arguments
    [(t1, v1), (t2, v2)] and the call with arguments [(t2, v2), (t1, v1)]
    both return, and the two resulting states have the same partition:
    in the index, two identifiers have the same owner in one exactly
    when they have the same owner in the other; and in the persons of
    the people set, two identifiers are held by one person in one
    exactly when they are in the other, the [replaced_by] identifiers
    (which name the stable ID that survived) left aside. *)
Theorem identifies_same_person_symmetric fuel t1 v1 t2 v2 db :
  db_inv db →
  ∃ dbA dbB,
    identifies_same_person (S fuel) t1 v1 t2 v2 db = Ok dbA ∧
    identifies_same_person (S fuel) t2 v2 t1 v1 db = Ok dbB ∧
    same_partition dbA dbB ∧
    same_groups dbA dbB.
Proof.
  intros Hinv. rewrite !identifies_same_person_S.
  destruct (same_person_result_total t1 v1 t2 v2 db Hinv) as (dbA & HA & _).
  destruct (same_person_result_total t2 v2 t1 v1 db Hinv) as (dbB & HB & _).
  exists dbA, dbB. split_and!; [done|done| |].
  - eapply index_after_symmetric; by apply same_person_result_index.
  - by apply (same_person_result_groups t1 v1 t2 v2 db).
Qed.

Lemma identifies_same_person_symmetric_witness :
  ∃ dbA dbB,
    identifies_same_person 1 "email" "a" "email" "b" db_tie = Ok dbA ∧
    identifies_same_person 1 "email" "b" "email" "a" db_tie = Ok dbB ∧
    same_partition dbA dbB ∧
    same_groups dbA dbB.
Proof.
  apply (identifies_same_person_symmetric 0 "email" "a" "email" "b" db_tie).
  apply db_inv_db_tie.
Defined.

End symmetry_groups.

(** * C3, C8: persistence in reachable states *)

Section persistence.

Variable py_int : string → option Z.
Hypothesis py_int_numerals : int_reads_numerals py_int.

(** C8 (as the code has it).  For a reachable database in which every
    person of the people set has a stable ID already, and any database
    that holds the same persons (the same stable IDs with the same
    identifiers), [save] writes the same document, whatever the order in
    which the two people sets are iterated; the keys of the document
    are in sorted order, at both levels. *)
Theorem save_deterministic db1 db2 order1 order2 :
  reachable py_int db1 → all_published db1 →
  same_records db1 db2 →
  enumerates order1 (people db1) → enumerates order2 (people db2) →
  (save order1 db1).2 = (save order2 db2).2 ∧
  Sorted key_le (save order1 db1).2 ∧
  Forall (fun rec : string * dict => Sorted key_le rec.2) (save order1 db1).2.
Proof.
  intros Hreach Hpub Hsame Hen1 Hen2.
  apply save_deterministic_general; [done..|].
  by apply (reachable_ids py_int py_int_numerals).
Qed.

(** C3 (as the code has it).  From a reachable state in which the index
    and the persons agree (an identifier is indexed to a person exactly
    when that person is in the people set and holds it), [save] writes a
    document that [load] accepts, and in the loaded database the index
    has the same entries as in the saved one, each owned by a person
    with the same stable ID. *)
Theorem save_load_round_trip order db :
  reachable py_int db → coherent db → enumerates order (people db) →
  ∃ db'', load py_int (save order db).2 = Ok db'' ∧
    (∀ t v, owner_id db'' t v = owner_id (save order db).1 t v) ∧
    (∀ t v, is_Some (idx_get (idents db'') t v) ↔
            is_Some (idx_get (idents (save order db).1) t v)).
Proof.
  intros Hreach Hcoh Hen.
  destruct (reachable_ids py_int py_int_numerals db Hreach) as [Hnum Hdis].
  destruct (reachable_db_inv py_int db Hreach) as [Hc _].
  by apply (save_load_round_trip_general py_int py_int_numerals).
Qed.

End persistence.

Lemma reachable_db_tie : reachable int_ascii db_tie.
Proof.
  apply (reach_init int_ascii (Some saved_tie)); [|reflexivity].
  by apply (bool_decide_unpack _).
Qed.

Lemma reachable_db_ab : reachable int_ascii db_ab.
Proof.
  apply reach_person, reach_person, (reach_init int_ascii None); done.
Qed.

Lemma coherent_db_ab : coherent db_ab.
Proof.
  apply coherent_person_with_identifier.
  - apply db_inv_person_with_identifier, db_inv_empty.
  - apply coherent_person_with_identifier; [apply db_inv_empty|apply coherent_empty].
Qed.

Lemma save_deterministic_witness :
  (save [0%nat; 1%nat] db_tie).2 = (save [1%nat; 0%nat] db_tie_rev).2 ∧
  Sorted key_le (save [0%nat; 1%nat] db_tie).2 ∧
  Forall (fun rec : string * dict => Sorted key_le rec.2)
    (save [0%nat; 1%nat] db_tie).2.
Proof.
  apply (save_deterministic int_ascii int_ascii_reads_numerals
           db_tie db_tie_rev [0%nat; 1%nat] [1%nat; 0%nat]).
  - apply reachable_db_tie.
  - intros r Hr. change (people db_tie) with ({[1%nat]} ∪ ({[0%nat]} ∪ ∅) : gset nat) in Hr.
    apply people_01 in Hr as [-> | ->]; reflexivity.
  - apply same_records_01; reflexivity.
  - apply enumerates_01. reflexivity.
  - split.
    + repeat constructor; set_solver.
    + intros r. change (people db_tie_rev) with ({[1%nat]} ∪ ({[0%nat]} ∪ ∅) : gset nat).
      set_solver.
Defined.

(** C8 as worded fails: two databases hold the same two persons, neither
    with a stable ID yet, and the same counter; iterated by address,
    [save] gives the stable IDs the other way round.  So does one
    database iterated in two orders. *)
Lemma save_order_counterexample :
  reachable int_ascii db_ab ∧ reachable int_ascii db_ba ∧
  enumerates [0%nat; 1%nat] (people db_ab) ∧
  enumerates [0%nat; 1%nat] (people db_ba) ∧
  enumerates [1%nat; 0%nat] (people db_ab) ∧
  same_records db_ab db_ba ∧
  pid db_ab = pid db_ba ∧
  (save [0%nat; 1%nat] db_ab).2 ≠ (save [0%nat; 1%nat] db_ba).2 ∧
  (save [0%nat; 1%nat] db_ab).2 ≠ (save [1%nat; 0%nat] db_ab).2.
Proof.
  split_and!.
  - apply reachable_db_ab.
  - apply reach_person, reach_person, (reach_init int_ascii None); done.
  - apply enumerates_01. reflexivity.
  - apply enumerates_01. reflexivity.
  - split; [repeat constructor; set_solver|].
    intros r. change (people db_ab) with ({[1%nat]} ∪ ({[0%nat]} ∪ ∅) : gset nat).
    set_solver.
  - apply same_records_01; reflexivity.
  - reflexivity.
  - vm_compute. discriminate.
  - vm_compute. discriminate.
Qed.

Lemma save_load_round_trip_witness :
  ∃ db'', load int_ascii (save [0%nat; 1%nat] db_ab).2 = Ok db'' ∧
    (∀ t v, owner_id db'' t v = owner_id (save [0%nat; 1%nat] db_ab).1 t v) ∧
    (∀ t v, is_Some (idx_get (idents db'') t v) ↔
            is_Some (idx_get (idents (save [0%nat; 1%nat] db_ab).1) t v)).
Proof.
  apply (save_load_round_trip int_ascii int_ascii_reads_numerals
           [0%nat; 1%nat] db_ab).
  - apply reachable_db_ab.
  - apply coherent_db_ab.
  - apply enumerates_01. reflexivity.
Defined.

(** C3 as worded fails: after a merge of two published persons the
    person merged away holds [("replaced_by", "PID:000002")], which is
    not an index entry; [save] writes it and [load] indexes it, so the
    loaded index has an entry the saved one has not. *)
Lemma round_trip_counterexample :
  ∃ db'',
    reachable int_ascii db_merged ∧
    identifies_same_person 1 "email" "a" "email" "b" db_tie = Ok db_merged ∧
    enumerates [0%nat; 1%nat] (people db_merged) ∧
    load int_ascii (save [0%nat; 1%nat] db_merged).2 = Ok db'' ∧
    idx_get (idents (save [0%nat; 1%nat] db_merged).1) "replaced_by" "PID:000002"
      = None ∧
    idx_get (idents db'') "replaced_by" "PID:000002" = Some 0%nat ∧
    owner_id db'' "replaced_by" "PID:000002" = Some "PID:000001".
Proof.
  eexists. split_and!.
  - apply (reach_same int_ascii 1 "email" "a" "email" "b" db_tie);
      [apply reachable_db_tie|].
    vm_compute. reflexivity.
  - vm_compute. reflexivity.
  - apply enumerates_01. vm_compute. reflexivity.
  - vm_compute. reflexivity.
  - vm_compute. reflexivity.
  - vm_compute. reflexivity.
  - vm_compute. reflexivity.
Qed.

(** * Further properties of the code *)

(** * Participant *)

Section participant.

Lemma dict_count_from (d : dict) (n : nat) :
  foldl (fun count (tv : string * list string) => (count + length tv.2)%nat) n d
  = (n + length (items d))%nat.
Proof.
  revert n. induction d as [|[t vs] d IH]; intros n; cbn [foldl].
  - cbn. lia.
  - rewrite IH, items_cons, length_app, length_fmap. cbn. lia.
Qed.

Lemma dict_count_items (d : dict) : dict_count d = length (items d).
Proof. unfold dict_count. by rewrite dict_count_from. Qed.

Lemma elem_of_items_head t v vs (d : dict) :
  t ∉ d.*1 → (t, v) ∈ items ((t, vs) :: d) ↔ v ∈ vs.
Proof.
  intros Hnin. rewrite items_cons, elem_of_app, elem_of_pair_fmap, elem_of_items.
  split; [|tauto]. intros [[_ ?]|(vs' & Hin & _)]; [done|].
  exfalso. apply Hnin. apply list_elem_of_fmap. by exists (t, vs').
Qed.

Lemma dict_add_keys t v (d : dict) :
  (dict_add t v d).*1 = if decide (t ∈ d.*1) then d.*1 else (d.*1 ++ [t])%list.
Proof.
  induction d as [|[t0 vs] d IH]; cbn [dict_add].
  - by rewrite decide_False by apply not_elem_of_nil.
  - destruct (decide (t0 = t)) as [->|Hne].
    + cbn. by rewrite decide_True by left.
    + cbn [fmap list_fmap fst]. change (list_fmap _ _ fst ?l) with (l.*1).
      rewrite IH. destruct (decide (t ∈ d.*1)) as [Hin|Hnin].
      * by rewrite decide_True by (by right).
      * rewrite decide_False; [done|].
        intros [?|?]%elem_of_cons; [congruence|done].
Qed.

Lemma dict_add_present t v (d : dict) :
  keys_distinct d → (t, v) ∈ items d → dict_add t v d = d.
Proof.
  unfold keys_distinct. induction d as [|[t0 vs] d IH]; intros Hnd Hin.
  - by apply elem_of_nil in Hin.
  - cbn in Hnd. apply NoDup_cons in Hnd as [Hnin Hnd]. cbn [dict_add].
    destruct (decide (t0 = t)) as [->|Hne].
    + apply elem_of_items_head in Hin; [|done]. by rewrite decide_True.
    + f_equal. apply IH; [done|].
      rewrite items_cons, elem_of_app, elem_of_pair_fmap in Hin.
      destruct Hin as [[? _]|?]; [congruence|done].
Qed.

Lemma dict_add_length_items t v (d : dict) :
  keys_distinct d →
  length (items (dict_add t v d)) =
  (length (items d) + if decide ((t, v) ∈ items d) then 0 else 1)%nat.
Proof.
  unfold keys_distinct. induction d as [|[t0 vs] d IH]; intros Hnd.
  - cbn. by rewrite decide_False by apply not_elem_of_nil.
  - cbn in Hnd. apply NoDup_cons in Hnd as [Hnin Hnd]. cbn [dict_add].
    destruct (decide (t0 = t)) as [->|Hne].
    + assert (Hh := elem_of_items_head t v vs d Hnin).
      destruct (decide (v ∈ vs)) as [Hv|Hv].
      * rewrite decide_True by (by apply Hh). lia.
      * rewrite decide_False by (by rewrite Hh).
        rewrite !items_cons, !length_app, !length_fmap, length_app. cbn. lia.
    + rewrite !items_cons, !length_app, IH by done.
      destruct (decide ((t, v) ∈ items d)) as [Hin|Hnin'].
      * rewrite decide_True; [lia|]. rewrite elem_of_app. by right.
      * rewrite decide_False; [lia|].
        rewrite elem_of_app, elem_of_pair_fmap. intros [[? _]|?]; congruence.
Qed.

Lemma dict_add_length_le t v (d : dict) :
  (length (items (dict_add t v d)) ≤ S (length (items d)))%nat.
Proof.
  induction d as [|[t0 vs] d IH]; cbn [dict_add]; [cbn; lia|].
  destruct (decide (t0 = t)) as [->|Hne].
  - rewrite !items_cons, !length_app, !length_fmap.
    destruct (decide (v ∈ vs)); [lia|]. rewrite length_app. cbn. lia.
  - rewrite !items_cons, !length_app. lia.
Qed.

Lemma dict_add_idem t v (d : dict) :
  dict_add t v (dict_add t v d) = dict_add t v d.
Proof.
  induction d as [|[t0 vs] d IH]; cbn [dict_add].
  - rewrite decide_True by done. by rewrite decide_True by left.
  - destruct (decide (t0 = t)) as [->|Hne]; cbn [dict_add].
    + rewrite decide_True by done. destruct (decide (v ∈ vs)) as [Hv|Hv].
      * by rewrite decide_True.
      * rewrite decide_True; [done|]. rewrite elem_of_app. right. left.
    + rewrite decide_False by done. by rewrite IH.
Qed.

(** X1.  [add_identifier] keeps the stable ID; afterwards the person
    holds the pairs it held and the one added, and nothing else; adding
    the same pair a second time changes nothing. *)
Theorem add_identifier_effect (t v : string) (p : Participant) :
  person_id (add_identifier t v p) = person_id p ∧
  (∀ t' v', (t', v') ∈ items (identifiers (add_identifier t v p)) ↔
            (t', v') ∈ items (identifiers p) ∨ (t' = t ∧ v' = v)) ∧
  add_identifier t v (add_identifier t v p) = add_identifier t v p.
Proof.
  split_and!.
  - done.
  - intros t' v'. apply elem_of_items_dict_add.
  - unfold add_identifier. cbn. by rewrite dict_add_idem.
Qed.

Lemma dict_add_keys_distinct t v (d : dict) :
  keys_distinct d → keys_distinct (dict_add t v d).
Proof.
  unfold keys_distinct. intros Hk. rewrite dict_add_keys.
  destruct (decide (t ∈ d.*1)); [done|].
  apply NoDup_app. split_and!; [done| |apply NoDup_singleton].
  intros x Hx ->%list_elem_of_singleton. done.
Qed.

Lemma dict_add_values_distinct t v (d : dict) :
  values_distinct d → values_distinct (dict_add t v d).
Proof.
  unfold values_distinct. induction d as [|[t0 vs] d IH]; intros Hv; cbn [dict_add].
  - repeat constructor. apply not_elem_of_nil.
  - apply Forall_cons in Hv as [Hvs Hd].
    destruct (decide (t0 = t)) as [->|Hne].
    + constructor; [|done]. cbn [snd]. destruct (decide (v ∈ vs)); [done|].
      apply NoDup_app. split_and!; [done| |apply NoDup_singleton].
      intros x Hx ->%list_elem_of_singleton. done.
    + constructor; [done|]. by apply IH.
Qed.

(** X2.  On a person whose dict has each type once and no value twice
    under a type, [add_identifier] keeps both properties, leaves the
    types in their order (a new type goes last), and changes nothing at
    all when the pair is already held. *)
Theorem add_identifier_keeps_dict (t v : string) (p : Participant) :
  keys_distinct (identifiers p) → values_distinct (identifiers p) →
  keys_distinct (identifiers (add_identifier t v p)) ∧
  values_distinct (identifiers (add_identifier t v p)) ∧
  (identifiers (add_identifier t v p)).*1 =
    (if decide (t ∈ (identifiers p).*1) then (identifiers p).*1
     else ((identifiers p).*1 ++ [t])%list) ∧
  ((t, v) ∈ items (identifiers p) → add_identifier t v p = p).
Proof.
  destruct p as [s d]. cbn [add_identifier identifiers person_id].
  intros Hk Hv. split_and!.
  - by apply dict_add_keys_distinct.
  - by apply dict_add_values_distinct.
  - apply dict_add_keys.
  - intros Hin. unfold add_identifier. cbn [identifiers person_id].
    by rewrite dict_add_present.
Qed.

Lemma add_identifier_keeps_dict_witness :
  keys_distinct (identifiers (add_identifier "email" "b"
                                (mkParticipant None [("email", ["a"])]))) ∧
  values_distinct (identifiers (add_identifier "email" "b"
                                  (mkParticipant None [("email", ["a"])]))) ∧
  (identifiers (add_identifier "email" "b"
                  (mkParticipant None [("email", ["a"])]))).*1 =
    (if decide ("email" ∈ (identifiers (mkParticipant None [("email", ["a"])])).*1)
     then (identifiers (mkParticipant None [("email", ["a"])])).*1
     else ((identifiers (mkParticipant None [("email", ["a"])])).*1
             ++ ["email"])%list) ∧
  (("email", "b") ∈ items (identifiers (mkParticipant None [("email", ["a"])])) →
   add_identifier "email" "b" (mkParticipant None [("email", ["a"])])
   = mkParticipant None [("email", ["a"])]).
Proof.
  apply (add_identifier_keeps_dict "email" "b"
           (mkParticipant None [("email", ["a"])])).
  - unfold keys_distinct. cbn. repeat constructor. apply not_elem_of_nil.
  - unfold values_distinct. cbn. repeat constructor. apply not_elem_of_nil.
Defined.

(** X3.  [num_idents] is the number of (type, value) pairs the person
    holds; [add_identifier] raises it by one when the pair is new and
    leaves it as it is when the pair is already held. *)
Theorem num_idents_add_identifier (t v : string) (p : Participant) :
  keys_distinct (identifiers p) →
  num_idents p = length (items (identifiers p)) ∧
  num_idents (add_identifier t v p) =
    (num_idents p + if decide ((t, v) ∈ items (identifiers p)) then 0 else 1)%nat.
Proof.
  intros Hk. unfold num_idents. rewrite !dict_count_items. split; [done|].
  by apply dict_add_length_items.
Qed.

Lemma num_idents_add_identifier_witness :
  num_idents (mkParticipant None [("email", ["a"; "b"]); ("name", ["J"])])
  = length (items (identifiers
      (mkParticipant None [("email", ["a"; "b"]); ("name", ["J"])]))) ∧
  num_idents (add_identifier "name" "K"
      (mkParticipant None [("email", ["a"; "b"]); ("name", ["J"])])) =
    (num_idents (mkParticipant None [("email", ["a"; "b"]); ("name", ["J"])])
     + if decide (("name", "K") ∈ items (identifiers
          (mkParticipant None [("email", ["a"; "b"]); ("name", ["J"])])))
       then 0 else 1)%nat.
Proof.
  apply (num_idents_add_identifier "name" "K"
           (mkParticipant None [("email", ["a"; "b"]); ("name", ["J"])])).
  unfold keys_distinct. cbn. apply (bool_decide_unpack _). reflexivity.
Defined.

End participant.

(** * [merge_into] and [_update_refs] *)

Section merge_into_facts.

Lemma store_merge_into_add_all src dst h :
  store_merge_into src dst h =
  alter clear_identifiers src (add_all dst (items (identifiers (deref h src))) h).
Proof. reflexivity. Qed.

Lemma add_all_count dst (l : list (string * string)) h :
  (length (items (identifiers (deref (add_all dst l h) dst)))
   ≤ length (items (identifiers (deref h dst))) + length l)%nat.
Proof.
  revert h. induction l as [|k l IH]; intros h; [cbn; lia|].
  rewrite add_all_cons. etransitivity; [apply IH|].
  rewrite deref_alter. destruct (decide _) as [_|_]; [|cbn; lia].
  cbn [add_identifier identifiers length].
  pose proof (dict_add_length_le k.1 k.2 (identifiers (deref h dst))). lia.
Qed.

Lemma alter_clear_add_all r (l : list (string * string)) h :
  alter clear_identifiers r (add_all r l h) = alter clear_identifiers r h.
Proof.
  revert h. induction l as [|k l IH]; intros h; [done|].
  rewrite add_all_cons, IH, list_alter_alter_eq.
  by apply list_alter_ext.
Qed.

Lemma store_merge_into_other src dst h r :
  r ≠ src → r ≠ dst → deref (store_merge_into src dst h) r = deref h r.
Proof.
  intros Hr1 Hr2. rewrite store_merge_into_add_all, deref_alter.
  rewrite decide_False by (intros [? _]; done). by apply add_all_other.
Qed.

(** X4.  [src.merge_into(dst)] for two distinct persons of the store:
    [dst] holds afterwards the pairs of both and no other, [src] holds
    none, every other person is as before, no stable ID changes, and
    [dst] counts at most as many identifiers as the two did together. *)
Theorem merge_into_effect (src dst : ref) h :
  src ≠ dst → (src < length h)%nat → (dst < length h)%nat →
  let h' := store_merge_into src dst h in
  length h' = length h ∧
  identifiers (deref h' src) = [] ∧
  (∀ k, k ∈ items (identifiers (deref h' dst)) ↔
        k ∈ items (identifiers (deref h dst)) ∨
        k ∈ items (identifiers (deref h src))) ∧
  (∀ r, r ≠ src → r ≠ dst → deref h' r = deref h r) ∧
  (∀ r, person_id (deref h' r) = person_id (deref h r)) ∧
  (num_idents (deref h' dst)
   ≤ num_idents (deref h dst) + num_idents (deref h src))%nat.
Proof.
  intros Hne Hsrc Hdst h'. subst h'. split_and!.
  - apply store_merge_into_length.
  - apply store_merge_into_src.
  - intros k. rewrite (store_merge_into_items src dst h dst k Hne). split.
    + intros [[_ ?]|(_ & _ & ?)]; auto.
    + intros [?|?]; [left|right]; auto.
  - intros r Hr1 Hr2. by apply store_merge_into_other.
  - apply store_merge_into_person_id.
  - unfold num_idents. rewrite !dict_count_items.
    rewrite store_merge_into_add_all, deref_alter.
    rewrite decide_False by (intros [? _]; congruence).
    apply add_all_count.
Qed.

Lemma merge_into_effect_witness :
  let h := [mkParticipant None [("email", ["a"])];
            mkParticipant (Some "PID:000001") [("email", ["b"]); ("name", ["J"])]] in
  let h' := store_merge_into 0 1 h in
  length h' = length h ∧
  identifiers (deref h' 0%nat) = [] ∧
  (∀ k, k ∈ items (identifiers (deref h' 1%nat)) ↔
        k ∈ items (identifiers (deref h 1%nat)) ∨
        k ∈ items (identifiers (deref h 0%nat))) ∧
  (∀ r, r ≠ 0%nat → r ≠ 1%nat → deref h' r = deref h r) ∧
  (∀ r, person_id (deref h' r) = person_id (deref h r)) ∧
  (num_idents (deref h' 1%nat)
   ≤ num_idents (deref h 1%nat) + num_idents (deref h 0%nat))%nat.
Proof.
  intros h.
  apply (merge_into_effect 0 1 h); [lia|cbn; lia|cbn; lia].
Defined.

(** X5.  A person merged into itself loses its identifiers: the loop
    adds to it what it holds already, and [self.identifiers = {}] then
    empties it.  No other person changes. *)
Theorem merge_into_self r h :
  store_merge_into r r h = alter clear_identifiers r h ∧
  identifiers (deref (store_merge_into r r h) r) = [].
Proof.
  split.
  - rewrite store_merge_into_add_all. apply alter_clear_add_all.
  - apply store_merge_into_src.
Qed.

Lemma repoint_same (a r : ref) : repoint a a r = r.
Proof. unfold repoint. by destruct (decide (r = a)). Qed.

Lemma repoint_ne (a b r : ref) : a ≠ b → repoint a b r ≠ a.
Proof. unfold repoint. destruct (decide (r = a)); congruence. Qed.

(** X6.  [_update_refs(a, b)] repoints at [b] every index entry that
    points at [a] and leaves the others alone; when [a] and [b] differ no
    entry points at [a] afterwards, and [_update_refs(a, a)] changes
    nothing.  The types of the index, the people set, the persons and
    the counter are untouched. *)
Theorem update_refs_effect (a b : ref) db :
  (∀ t v, idx_get (idents (update_refs a b db)) t v
          = repoint a b <$> idx_get (idents db) t v) ∧
  (a ≠ b → unindexed (update_refs a b db) a) ∧
  update_refs a a db = db ∧
  (∀ t, is_Some (idents (update_refs a b db) !! t) ↔ is_Some (idents db !! t)) ∧
  people (update_refs a b db) = people db ∧
  objs (update_refs a b db) = objs db ∧
  pid (update_refs a b db) = pid db.
Proof.
  split_and!; try done.
  - apply idx_get_update_refs.
  - intros Hne t v. rewrite idx_get_update_refs.
    destruct (idx_get (idents db) t v) as [r|]; [|done]. cbn.
    intros [= Heq]. by apply (repoint_ne a b r).
  - destruct db as [n ix s h]. unfold update_refs, set_idents. cbn. f_equal.
    apply map_eq. intros t. rewrite lookup_fmap.
    destruct (ix !! t) as [m|]; [|done]. cbn. f_equal.
    apply map_eq. intros v. rewrite lookup_fmap.
    destruct (m !! v) as [r|]; [|done]. cbn. by rewrite repoint_same.
  - intros t. unfold update_refs. cbn. rewrite lookup_fmap.
    by rewrite fmap_is_Some.
Qed.

End merge_into_facts.

(** * The index is sound *)

Section index_soundness.

Lemma index_sound_bound db t v r :
  index_sound db → idx_get (idents db) t v = Some r → (r < length (objs db))%nat.
Proof. intros Hs [_ Hh]%Hs. by apply deref_lt_of_items in Hh. Qed.

Lemma index_sound_empty : index_sound db_empty.
Proof. intros t v r. unfold idx_get. cbn. by rewrite lookup_empty. Qed.

Lemma index_sound_ensure_types t1 t2 db :
  index_sound db → index_sound (ensure_types t1 t2 db).
Proof.
  intros Hs t v r. rewrite idx_get_ensure_types, holds_ensure_types. apply Hs.
Qed.

Lemma index_sound_person_with_identifier t v db :
  index_sound db → index_sound (person_with_identifier t v db).2.
Proof.
  intros Hs. rewrite person_with_identifier_unfold.
  destruct (idx_get (idents db) t v) as [r0|] eqn:Hget; [done|].
  cbn [snd]. intros t' v' r. cbn [idents people]. rewrite idx_get_idx_set.
  unfold holds. cbn [objs]. destruct (decide (t' = t ∧ v' = v)) as [[-> ->]|Hne].
  - intros [= <-]. split; [set_solver|]. rewrite deref_app_new. cbn. left.
  - intros Hr. destruct (Hs _ _ _ Hr) as [Hp Hh]. split; [set_solver|].
    rewrite deref_app_l; [done|]. by apply deref_lt_of_items in Hh.
Qed.

Lemma index_sound_attach p t v db :
  p ∈ people db → (p < length (objs db))%nat →
  index_sound db → index_sound (attach p t v db).
Proof.
  intros Hp Hlt Hs t' v' r. rewrite idx_get_attach, holds_attach.
  change (people (attach p t v db)) with (people db).
  destruct (decide (t' = t ∧ v' = v)) as [[-> ->]|Hne].
  - intros [= <-]. split; [done|]. by right.
  - intros [Hr Hh]%Hs. split; [done|by left].
Qed.

Lemma index_sound_absorb src dst db t v r :
  src ≠ dst → dst ∈ people db → (dst < length (objs db))%nat →
  index_sound db →
  idx_get (idents (absorb src dst db)) t v = Some r →
  r ≠ src ∧ r ∈ people db ∧ holds (absorb src dst db) r t v.
Proof.
  intros Hne Hdst Hlt Hs. rewrite idx_get_absorb, (holds_absorb src dst db r t v Hne).
  destruct (idx_get (idents db) t v) as [r0|] eqn:Hr0; [|done].
  cbn. intros [= <-]. destruct (Hs _ _ _ Hr0) as [Hp Hh]. unfold repoint.
  destruct (decide (r0 = src)) as [->|Hn0].
  - split_and!; [congruence|done|]. by right.
  - split_and!; [done|done|]. by left.
Qed.

Lemma index_sound_merge_decision (p1 p2 : ref) db db' :
  p1 ≠ p2 → p1 ∈ people db → p2 ∈ people db → people_closed db →
  index_sound db → merge_decision p1 p2 db = Ok db' → index_sound db'.
Proof.
  intros Hne H1 H2 Hc Hs. unfold merge_decision.
  assert (Hrm : ∀ src dst, src ≠ dst → dst ∈ people db →
    index_sound (set_people (people (absorb src dst db) ∖ {[src]})
                   (absorb src dst db))).
  { intros src dst Hsd Hdst t v r Hr.
    destruct (index_sound_absorb src dst db t v r Hsd Hdst (Hc _ Hdst) Hs Hr)
      as (Hrs & Hp & Hh).
    split; [|done]. cbn. set_solver. }
  assert (Htomb : ∀ src dst s, src ≠ dst → dst ∈ people db →
    index_sound (db_add_identifier src replaced_by s (absorb src dst db))).
  { intros src dst s Hsd Hdst t v r Hr.
    destruct (index_sound_absorb src dst db t v r Hsd Hdst (Hc _ Hdst) Hs Hr)
      as (Hrs & Hp & Hh).
    split; [done|]. rewrite holds_db_add_identifier. by left. }
  destruct (person_id (deref (objs db) p1)), (person_id (deref (objs db) p2)).
  - destruct (_ <? _)%nat; intros [= <-]; apply Htomb; done.
  - intros [_ ->]%people_remove_inv. apply Hrm; done.
  - intros [_ ->]%people_remove_inv. apply Hrm; done.
  - intros [_ ->]%people_remove_inv. apply Hrm; done.
Qed.

Lemma index_sound_same_person_result t1 v1 t2 v2 db db' :
  db_inv db → index_sound db →
  same_person_result t1 v1 t2 v2 db = Ok db' → index_sound db'.
Proof.
  intros Hinv Hs.
  apply (db_inv_ensure_types t1 t2) in Hinv as [Hc0 Hi0].
  apply (index_sound_ensure_types t1 t2) in Hs as Hs0.
  unfold same_person_result. cbv zeta.
  destruct (idx_get (idents (ensure_types t1 t2 db)) t1 v1) as [p1|] eqn:H1;
    destruct (idx_get (idents (ensure_types t1 t2 db)) t2 v2) as [p2|] eqn:H2.
  - destruct (decide (p1 = p2)) as [Heq|Hne]; [by intros [= <-]|].
    apply index_sound_merge_decision; [done| | |done..].
    + by apply (Hi0 t1 v1).
    + by apply (Hi0 t2 v2).
  - intros [= <-]. apply index_sound_attach; [by apply (Hi0 t1 v1)| |done].
    by apply (index_sound_bound _ t1 v1).
  - intros [= <-]. apply index_sound_attach; [by apply (Hi0 t2 v2)| |done].
    by apply (index_sound_bound _ t2 v2).
  - assert (Hs1 := index_sound_person_with_identifier t1 v1 _ Hs0).
    destruct (decide (t2 = t1 ∧ v2 = v1)) as [|Hn]; intros [= <-]; [done|].
    revert Hs1. rewrite person_with_identifier_unfold, H1. cbn [snd].
    intros Hs1. apply index_sound_attach; [cbn; set_solver| |done].
    cbn. rewrite length_app. cbn. lia.
Qed.

Lemma save_identifiers order db r :
  identifiers (deref (objs (save order db).1) r) = identifiers (deref (objs db) r).
Proof.
  rewrite save_fst. unfold save_loop. generalize (∅ : gmap string dict).
  revert db. induction order as [|r0 order IH]; intros db out; [done|].
  cbn [foldl]. destruct (person_id (deref (objs db) r0)) eqn:Hs.
  - by rewrite (save_person_Some _ _ _ _ Hs), IH.
  - rewrite (save_person_None _ _ _ Hs), IH. cbn [objs set_objs].
    rewrite deref_alter. by destruct (decide _) as [[-> _]|].
Qed.

Lemma index_sound_save order db : index_sound db → index_sound (save order db).1.
Proof.
  intros Hs t v r. unfold holds. rewrite save_identifiers, save_fst.
  destruct (save_loop_frame order db) as (F1 & F2 & _).
  rewrite F1, F2. apply Hs.
Qed.

Lemma holds_load_value person t0 v0 db r t v :
  holds (load_value person t0 v0 db) r t v ↔
  holds db r t v ∨
  (r = person ∧ (person < length (objs db))%nat ∧ t = t0 ∧ v = v0).
Proof. apply (holds_db_add_identifier person t0 v0 db r t v). Qed.

Lemma index_sound_load_value person t0 v0 db :
  person ∈ people db → (person < length (objs db))%nat →
  index_sound db → index_sound (load_value person t0 v0 db).
Proof.
  intros Hp Hlt Hs t v r. rewrite idx_get_load_value, holds_load_value.
  rewrite people_load_value.
  destruct (decide (t = t0 ∧ v = v0)) as [[-> ->]|Hne].
  - intros [= <-]. split; [done|]. by right.
  - intros [Hr Hh]%Hs. split; [done|by left].
Qed.

Lemma length_objs_load_value person t0 v0 db :
  length (objs (load_value person t0 v0 db)) = length (objs db).
Proof. apply length_objs_db_add_identifier. Qed.

Lemma index_sound_load_values person (l : list (string * string)) db :
  person ∈ people db → (person < length (objs db))%nat →
  index_sound db →
  index_sound (foldl (fun db tv => load_value person tv.1 tv.2 db) db l).
Proof.
  revert db. induction l as [|k l IH]; intros db Hp Hlt Hs; [done|].
  cbn [foldl]. apply IH.
  - by rewrite people_load_value.
  - by rewrite length_objs_load_value.
  - by apply index_sound_load_value.
Qed.

Section index_soundness_int.

Variable py_int : string → option Z.

Lemma index_sound_load_person db rec db' :
  index_sound db → load_person py_int db rec = Ok db' → index_sound db'.
Proof.
  intros Hs. unfold load_person.
  set (db2 := set_people _ _).
  assert (Hs2 : index_sound db2).
  { intros t v r Hr. destruct (Hs _ _ _ Hr) as [Hp Hh]. split; [cbn; set_solver|].
    unfold holds in *. cbn [objs db2 set_people set_objs].
    rewrite deref_app_l; [done|]. by apply deref_lt_of_items in Hh. }
  assert (Hs3 := index_sound_load_values (length (objs db)) (items rec.2) db2).
  destruct (py_int _); [|done]. intros [= <-].
  specialize (Hs3 ltac:(cbn; set_solver)
                  ltac:(cbn; rewrite length_app; cbn; lia) Hs2).
  by destruct (_ <? _).
Qed.

Lemma index_sound_load_loop data db db' :
  index_sound db → load_loop py_int data db = Ok db' → index_sound db'.
Proof.
  revert db. induction data as [|rec data IH]; intros db Hs; cbn [load_loop].
  - by intros [= <-].
  - destruct (load_person py_int db rec) as [db1|] eqn:H1; [|done]. cbn.
    apply IH. by apply index_sound_load_person in H1.
Qed.

Lemma reachable_index_sound db : reachable py_int db → index_sound db.
Proof.
  induction 1 as [path db _ Hinit|t v db _ IH|fuel t1 v1 t2 v2 db db' Hr IH Hcall
                  |order db _ IH _].
  - destruct path as [data|]; cbn in Hinit.
    + apply (index_sound_load_loop data db_empty); [apply index_sound_empty|done].
    + injection Hinit as <-. apply index_sound_empty.
  - by apply index_sound_person_with_identifier.
  - apply identifies_same_person_Ok in Hcall.
    apply (index_sound_same_person_result t1 v1 t2 v2 db); [|done..].
    by apply (reachable_db_inv py_int).
  - by apply index_sound_save.
Qed.

(** X19.  In every state reached through the constructor,
    [person_with_identifier], [identifies_same_person] and [save], every
    index entry points at a person that is an object of the store, a
    member of the people set and a holder of the identifier. *)
Theorem index_entries_point_at_holders db t v r :
  reachable py_int db → idx_get (idents db) t v = Some r →
  is_Some (objs db !! r) ∧ r ∈ people db ∧ holds db r t v.
Proof.
  intros Hreach Hr.
  destruct (reachable_index_sound db Hreach t v r Hr) as [Hp Hh].
  split_and!; [|done..]. apply lookup_lt_is_Some. by apply deref_lt_of_items in Hh.
Qed.

End index_soundness_int.

Lemma index_sound_db_tie : index_sound db_tie.
Proof. apply (reachable_index_sound int_ascii), reachable_db_tie. Qed.

Lemma index_entries_point_at_holders_witness :
  is_Some (objs db_tie !! 1%nat) ∧ 1%nat ∈ people db_tie ∧
  holds db_tie 1 "email" "b".
Proof.
  apply (index_entries_point_at_holders int_ascii db_tie "email" "b" 1).
  - apply reachable_db_tie.
  - vm_compute. reflexivity.
Defined.

End index_soundness.

(** * What a call of [identifies_same_person] does *)

Section same_person_effect.

(** X7.  In a state where the index is sound, [person_with_identifier]
    returns a member of the people set that holds the identifier and
    owns it in the index; no other index entry, no person that was in
    the people set and not the counter is changed. *)
Theorem person_with_identifier_returns_holder t v db :
  db_inv db → index_sound db →
  let r := (person_with_identifier t v db).1 in
  let db' := (person_with_identifier t v db).2 in
  r ∈ people db' ∧ holds db' r t v ∧ idx_get (idents db') t v = Some r ∧
  (∀ t' v', ¬ (t' = t ∧ v' = v) →
            idx_get (idents db') t' v' = idx_get (idents db) t' v') ∧
  (∀ r', r' ∈ people db →
         r' ∈ people db' ∧ deref (objs db') r' = deref (objs db) r') ∧
  pid db' = pid db.
Proof.
  intros [Hc Hi] Hs. rewrite person_with_identifier_unfold.
  destruct (idx_get (idents db) t v) as [r0|] eqn:Hget; cbn [fst snd].
  - destruct (Hs _ _ _ Hget) as [Hp Hh]. by split_and!.
  - cbn [people idents objs pid]. unfold holds. cbn [objs]. split_and!.
    + set_solver.
    + rewrite deref_app_new. cbn. left.
    + rewrite idx_get_idx_set. by rewrite decide_True.
    + intros t' v' Hne. rewrite idx_get_idx_set. by rewrite decide_False.
    + intros r' Hr'. split; [set_solver|]. rewrite deref_app_l; [done|by apply Hc].
    + done.
Qed.

Lemma person_with_identifier_returns_holder_witness :
  let r := (person_with_identifier "email" "c" db_tie).1 in
  let db' := (person_with_identifier "email" "c" db_tie).2 in
  r ∈ people db' ∧ holds db' r "email" "c" ∧
  idx_get (idents db') "email" "c" = Some r ∧
  (∀ t' v', ¬ (t' = "email" ∧ v' = "c") →
            idx_get (idents db') t' v' = idx_get (idents db_tie) t' v') ∧
  (∀ r', r' ∈ people db_tie →
         r' ∈ people db' ∧ deref (objs db') r' = deref (objs db_tie) r') ∧
  pid db' = pid db_tie.
Proof.
  apply (person_with_identifier_returns_holder "email" "c" db_tie).
  - apply db_inv_db_tie.
  - apply index_sound_db_tie.
Defined.

Lemma idx_get_type ix t v r : idx_get ix t v = Some r → is_Some (ix !! t).
Proof. unfold idx_get. destruct (ix !! t); [eauto|done]. Qed.

Lemma repoint_src (src dst : ref) : repoint src dst src = dst.
Proof. unfold repoint. by rewrite decide_True. Qed.

Lemma repoint_other (src dst r : ref) : r ≠ src → repoint src dst r = r.
Proof. intros. unfold repoint. by rewrite decide_False. Qed.

Lemma index_after_owner t1 v1 t2 v2 db db' :
  index_after t1 v1 t2 v2 db db' →
  ∃ p, idx_get (idents db') t1 v1 = Some p ∧ idx_get (idents db') t2 v2 = Some p.
Proof.
  unfold index_after.
  destruct (idx_get (idents db) t1 v1) as [p1|] eqn:H1;
    destruct (idx_get (idents db) t2 v2) as [p2|] eqn:H2.
  - intros [[-> Hsame]|(Hne & src & dst & Hsd & Hrep)].
    + exists p2. by rewrite !Hsame.
    + exists dst. rewrite !Hrep, H1, H2. cbn.
      destruct Hsd as [[-> ->]|[-> ->]].
      * by rewrite repoint_src, repoint_other by done.
      * by rewrite repoint_src, repoint_other by done.
  - intros Hidx. exists p1. rewrite !Hidx, H1.
    rewrite (decide_True (P := t2 = t2 ∧ v2 = v2)) by done.
    by destruct (decide _).
  - intros Hidx. exists p2. rewrite !Hidx, H2.
    rewrite (decide_True (P := t1 = t1 ∧ v1 = v1)) by done.
    by destruct (decide _).
  - intros Hidx. exists (length (objs db)). rewrite !Hidx.
    rewrite !decide_True; [done|by right|by left].
Qed.

(** X8.  From a state where the index is sound, a call of
    [identifies_same_person] returns, and afterwards the two identifiers
    have one owner in the index, a member of the people set that holds
    both; a second call with the same arguments changes nothing, and
    needs no recursion. *)
Theorem identifies_same_person_joins fuel fuel' t1 v1 t2 v2 db :
  db_inv db → index_sound db →
  ∃ db' p, identifies_same_person (S fuel) t1 v1 t2 v2 db = Ok db' ∧
    idx_get (idents db') t1 v1 = Some p ∧ idx_get (idents db') t2 v2 = Some p ∧
    p ∈ people db' ∧ holds db' p t1 v1 ∧ holds db' p t2 v2 ∧
    identifies_same_person fuel' t1 v1 t2 v2 db' = Ok db'.
Proof.
  intros Hinv Hs. rewrite identifies_same_person_S.
  destruct (same_person_result_total t1 v1 t2 v2 db Hinv) as (db' & Hres & Hinv').
  assert (Hs' := index_sound_same_person_result _ _ _ _ _ _ Hinv Hs Hres).
  destruct (index_after_owner _ _ _ _ _ _ (same_person_result_index _ _ _ _ _ _ Hres))
    as (p & Hp1 & Hp2).
  exists db', p. destruct (Hs' _ _ _ Hp1) as [Hp Hh1].
  destruct (Hs' _ _ _ Hp2) as [_ Hh2]. split_and!; try done.
  rewrite identifies_same_person_unfold. cbv zeta.
  rewrite ensure_types_fixed by (by eapply idx_get_type).
  rewrite Hp1, Hp2. by rewrite decide_True.
Qed.

Lemma identifies_same_person_joins_witness :
  ∃ db' p, identifies_same_person 1 "email" "a" "name" "Jane Doe" db_tie = Ok db' ∧
    idx_get (idents db') "email" "a" = Some p ∧
    idx_get (idents db') "name" "Jane Doe" = Some p ∧
    p ∈ people db' ∧ holds db' p "email" "a" ∧ holds db' p "name" "Jane Doe" ∧
    identifies_same_person 0 "email" "a" "name" "Jane Doe" db' = Ok db'.
Proof.
  apply (identifies_same_person_joins 0 0 "email" "a" "name" "Jane Doe" db_tie).
  - apply db_inv_db_tie.
  - apply index_sound_db_tie.
Defined.

Lemma joined_iff t1 v1 t2 v2 db t v :
  joined t1 v1 t2 v2 db (t, v) ↔
  (t = t1 ∧ v = v1) ∨ (t = t2 ∧ v = v2) ∨
  ∃ r, idx_get (idents db) t v = Some r ∧
       (idx_get (idents db) t1 v1 = Some r ∨ idx_get (idents db) t2 v2 = Some r).
Proof.
  unfold joined, together. cbn [fst snd]. split.
  - intros [[= -> ->]|[[= -> ->]|[(r & ? & ?)|(r & ? & ?)]]]; eauto 6.
  - intros [[-> ->]|[[-> ->]|(r & ? & [?|?])]]; eauto 8.
Qed.

Lemma joined_together t1 v1 t2 v2 db k k' :
  together db k k' → joined t1 v1 t2 v2 db k → joined t1 v1 t2 v2 db k'.
Proof.
  destruct k as [t v], k' as [t' v']. rewrite !joined_iff.
  intros (r & Hk & Hk'). cbn [fst snd] in Hk, Hk'. right. right. exists r.
  split; [done|].
  destruct H as [[-> ->]|[[-> ->]|(r0 & Hr0 & Hor)]]; [by left|by right|].
  assert (r0 = r) as -> by congruence. done.
Qed.

Lemma index_after_joined t1 v1 t2 v2 db db' :
  db_inv db → index_after t1 v1 t2 v2 db db' →
  ∃ p, (∀ t v, idx_get (idents db') t v = Some p ↔ joined t1 v1 t2 v2 db (t, v)) ∧
       (∀ t v, ¬ joined t1 v1 t2 v2 db (t, v) →
               idx_get (idents db') t v = idx_get (idents db) t v).
Proof.
  intros [Hc Hi]. unfold index_after.
  destruct (idx_get (idents db) t1 v1) as [p1|] eqn:H1;
    destruct (idx_get (idents db) t2 v2) as [p2|] eqn:H2.
  - intros [[-> Hsame]|(Hne & src & dst & Hsd & Hrep)].
    + exists p2. split; intros t v; rewrite ?Hsame, ?joined_iff, ?H1, ?H2; [|done].
      split.
      * intros Hk. right. right. exists p2. auto.
      * intros [[-> ->]|[[-> ->]|(r & Hr & [?|?])]]; congruence.
    + exists dst.
      assert (Hrp : ∀ r, repoint src dst r = dst ↔ r = p1 ∨ r = p2).
      { intros r. unfold repoint. destruct Hsd as [[-> ->]|[-> ->]];
          destruct (decide _); split; intros; try tauto; try congruence;
          destruct H; congruence. }
      split; intros t v; rewrite Hrep, joined_iff, H1, H2.
      * destruct (idx_get (idents db) t v) as [r|] eqn:Hr; cbn.
        -- split.
           ++ intros [= Heq]. apply Hrp in Heq. right. right. exists r.
              split; [done|]. destruct Heq as [->| ->]; auto.
           ++ intros HJ. f_equal. apply Hrp.
              destruct HJ as [[-> ->]|[[-> ->]|(r0 & Hr0 & [?|?])]];
                [left|right|left|right]; congruence.
        -- split; [done|].
           intros [[-> ->]|[[-> ->]|(r0 & Hr0 & _)]]; congruence.
      * intros HnJ. destruct (idx_get (idents db) t v) as [r|] eqn:Hr; [|done].
        cbn. f_equal. apply repoint_other. intros ->. apply HnJ. right. right.
        exists src. split; [done|]. destruct Hsd as [[-> ->]|[-> ->]]; auto.
  - intros Hidx. exists p1.
    split; intros t v; rewrite Hidx, joined_iff, H1, H2.
    + destruct (decide (t = t2 ∧ v = v2)) as [Heq|Hne]; [split; [auto|done]|]. split.
      * intros Hk. right. right. exists p1. auto.
      * intros [[-> ->]|[?|(r & Hr & [?|?])]]; [done|done|congruence|done].
    + intros HnJ. rewrite decide_False; [done|]. intros ?. apply HnJ. auto.
  - intros Hidx. exists p2.
    split; intros t v; rewrite Hidx, joined_iff, H1, H2.
    + destruct (decide (t = t1 ∧ v = v1)) as [Heq|Hne]; [split; [auto|done]|]. split.
      * intros Hk. right. right. exists p2. auto.
      * intros [?|[[-> ->]|(r & Hr & [?|?])]]; [done|done|done|congruence].
    + intros HnJ. rewrite decide_False; [done|]. intros ?. apply HnJ. auto.
  - intros Hidx. exists (length (objs db)).
    split; intros t v; rewrite Hidx, joined_iff, H1, H2.
    + destruct (decide _) as [Heq|Hne].
      * split; [|done]. intros _. destruct Heq; auto.
      * split.
        -- intros Hk. apply Hi, Hc in Hk. lia.
        -- intros [?|[?|(r & Hr & [?|?])]]; try done; exfalso; apply Hne; auto.
    + intros HnJ. rewrite decide_False; [done|]. intros [?|?]; apply HnJ; auto.
Qed.

Lemma same_person_result_partition t1 v1 t2 v2 db db' :
  db_inv db → same_person_result t1 v1 t2 v2 db = Ok db' →
  ∀ k k', together db' k k' ↔
    together db k k' ∨
    (joined t1 v1 t2 v2 db k ∧ joined t1 v1 t2 v2 db k').
Proof.
  intros Hinv Hres.
  destruct (index_after_joined _ _ _ _ _ _ Hinv
              (same_person_result_index _ _ _ _ _ _ Hres)) as (p & HJ & HnJ).
  assert (Hcase : ∀ t v, joined t1 v1 t2 v2 db (t, v) ∨
            (¬ joined t1 v1 t2 v2 db (t, v) ∧
             idx_get (idents db') t v = idx_get (idents db) t v)).
  { intros t v. destruct (decide (idx_get (idents db') t v = Some p)) as [Hp|Hp].
    - left. by apply HJ.
    - right. assert (¬ joined t1 v1 t2 v2 db (t, v)) by (by rewrite <- HJ). auto. }
  intros [t v] [t' v']. split.
  - intros (r & Hk & Hk'). cbn [fst snd] in Hk, Hk'.
    destruct (Hcase t v) as [Jk|[Jk Ek]], (Hcase t' v') as [Jk'|[Jk' Ek']].
    + by right.
    + exfalso. apply Jk'. apply HJ. apply HJ in Jk. congruence.
    + exfalso. apply Jk. apply HJ. apply HJ in Jk'. congruence.
    + left. exists r. cbn [fst snd]. by rewrite <- Ek, <- Ek'.
  - intros [Hold|[Jk Jk']].
    + destruct (Hcase t v) as [Jk|[Jk Ek]], (Hcase t' v') as [Jk'|[Jk' Ek']].
      * exists p. split; by apply HJ.
      * exfalso. apply Jk'. by apply (joined_together _ _ _ _ _ (t, v)).
      * exfalso. apply Jk. apply (joined_together _ _ _ _ _ (t', v')); [|done].
        destruct Hold as (r & ? & ?). by exists r.
      * destruct Hold as (r & Hk & Hk'). exists r. cbn [fst snd] in *.
        by rewrite Ek, Ek'.
    + exists p. split; by apply HJ.
Qed.

(** X9.  After a call of [identifies_same_person] two identifiers have
    the same owner in the index exactly when they had before, or when
    each of them is an argument of the call or had the owner of an
    argument: the call unites the groups of its two arguments, and
    changes no other group. *)
Theorem identifies_same_person_partition fuel t1 v1 t2 v2 db :
  db_inv db →
  ∃ db', identifies_same_person (S fuel) t1 v1 t2 v2 db = Ok db' ∧
    ∀ k k', together db' k k' ↔
      together db k k' ∨
      (joined t1 v1 t2 v2 db k ∧ joined t1 v1 t2 v2 db k').
Proof.
  intros Hinv. rewrite identifies_same_person_S.
  destruct (same_person_result_total t1 v1 t2 v2 db Hinv) as (db' & Hres & _).
  exists db'. split; [done|]. by apply same_person_result_partition.
Qed.

Lemma db_inv_db_two : db_inv db_two.
Proof.
  apply (reachable_db_inv int_ascii), (reach_init int_ascii (Some saved_two)).
  - by apply (bool_decide_unpack _).
  - vm_compute. reflexivity.
Qed.

Lemma identifies_same_person_partition_witness :
  ∃ db', identifies_same_person 1 "email" "a" "email" "b" db_two = Ok db' ∧
    ∀ k k', together db' k k' ↔
      together db_two k k' ∨
      (joined "email" "a" "email" "b" db_two k ∧
       joined "email" "a" "email" "b" db_two k').
Proof.
  apply (identifies_same_person_partition 0 "email" "a" "email" "b" db_two).
  apply db_inv_db_two.
Defined.

Lemma run_calls_together fuel calls db :
  db_inv db →
  ∃ db', run_calls (S fuel) calls db = Ok db' ∧ db_inv db' ∧
    (∀ k k', together db k k' → together db' k k') ∧
    (∀ c, c ∈ calls → together db' c.1 c.2).
Proof.
  revert db. induction calls as [|[[t1 v1] [t2 v2]] calls IH]; intros db Hinv.
  - exists db. split_and!; [done|done|done|]. by intros c ?%elem_of_nil.
  - cbn [run_calls fst snd]. rewrite identifies_same_person_S.
    destruct (same_person_result_total t1 v1 t2 v2 db Hinv) as (db1 & Hres & Hinv1).
    rewrite Hres. cbn [mbind result_bind].
    assert (Hpart := same_person_result_partition _ _ _ _ _ _ Hinv Hres).
    destruct (IH db1 Hinv1) as (db' & Hrun & Hinv' & Hmono & Hcalls).
    exists db'. split_and!; [done|done| |].
    + intros k k' Hk. apply Hmono, Hpart. by left.
    + intros c [->|Hc]%elem_of_cons; [|by apply Hcalls].
      cbn [fst snd]. apply Hmono, Hpart. right. unfold joined. auto.
Qed.

(** X24.  Over any sequence of [identifies_same_person] calls, two
    identifiers that have the same owner in the index keep having one
    owner, and at the end the two identifiers of every call of the
    sequence have the same owner: what was identified stays
    identified. *)
Theorem calls_identify fuel calls db :
  db_inv db →
  ∃ db', run_calls (S fuel) calls db = Ok db' ∧
    (∀ k k', together db k k' → together db' k k') ∧
    (∀ c, c ∈ calls → together db' c.1 c.2).
Proof.
  intros Hinv.
  destruct (run_calls_together fuel calls db Hinv) as (db' & Hrun & _ & Hm & Hc).
  eauto.
Qed.

Lemma calls_identify_witness :
  ∃ db', run_calls 1 [("email", "a", ("name", "J")); ("name", "J", ("email", "b"))]
           db_tie = Ok db' ∧
    (∀ k k', together db_tie k k' → together db' k k') ∧
    (∀ c, c ∈ [("email", "a", ("name", "J")); ("name", "J", ("email", "b"))] →
          together db' c.1 c.2).
Proof.
  apply (calls_identify 0
           [("email", "a", ("name", "J")); ("name", "J", ("email", "b"))] db_tie).
  apply db_inv_db_tie.
Defined.

End same_person_effect.

(** * Stable IDs and the people set under [identifies_same_person] *)

Section same_person_people.

Lemma merge_decision_people (p1 p2 : ref) db db' :
  merge_decision p1 p2 db = Ok db' →
  pid db' = pid db ∧
  (∀ r, r ∈ people db' → r ∈ people db) ∧
  (∀ r, r ∈ people db → is_Some (person_id (deref (objs db) r)) → r ∈ people db').
Proof.
  unfold merge_decision.
  destruct (person_id (deref (objs db) p1)) as [id1|] eqn:Hid1;
    destruct (person_id (deref (objs db) p2)) as [id2|] eqn:Hid2.
  - destruct (_ <? _)%nat; intros [= <-]; by split_and!.
  - intros [_ ->]%people_remove_inv. cbn. split_and!; [done|set_solver|].
    intros r Hr [s Hs]. apply elem_of_difference. split; [done|].
    intros ->%elem_of_singleton. congruence.
  - intros [_ ->]%people_remove_inv. cbn. split_and!; [done|set_solver|].
    intros r Hr [s Hs]. apply elem_of_difference. split; [done|].
    intros ->%elem_of_singleton. congruence.
  - intros [_ ->]%people_remove_inv. cbn. split_and!; [done|set_solver|].
    intros r Hr [s Hs]. apply elem_of_difference. split; [done|].
    intros ->%elem_of_singleton. congruence.
Qed.

Lemma same_person_result_people t1 v1 t2 v2 db db' :
  same_person_result t1 v1 t2 v2 db = Ok db' →
  pid db' = pid db ∧
  (∀ r, r ∈ people db → is_Some (person_id (deref (objs db) r)) → r ∈ people db').
Proof.
  unfold same_person_result. cbv zeta.
  destruct (idx_get (idents (ensure_types t1 t2 db)) t1 v1) as [p1|] eqn:H1;
    destruct (idx_get (idents (ensure_types t1 t2 db)) t2 v2) as [p2|] eqn:H2.
  - destruct (decide (p1 = p2)); [by intros [= <-]|].
    intros (Hpid & _ & Hkeep)%merge_decision_people. done.
  - by intros [= <-].
  - by intros [= <-].
  - rewrite person_with_identifier_unfold, H1. cbn [snd].
    destruct (decide _); intros [= <-]; (split; [done|]); cbn; set_solver.
Qed.

(** X10.  A call of [identifies_same_person] assigns no stable ID and
    changes none, does not move the counter, and removes from the people
    set no person that has a stable ID: a person that [save] has
    published stays in the output of every later [save]. *)
Theorem identifies_same_person_keeps_stable_ids fuel t1 v1 t2 v2 db db' :
  db_inv db →
  identifies_same_person fuel t1 v1 t2 v2 db = Ok db' →
  pid db' = pid db ∧
  (∀ r, person_id (deref (objs db') r) = person_id (deref (objs db) r)) ∧
  (∀ r, r ∈ people db → is_Some (person_id (deref (objs db) r)) → r ∈ people db').
Proof.
  intros Hinv Hres%identifies_same_person_Ok.
  destruct (same_person_result_people _ _ _ _ _ _ Hres) as [Hpid Hkeep].
  destruct (conserves_same_person_result _ _ _ _ _ _ Hinv Hres) as (_ & _ & Hid).
  done.
Qed.

Lemma identifies_same_person_keeps_stable_ids_witness :
  pid db_merged = pid db_tie ∧
  (∀ r, person_id (deref (objs db_merged) r) = person_id (deref (objs db_tie) r)) ∧
  (∀ r, r ∈ people db_tie → is_Some (person_id (deref (objs db_tie) r)) →
        r ∈ people db_merged).
Proof.
  apply (identifies_same_person_keeps_stable_ids 1 "email" "a" "email" "b"
           db_tie db_merged).
  - apply db_inv_db_tie.
  - vm_compute. reflexivity.
Defined.

(** X11.  When neither identifier is known, a call creates one person:
    a new object of the store, without a stable ID, that joins the
    people set, holds the two identifiers and nothing else, and owns
    both in the index; the persons that were in the people set hold
    what they held. *)
Theorem identifies_same_person_creates fuel t1 v1 t2 v2 db :
  people_closed db →
  idx_get (idents db) t1 v1 = None → idx_get (idents db) t2 v2 = None →
  ∃ db', identifies_same_person (S fuel) t1 v1 t2 v2 db = Ok db' ∧
    objs db !! length (objs db) = None ∧
    (length (objs db) ∉ people db) ∧
    people db' = {[length (objs db)]} ∪ people db ∧
    person_id (deref (objs db') (length (objs db))) = None ∧
    (∀ t v, holds db' (length (objs db)) t v ↔
            (t = t1 ∧ v = v1) ∨ (t = t2 ∧ v = v2)) ∧
    (∀ r t v, r ∈ people db → (holds db' r t v ↔ holds db r t v)) ∧
    idx_get (idents db') t1 v1 = Some (length (objs db)) ∧
    idx_get (idents db') t2 v2 = Some (length (objs db)).
Proof.
  intros Hc H1 H2. rewrite identifies_same_person_S.
  destruct (same_person_result t1 v1 t2 v2 db) as [db'|e] eqn:Hres.
  2: { unfold same_person_result in Hres. cbv zeta in Hres.
       rewrite !idx_get_ensure_types, H1, H2 in Hres. by destruct (decide _). }
  exists db'. split; [done|].
  assert (Hidx := same_person_result_index _ _ _ _ _ _ Hres).
  unfold index_after in Hidx. rewrite H1, H2 in Hidx.
  unfold same_person_result in Hres. cbv zeta in Hres.
  rewrite !idx_get_ensure_types, H1, H2 in Hres.
  assert (H1' : idx_get (idents (ensure_types t1 t2 db)) t1 v1 = None)
    by (by rewrite idx_get_ensure_types).
  assert (Hnew : person_id (deref (objs db') (length (objs db))) = None).
  { revert Hres. rewrite person_with_identifier_unfold, H1'. cbn [snd].
    destruct (decide _); intros [= <-].
    - cbn [objs]. change (objs (ensure_types t1 t2 db)) with (objs db).
      by rewrite deref_app_new.
    - unfold attach. cbn [objs set_idents].
      rewrite person_id_db_add_identifier. cbn [objs].
      change (objs (ensure_types t1 t2 db)) with (objs db).
      by rewrite deref_app_new. }
  split_and!.
  - apply lookup_ge_None. lia.
  - intros Hin%Hc. lia.
  - destruct (holds_created t1 v1 t2 v2 (ensure_types t1 t2 db) 0%nat t1 v1 H1')
      as (Hp & _ & _).
    revert Hp. cbv zeta. destruct (decide _); injection Hres as <-; done.
  - done.
  - intros t v.
    destruct (holds_created t1 v1 t2 v2 (ensure_types t1 t2 db) 0%nat t v H1')
      as (_ & _ & Hh).
    revert Hh. cbv zeta. destruct (decide _); injection Hres as <-; done.
  - intros r t v Hr.
    destruct (holds_created t1 v1 t2 v2 (ensure_types t1 t2 db) r t v H1')
      as (_ & Hh & _).
    revert Hh. cbv zeta. destruct (decide _); injection Hres as <-;
      intros Hh; rewrite Hh; try done; try (by apply Hc);
      apply holds_ensure_types.
  - rewrite Hidx. by rewrite decide_True by (by left).
  - rewrite Hidx. by rewrite decide_True by (by right).
Qed.

Lemma identifies_same_person_creates_witness :
  ∃ db', identifies_same_person 1 "email" "j.doe@example.org"
           "name" "Jane Doe" db_tie = Ok db' ∧
    objs db_tie !! length (objs db_tie) = None ∧
    (length (objs db_tie) ∉ people db_tie) ∧
    people db' = {[length (objs db_tie)]} ∪ people db_tie ∧
    person_id (deref (objs db') (length (objs db_tie))) = None ∧
    (∀ t v, holds db' (length (objs db_tie)) t v ↔
            (t = "email" ∧ v = "j.doe@example.org") ∨
            (t = "name" ∧ v = "Jane Doe")) ∧
    (∀ r t v, r ∈ people db_tie → (holds db' r t v ↔ holds db_tie r t v)) ∧
    idx_get (idents db') "email" "j.doe@example.org" = Some (length (objs db_tie)) ∧
    idx_get (idents db') "name" "Jane Doe" = Some (length (objs db_tie)).
Proof.
  apply (identifies_same_person_creates 0 "email" "j.doe@example.org"
           "name" "Jane Doe" db_tie).
  - apply db_inv_db_tie.
  - vm_compute. reflexivity.
  - vm_compute. reflexivity.
Defined.

End same_person_people.

(** * The cases of a call, one by one *)

Section same_person_cases_effect.

Lemma lookup_ensure_type ix t t' :
  ensure_type t ix !! t' =
  match ix !! t' with
  | Some m => Some m
  | None => if decide (t' = t) then Some ∅ else None
  end.
Proof.
  unfold ensure_type. destruct (ix !! t) as [m|] eqn:Ht.
  - destruct (ix !! t') as [m'|] eqn:Ht'; [done|].
    rewrite decide_False; [done|]. intros ->. congruence.
  - destruct (decide (t' = t)) as [->|Hne].
    + by rewrite lookup_insert_eq, Ht.
    + rewrite lookup_insert_ne by done. by destruct (ix !! t').
Qed.

Lemma ensure_type_comm ix t1 t2 :
  ensure_type t2 (ensure_type t1 ix) = ensure_type t1 (ensure_type t2 ix).
Proof.
  apply map_eq. intros t. rewrite !lookup_ensure_type.
  destruct (ix !! t); [done|]. by destruct (decide (t = t1)), (decide (t = t2)).
Qed.

Lemma ensure_types_comm t1 t2 db : ensure_types t1 t2 db = ensure_types t2 t1 db.
Proof. unfold ensure_types. by rewrite ensure_type_comm. Qed.

Lemma lookup_idx_set ix t v r t' :
  idx_set t v r ix !! t' =
  if decide (t' = t) then Some (<[v := r]> (default ∅ (ix !! t))) else ix !! t'.
Proof.
  unfold idx_set. destruct (decide (t' = t)) as [->|Hne].
  - by rewrite lookup_insert_eq.
  - by rewrite lookup_insert_ne.
Qed.

Lemma ensure_type_idx_set ix t0 t v r :
  ensure_type t0 (idx_set t v r ix) = idx_set t v r (ensure_type t0 ix).
Proof.
  apply map_eq. intros t'.
  rewrite lookup_ensure_type, !lookup_idx_set, !lookup_ensure_type.
  destruct (decide (t' = t)) as [->|Hne]; [|done].
  destruct (ix !! t); [done|]. by destruct (decide (t = t0)).
Qed.

(** X12.  When the first identifier is known and the second is not, the
    call, with the arguments in either order, adds the second identifier
    to the owner of the first and indexes it there: the two orders give
    the same state, no person is created or removed, and no other index
    entry, no other person, no stable ID and not the counter is
    changed. *)
Theorem identifies_same_person_attaches fuel fuel' t1 v1 t2 v2 db (p : ref) :
  idx_get (idents db) t1 v1 = Some p → idx_get (idents db) t2 v2 = None →
  (p < length (objs db))%nat →
  ∃ db', identifies_same_person fuel t1 v1 t2 v2 db = Ok db' ∧
    identifies_same_person fuel' t2 v2 t1 v1 db = Ok db' ∧
    people db' = people db ∧ pid db' = pid db ∧
    length (objs db') = length (objs db) ∧
    (∀ t v, idx_get (idents db') t v =
            if decide (t = t2 ∧ v = v2) then Some p else idx_get (idents db) t v) ∧
    (∀ r t v, holds db' r t v ↔
              holds db r t v ∨ (r = p ∧ t = t2 ∧ v = v2)) ∧
    (∀ r, person_id (deref (objs db') r) = person_id (deref (objs db) r)).
Proof.
  intros H1 H2 Hlt. exists (attach p t2 v2 (ensure_types t1 t2 db)). split_and!.
  - rewrite identifies_same_person_unfold. cbv zeta.
    by rewrite !idx_get_ensure_types, H1, H2.
  - rewrite identifies_same_person_unfold. cbv zeta.
    by rewrite !idx_get_ensure_types, H1, H2, (ensure_types_comm t2 t1).
  - done.
  - done.
  - cbn. by rewrite length_alter.
  - intros t v. by rewrite idx_get_attach, idx_get_ensure_types.
  - intros r t v. rewrite holds_attach, holds_ensure_types.
    change (objs (ensure_types t1 t2 db)) with (objs db). split.
    + intros [?|(-> & _ & -> & ->)]; auto.
    + intros [?|(-> & -> & ->)]; auto.
  - intros r. unfold attach. cbn [objs set_idents].
    by rewrite person_id_db_add_identifier.
Qed.

Lemma identifies_same_person_attaches_witness :
  ∃ db', identifies_same_person 0 "email" "a" "name" "Jane Doe" db_tie = Ok db' ∧
    identifies_same_person 0 "name" "Jane Doe" "email" "a" db_tie = Ok db' ∧
    people db' = people db_tie ∧ pid db' = pid db_tie ∧
    length (objs db') = length (objs db_tie) ∧
    (∀ t v, idx_get (idents db') t v =
            if decide (t = "name" ∧ v = "Jane Doe") then Some 0%nat
            else idx_get (idents db_tie) t v) ∧
    (∀ r t v, holds db' r t v ↔
              holds db_tie r t v ∨ (r = 0%nat ∧ t = "name" ∧ v = "Jane Doe")) ∧
    (∀ r, person_id (deref (objs db') r) = person_id (deref (objs db_tie) r)).
Proof.
  apply (identifies_same_person_attaches 0 0 "email" "a" "name" "Jane Doe" db_tie 0).
  - vm_compute. reflexivity.
  - vm_compute. reflexivity.
  - vm_compute. lia.
Defined.

(** X13.  When the two identifiers are owned by two distinct persons
    that do not both have a stable ID, the person merged away never has
    a stable ID: a person without one is merged into the one that has
    one, and of two persons without one the second is merged into the
    first.  The survivor holds the identifiers of both and keeps its
    stable ID, every index entry of the two points at it, and the person
    merged away is left with no identifiers and leaves the people set. *)
Theorem unpublished_merged_into_published fuel t1 v1 t2 v2 db (p1 p2 : ref) :
  idx_get (idents db) t1 v1 = Some p1 → idx_get (idents db) t2 v2 = Some p2 →
  p1 ≠ p2 → p1 ∈ people db → p2 ∈ people db → people_closed db →
  ¬ both_stable db p1 p2 →
  let away := merged_away db p1 p2 in
  let surv := survivor db p1 p2 in
  ∃ db', identifies_same_person fuel t1 v1 t2 v2 db = Ok db' ∧
    person_id (deref (objs db) away) = None ∧
    (surv = p2 ↔ person_id (deref (objs db) p1) = None ∧
                 is_Some (person_id (deref (objs db) p2))) ∧
    merged_into db db' away surv ∧
    identifiers (deref (objs db') away) = [] ∧
    people db' = people db ∖ {[away]}.
Proof.
  intros H1 H2 Hne Hp1 Hp2 Hc Hnot away surv.
  rewrite identifies_same_person_unfold. cbv zeta.
  rewrite !idx_get_ensure_types, H1, H2.
  rewrite decide_False by done.
  assert (Hres : ∀ src dst, src ≠ dst → src ∈ people db → dst ∈ people db →
    ∃ db', people_remove src (absorb src dst (ensure_types t1 t2 db)) = Ok db' ∧
      merged_into db db' src dst ∧
      identifiers (deref (objs db') src) = [] ∧
      people db' = people db ∖ {[src]}).
  { intros src dst Hsd Hsrc Hdst. rewrite people_remove_Ok by done.
    eexists. split; [done|]. split_and!.
    - apply merged_into_ensure_types with t1 t2.
      apply (absorb_merged_into src dst (ensure_types t1 t2 db) Hsd).
      by apply Hc.
    - apply store_merge_into_src.
    - done. }
  subst away surv. unfold survivor, merged_away, both_stable, merge_decision in *.
  change (objs (ensure_types t1 t2 db)) with (objs db).
  destruct (person_id (deref (objs db) p1)) as [id1|] eqn:Hid1;
    destruct (person_id (deref (objs db) p2)) as [id2|] eqn:Hid2.
  - exfalso. apply Hnot. split; eauto.
  - rewrite decide_False by congruence.
    destruct (Hres p2 p1) as (db' & Hr & Hm & He & Hp); [congruence|done..|].
    exists db'. split_and!; try done. split; [congruence|]. by intros [[=] _].
  - rewrite decide_True by done.
    destruct (Hres p1 p2) as (db' & Hr & Hm & He & Hp); [done..|].
    exists db'. by split_and!.
  - rewrite decide_False by congruence.
    destruct (Hres p2 p1) as (db' & Hr & Hm & He & Hp); [congruence|done..|].
    exists db'. split_and!; try done. split; [congruence|]. by intros [_ [? [=]]].
Qed.

Lemma unpublished_merged_into_published_witness :
  let away := merged_away db_ab 0 1 in
  let surv := survivor db_ab 0 1 in
  ∃ db', identifies_same_person 0 "email" "a" "email" "b" db_ab = Ok db' ∧
    person_id (deref (objs db_ab) away) = None ∧
    (surv = 1%nat ↔ person_id (deref (objs db_ab) 0) = None ∧
                    is_Some (person_id (deref (objs db_ab) 1))) ∧
    merged_into db_ab db' away surv ∧
    identifiers (deref (objs db') away) = [] ∧
    people db' = people db_ab ∖ {[away]}.
Proof.
  apply (unpublished_merged_into_published 0 "email" "a" "email" "b" db_ab 0 1).
  - vm_compute. reflexivity.
  - vm_compute. reflexivity.
  - lia.
  - apply gset_elem_of_compute. vm_compute. reflexivity.
  - apply gset_elem_of_compute. vm_compute. reflexivity.
  - apply (reachable_db_inv int_ascii), reachable_db_ab.
  - intros [_ [s Hs]]. vm_compute in Hs. discriminate.
Defined.

End same_person_cases_effect.

(** * Persons out of the index, and the caller's idiom *)

Section same_person_frame.

Lemma unindexed_absorb src dst db r :
  r ≠ src → r ≠ dst → unindexed db r →
  deref (objs (absorb src dst db)) r = deref (objs db) r ∧
  unindexed (absorb src dst db) r.
Proof.
  intros Hs Hd Hun. split.
  - by apply store_merge_into_other.
  - intros t v. rewrite idx_get_absorb.
    destruct (idx_get (idents db) t v) as [r0|] eqn:Hr0; [|done]. cbn.
    intros [= Heq]. unfold repoint in Heq.
    destruct (decide (r0 = src)); [congruence|]. subst r0. by apply (Hun t v).
Qed.

Lemma unindexed_merge_decision (p1 p2 : ref) db db' r :
  r ≠ p1 → r ≠ p2 → unindexed db r →
  merge_decision p1 p2 db = Ok db' →
  deref (objs db') r = deref (objs db) r ∧ unindexed db' r.
Proof.
  intros Hr1 Hr2 Hun. unfold merge_decision.
  assert (Htomb : ∀ src dst s, r ≠ src → r ≠ dst →
    deref (objs (db_add_identifier src replaced_by s (absorb src dst db))) r
    = deref (objs db) r ∧
    unindexed (db_add_identifier src replaced_by s (absorb src dst db)) r).
  { intros src dst s Hs Hd.
    destruct (unindexed_absorb src dst db r Hs Hd Hun) as [Heq Hun'].
    split; [|done]. cbn [db_add_identifier objs set_objs].
    rewrite deref_alter. by rewrite decide_False by (intros [? _]; done). }
  destruct (person_id (deref (objs db) p1)), (person_id (deref (objs db) p2)).
  - destruct (_ <? _)%nat; intros [= <-]; by apply Htomb.
  - intros [_ ->]%people_remove_inv. by apply unindexed_absorb.
  - intros [_ ->]%people_remove_inv. by apply unindexed_absorb.
  - intros [_ ->]%people_remove_inv. by apply unindexed_absorb.
Qed.

Lemma unindexed_attach p t v db r :
  r ≠ p → unindexed db r →
  deref (objs (attach p t v db)) r = deref (objs db) r ∧
  unindexed (attach p t v db) r.
Proof.
  intros Hp Hun. split.
  - cbn. rewrite deref_alter. by rewrite decide_False by (intros [? _]; done).
  - intros t' v'. rewrite idx_get_attach. destruct (decide _); [congruence|].
    apply Hun.
Qed.

(** X14.  A person that no index entry points at, such as one left
    behind by a merge of two persons with stable IDs, is not changed by
    a call of [identifies_same_person], and no index entry points at it
    afterwards either. *)
Theorem unindexed_person_untouched fuel t1 v1 t2 v2 db db' r :
  (r < length (objs db))%nat → unindexed db r →
  identifies_same_person fuel t1 v1 t2 v2 db = Ok db' →
  deref (objs db') r = deref (objs db) r ∧ unindexed db' r.
Proof.
  intros Hlt Hun Hres%identifies_same_person_Ok. revert Hres.
  assert (Hun0 : unindexed (ensure_types t1 t2 db) r).
  { intros t v. rewrite idx_get_ensure_types. apply Hun. }
  unfold same_person_result. cbv zeta.
  destruct (idx_get (idents (ensure_types t1 t2 db)) t1 v1) as [p1|] eqn:H1;
    destruct (idx_get (idents (ensure_types t1 t2 db)) t2 v2) as [p2|] eqn:H2.
  - assert (r ≠ p1) by (intros ->; by apply (Hun0 t1 v1)).
    assert (r ≠ p2) by (intros ->; by apply (Hun0 t2 v2)).
    destruct (decide (p1 = p2)); [by intros [= <-]|].
    intros Hm.
    exact (unindexed_merge_decision p1 p2 (ensure_types t1 t2 db) db' r
             ltac:(done) ltac:(done) Hun0 Hm).
  - assert (r ≠ p1) by (intros ->; by apply (Hun0 t1 v1)).
    intros [= <-].
    exact (unindexed_attach p1 t2 v2 (ensure_types t1 t2 db) r ltac:(done) Hun0).
  - assert (r ≠ p2) by (intros ->; by apply (Hun0 t2 v2)).
    intros [= <-].
    exact (unindexed_attach p2 t1 v1 (ensure_types t1 t2 db) r ltac:(done) Hun0).
  - rewrite person_with_identifier_unfold, H1. cbn [snd].
    set (db1 := mkDB _ _ _ _).
    assert (Hd1 : deref (objs db1) r = deref (objs db) r).
    { subst db1. cbn [objs].
      change (objs (ensure_types t1 t2 db)) with (objs db). by apply deref_app_l. }
    assert (Hun1 : unindexed db1 r).
    { intros t v. subst db1. cbn [idents]. rewrite idx_get_idx_set.
      destruct (decide _); [|apply Hun0].
      change (objs (ensure_types t1 t2 db)) with (objs db). intros [=]. lia. }
    destruct (decide _); intros [= <-]; [done|].
    destruct (unindexed_attach (length (objs db)) t2 v2 db1 r ltac:(lia) Hun1)
      as [Heq Hun2].
    split; [by rewrite Heq|done].
Qed.

Lemma unindexed_person_untouched_witness :
  deref (objs (db_or_empty
                 (identifies_same_person 1 "email" "a" "email" "c" db_merged))) 0
  = deref (objs db_merged) 0 ∧
  unindexed (db_or_empty
               (identifies_same_person 1 "email" "a" "email" "c" db_merged)) 0.
Proof.
  apply (unindexed_person_untouched 1 "email" "a" "email" "c" db_merged).
  - vm_compute. lia.
  - intros t v Hr.
    assert (Hrep : ∀ t v, idx_get (idents db_merged) t v
                          = repoint 0 1 <$> idx_get (idents db_tie) t v).
    { intros t' v'. unfold idx_get. change (idents db_merged)
        with ((fun m : gmap string ref => repoint 0 1 <$> m) <$> idents db_tie).
      rewrite lookup_fmap. destruct (idents db_tie !! t'); [|done]. cbn.
      apply lookup_fmap. }
    rewrite Hrep in Hr. destruct (idx_get (idents db_tie) t v) as [r0|]; [|done].
    cbn in Hr. injection Hr as Hr. by apply (repoint_ne 0 1 r0).
  - vm_compute. reflexivity.
Defined.

(** X15.  The idiom of the script, [person_with_identifier] on the
    first identifier and then [identifies_same_person]: when the second
    identifier is not known yet, the first call is redundant (the result
    is that of [identifies_same_person] alone), and the second call needs
    no recursion. *)
Theorem person_then_same_person fuel t1 v1 t2 v2 db :
  idx_get (idents db) t2 v2 = None →
  identifies_same_person 0 t1 v1 t2 v2 (person_with_identifier t1 v1 db).2
  = identifies_same_person (S fuel) t1 v1 t2 v2 db.
Proof.
  intros H2. rewrite identifies_same_person_S. unfold same_person_result.
  cbv zeta. rewrite identifies_same_person_unfold. cbv zeta.
  rewrite !idx_get_ensure_types, H2.
  rewrite (person_with_identifier_unfold t1 v1 db).
  destruct (idx_get (idents db) t1 v1) as [p|] eqn:H1; cbn [snd].
  - by rewrite H1, H2.
  - rewrite person_with_identifier_unfold, idx_get_ensure_types, H1. cbn [snd].
    cbn [idents]. rewrite !idx_get_idx_set, decide_True by done.
    assert (Heq : ensure_types t1 t2
              (mkDB (pid db) (idx_set t1 v1 (length (objs db)) (idents db))
                 ({[length (objs db)]} ∪ people db)
                 (objs db ++ [mkParticipant None [(t1, [v1])]])) =
            mkDB (pid (ensure_types t1 t2 db))
              (idx_set t1 v1 (length (objs (ensure_types t1 t2 db)))
                 (idents (ensure_types t1 t2 db)))
              ({[length (objs (ensure_types t1 t2 db))]}
               ∪ people (ensure_types t1 t2 db))
              (objs (ensure_types t1 t2 db) ++ [mkParticipant None [(t1, [v1])]])).
    { unfold ensure_types, set_idents. cbn. f_equal.
      by rewrite !ensure_type_idx_set. }
    rewrite Heq. destruct (decide (t2 = t1 ∧ v2 = v1)) as [Hsame|Hdiff].
    + by rewrite decide_True.
    + by rewrite H2.
Qed.

Lemma person_then_same_person_witness :
  identifies_same_person 0 "email" "c" "name" "Jane Doe"
    (person_with_identifier "email" "c" db_tie).2
  = identifies_same_person 1 "email" "c" "name" "Jane Doe" db_tie.
Proof.
  apply (person_then_same_person 0 "email" "c" "name" "Jane Doe" db_tie).
  vm_compute. reflexivity.
Defined.

End same_person_frame.

(** * Loading a document *)

Section load_facts.

Variable py_int : string → option Z.

Lemma load_person_result db rec :
  (py_int (str_drop 4 rec.1) = None ∧ load_person py_int db rec = Raise ValueError) ∨
  (is_Some (py_int (str_drop 4 rec.1)) ∧ ∃ db', load_person py_int db rec = Ok db').
Proof.
  unfold load_person. destruct (py_int (str_drop 4 rec.1)) as [n|].
  - right. split; [eauto|]. eauto.
  - by left.
Qed.

Lemma load_loop_result L db :
  (Forall (fun rec : string * dict => is_Some (py_int (str_drop 4 rec.1))) L ∧
   ∃ db', load_loop py_int L db = Ok db') ∨
  (Exists (fun rec : string * dict => py_int (str_drop 4 rec.1) = None) L ∧
   load_loop py_int L db = Raise ValueError).
Proof.
  revert db. induction L as [|rec L IH]; intros db.
  - left. split; [constructor|]. by exists db.
  - cbn [load_loop].
    destruct (load_person_result db rec) as [[Hn Hr]|[Hs [db1 Hr]]]; rewrite Hr.
    + right. split; [by left|done].
    + cbn [mbind result_bind]. destruct (IH db1) as [[Hall Hok]|[Hex Hraise]].
      * left. split; [by constructor|done].
      * right. split; [by right|done].
Qed.


Lemma last_owner_absent t v init L :
  Forall (fun rec : string * dict => (t, v) ∉ items rec.2) L →
  last_owner t v init L = init.
Proof.
  revert init. induction L as [|rec L IH]; intros init Hall; [done|].
  apply Forall_cons in Hall as [Hrec Hall].
  rewrite last_owner_cons, decide_False by done. by apply IH.
Qed.

Lemma last_owner_app t v init L1 L2 :
  last_owner t v init (L1 ++ L2)%list = last_owner t v (last_owner t v init L1) L2.
Proof. unfold last_owner. apply foldl_app. Qed.

Lemma load_owner L db :
  load py_int L = Ok db →
  index_published db ∧ ∀ t v, owner_id db t v = last_owner t v None L.
Proof.
  intros Hload.
  destruct (load_loop_result L db_empty) as [[Hall [db1 Hok]]|[Hex Hraise]].
  2: { unfold load, ParticipantDB_init in Hload. congruence. }
  destruct (load_loop_owner py_int L db_empty) as (db2 & Hok2 & Hpub & Hown).
  - intros t v r. unfold idx_get. cbn. by rewrite lookup_empty.
  - by apply Forall_forall.
  - unfold load, ParticipantDB_init in Hload.
    assert (db2 = db) as -> by congruence. split; [done|].
    intros t v. rewrite Hown. f_equal.
Qed.

(** X17.  After loading, an identifier listed in the document is owned
    in the index by the person of the last record that lists it (the
    earlier records that list it give persons that hold it but do not
    own it), and an identifier that no record lists is not in the
    index. *)
Theorem load_last_record_wins L db t v :
  load py_int L = Ok db →
  (∀ L1 rec L2, L = (L1 ++ rec :: L2)%list → (t, v) ∈ items rec.2 →
     Forall (fun rec' : string * dict => (t, v) ∉ items rec'.2) L2 →
     owner_id db t v = Some rec.1) ∧
  (Forall (fun rec : string * dict => (t, v) ∉ items rec.2) L →
   idx_get (idents db) t v = None).
Proof.
  intros [Hpub Hown]%load_owner. split.
  - intros L1 rec L2 -> Hin Hrest.
    rewrite Hown, last_owner_app, last_owner_cons, decide_True by done.
    by apply last_owner_absent.
  - intros Hall. specialize (Hown t v). rewrite last_owner_absent in Hown by done.
    destruct (idx_get (idents db) t v) as [r|] eqn:Hr; [|done].
    destruct (Hpub t v r Hr) as [s Hs]. unfold owner_id in Hown.
    rewrite Hr in Hown. cbn in Hown. congruence.
Qed.

Lemma objs_load_values person (l : list (string * string)) db :
  objs (foldl (fun db tv => load_value person tv.1 tv.2 db) db l)
  = add_all person l (objs db).
Proof.
  revert db. induction l as [|k l IH]; intros db; [done|].
  cbn [foldl]. by rewrite IH, add_all_cons.
Qed.

Lemma load_person_objs db rec db' :
  load_person py_int db rec = Ok db' →
  people db' = {[length (objs db)]} ∪ people db ∧
  objs db' = add_all (length (objs db)) (items rec.2)
               (objs db ++ [Participant_init (Some rec.1)]).
Proof.
  unfold load_person. destruct (py_int _); [|done]. intros [= <-].
  set (db2 := set_people _ _).
  assert (H1 := people_load_values (length (objs db)) (items rec.2) db2).
  assert (H2 := objs_load_values (length (objs db)) (items rec.2) db2).
  destruct (_ <? _); cbn [people objs set_pid]; by rewrite H1, H2.
Qed.

Lemma load_person_store db rec db' :
  load_person py_int db rec = Ok db' →
  people db' = {[length (objs db)]} ∪ people db ∧
  length (objs db') = S (length (objs db)) ∧
  (∀ r, (r < length (objs db))%nat → deref (objs db') r = deref (objs db) r) ∧
  person_id (deref (objs db') (length (objs db))) = Some rec.1 ∧
  (∀ k, k ∈ items (identifiers (deref (objs db') (length (objs db)))) ↔
        k ∈ items rec.2).
Proof.
  intros [Hp Ho]%load_person_objs. rewrite Ho. split_and!.
  - done.
  - rewrite add_all_length, length_app. cbn. lia.
  - intros r Hr. rewrite add_all_other by lia. by apply deref_app_l.
  - by rewrite add_all_person_id, deref_app_new.
  - intros k. rewrite add_all_items, deref_app_new, length_app. cbn. split.
    + intros [?%elem_of_nil|[_ ?]]; done.
    + intros Hk. right. split; [lia|done].
Qed.

Lemma load_loop_store L db db' :
  load_loop py_int L db = Ok db' →
  length (objs db') = (length (objs db) + length L)%nat ∧
  (∀ r, r ∈ people db' ↔
        r ∈ people db ∨
        (length (objs db) ≤ r ∧ r < length (objs db) + length L)%nat) ∧
  (∀ r, (r < length (objs db))%nat → deref (objs db') r = deref (objs db) r) ∧
  (∀ i rec, L !! i = Some rec →
     person_id (deref (objs db') (length (objs db) + i)) = Some rec.1 ∧
     ∀ k, k ∈ items (identifiers (deref (objs db') (length (objs db) + i))) ↔
          k ∈ items rec.2).
Proof.
  revert db. induction L as [|rec0 L IH]; intros db; cbn [load_loop].
  - intros [= <-]. split_and!; [cbn; lia| |done|by intros i rec ?].
    intros r. cbn. split; [auto|]. intros [?|?]; [done|lia].
  - destruct (load_person py_int db rec0) as [db1|] eqn:H1; [|done].
    cbn [mbind result_bind]. intros Hrest.
    destruct (load_person_store _ _ _ H1) as (Hp1 & Hl1 & Ho1 & Hid1 & Hit1).
    destruct (IH db1 Hrest) as (Hl & Hp & Ho & Hrec).
    split_and!.
    + rewrite Hl, Hl1. cbn. lia.
    + intros r. rewrite Hp, Hp1, Hl1, elem_of_union, elem_of_singleton. cbn.
      split; [intros [[->|?]|?]|intros [?|?]]; auto; lia.
    + intros r Hr. rewrite Ho by lia. by apply Ho1.
    + intros [|i] rec Hi.
      * injection Hi as <-. rewrite Nat.add_0_r, !Ho by lia. done.
      * cbn in Hi. destruct (Hrec i rec Hi) as [A B]. rewrite Hl1 in A, B.
        replace (length (objs db) + S i)%nat with (S (length (objs db)) + i)%nat
          by lia. done.
Qed.

(** X18.  A successful load makes one person per record of the
    document, in the order of the document: the store and the people set
    hold these persons and no other, and the person of a record has the
    key of the record as its stable ID and holds the (type, value) pairs
    the record lists, and no other. *)
Theorem load_one_person_per_record L db :
  load py_int L = Ok db →
  length (objs db) = length L ∧
  (∀ r, r ∈ people db ↔ (r < length L)%nat) ∧
  (∀ i rec, L !! i = Some rec →
     person_id (deref (objs db) i) = Some rec.1 ∧
     ∀ k, k ∈ items (identifiers (deref (objs db) i)) ↔ k ∈ items rec.2).
Proof.
  intros Hload. destruct (load_loop_store L db_empty db Hload) as (Hl & Hp & _ & Hrec).
  split_and!.
  - done.
  - intros r. rewrite Hp. cbn. split; [intros [?%not_elem_of_empty|?]|];
      [done|lia|]. intros ?. right. lia.
  - intros i rec Hi. exact (Hrec i rec Hi).
Qed.

End load_facts.

Lemma load_last_record_wins_witness :
  (∀ L1 rec L2, saved_tie = (L1 ++ rec :: L2)%list → ("email", "b") ∈ items rec.2 →
     Forall (fun rec' : string * dict => ("email", "b") ∉ items rec'.2) L2 →
     owner_id db_tie "email" "b" = Some rec.1) ∧
  (Forall (fun rec : string * dict => ("email", "b") ∉ items rec.2) saved_tie →
   idx_get (idents db_tie) "email" "b" = None).
Proof.
  apply (load_last_record_wins int_ascii saved_tie db_tie "email" "b").
  vm_compute. reflexivity.
Defined.

Lemma load_one_person_per_record_witness :
  length (objs db_tie) = length saved_tie ∧
  (∀ r, r ∈ people db_tie ↔ (r < length saved_tie)%nat) ∧
  (∀ i rec, saved_tie !! i = Some rec →
     person_id (deref (objs db_tie) i) = Some rec.1 ∧
     ∀ k, k ∈ items (identifiers (deref (objs db_tie) i)) ↔ k ∈ items rec.2).
Proof.
  apply (load_one_person_per_record int_ascii saved_tie db_tie).
  vm_compute. reflexivity.
Defined.

(** * Saving *)

Section save_facts.

Lemma json_dump_keys (out : gmap string dict) : NoDup (json_dump out).*1.
Proof.
  unfold json_dump. rewrite merge_sort_Permutation.
  rewrite <- list_fmap_compose.
  rewrite (list_fmap_ext _ fst (map_to_list out)) by done.
  apply NoDup_fst_map_to_list.
Qed.

(** X22.  [save] changes stable IDs and the counter only: the index,
    the people set and the identifiers of every person are as before, a
    person that has a stable ID keeps it, a person outside the people
    set is not touched, and the counter does not decrease. *)
Theorem save_frame order db :
  people_closed db → enumerates order (people db) →
  let db' := (save order db).1 in
  idents db' = idents db ∧ people db' = people db ∧
  length (objs db') = length (objs db) ∧
  (∀ r, identifiers (deref (objs db') r) = identifiers (deref (objs db) r)) ∧
  (∀ r, is_Some (person_id (deref (objs db) r)) →
        deref (objs db') r = deref (objs db) r) ∧
  (∀ r, r ∉ people db → deref (objs db') r = deref (objs db) r) ∧
  pid db ≤ pid db'.
Proof.
  intros Hc [Hnd Hen] db'.
  assert (Hdb' : db' = (save_loop order db).1) by apply save_fst.
  destruct (save_loop_frame order db) as (F1 & F2 & F3).
  destruct (save_fold_spec order Hnd db ∅) as (A & B & C & D & E).
  { intros r Hr. apply Hc. by apply Hen. }
  unfold save_loop in *. rewrite Hdb'. split_and!; try done.
  - intros r [s Hs]. apply B. unfold unpublished. by rewrite Hs.
  - intros r Hr. apply C. by rewrite Hen.
  - rewrite E. lia.
Qed.

Lemma save_frame_witness :
  let db' := (save [0%nat; 1%nat] db_ab).1 in
  idents db' = idents db_ab ∧ people db' = people db_ab ∧
  length (objs db') = length (objs db_ab) ∧
  (∀ r, identifiers (deref (objs db') r) = identifiers (deref (objs db_ab) r)) ∧
  (∀ r, is_Some (person_id (deref (objs db_ab) r)) →
        deref (objs db') r = deref (objs db_ab) r) ∧
  (∀ r, r ∉ people db_ab → deref (objs db') r = deref (objs db_ab) r) ∧
  pid db_ab ≤ pid db'.
Proof.
  apply (save_frame [0%nat; 1%nat] db_ab).
  - apply (reachable_db_inv int_ascii), reachable_db_ab.
  - apply enumerates_01. reflexivity.
Defined.

Lemma save_fold_numbers order :
  NoDup order → ∀ db out,
  (∀ r, r ∈ order → (r < length (objs db))%nat) →
  ∀ (i : nat) r, List.filter (unpublished db) order !! i = Some r →
    person_id (deref (objs (foldl save_person (db, out) order).1) r)
    = Some (format_pid (pid db + Z.of_nat i + 1)).
Proof.
  induction order as [|r0 order IH]; intros Hnd db out Hlt i r Hi; [done|].
  apply NoDup_cons in Hnd as [Hnin Hnd]. cbn [foldl].
  cbn [List.filter] in Hi. unfold unpublished at 1 in Hi.
  destruct (person_id (deref (objs db) r0)) as [s|] eqn:Hs; cbn [isNone] in Hi.
  - rewrite (save_person_Some _ _ _ _ Hs). apply IH; [done| |done].
    intros r' Hr'. apply Hlt. by right.
  - rewrite (save_person_None _ _ _ Hs).
    set (db1 := set_objs _ _).
    assert (Hlt1 : ∀ r', r' ∈ order → (r' < length (objs db1))%nat).
    { intros r' Hr'. subst db1. cbn [objs set_objs]. rewrite length_alter.
      apply Hlt. by right. }
    destruct i as [|j].
    + injection Hi as <-.
      destruct (save_fold_spec order Hnd db1
                  (<[format_pid (pid db + 1) := identifiers (deref (objs db) r0)]> out)
                  Hlt1) as (_ & _ & C & _).
      rewrite (C r0 Hnin). subst db1. cbn [objs set_objs]. rewrite deref_alter.
      rewrite decide_True; [cbn; do 2 f_equal; lia|].
      split; [done|]. apply Hlt. left.
    + cbn in Hi.
      rewrite (List.filter_ext_in (unpublished db) (unpublished db1)) in Hi.
      * rewrite (IH Hnd db1 _ Hlt1 j r Hi). subst db1. cbn [pid set_pid set_objs].
        do 2 f_equal. lia.
      * intros r' Hr'%list_elem_of_In. unfold unpublished. subst db1.
        cbn [objs set_objs]. rewrite deref_alter.
        rewrite decide_False; [done|]. intros [-> _]. done.
Qed.

(** X23.  [save] numbers the persons without a stable ID in the order
    in which it visits them: the first one met gets the counter plus
    one, the next the counter plus two, and so on, each formatted as
    [PID:] and the number zero-padded to six digits. *)
Theorem save_numbers_in_order order db (i : nat) r :
  people_closed db → enumerates order (people db) →
  List.filter (unpublished db) order !! i = Some r →
  person_id (deref (objs (save order db).1) r)
  = Some (format_pid (pid db + Z.of_nat i + 1)).
Proof.
  intros Hc [Hnd Hen] Hi. rewrite save_fst. unfold save_loop.
  apply save_fold_numbers; [done| |done].
  intros r' Hr'. apply Hc. by apply Hen.
Qed.

Lemma save_numbers_in_order_witness :
  person_id (deref (objs (save [1%nat; 0%nat] db_ab).1) 0)
  = Some (format_pid (pid db_ab + Z.of_nat 1 + 1)).
Proof.
  apply (save_numbers_in_order [1%nat; 0%nat] db_ab 1 0).
  - apply (reachable_db_inv int_ascii), reachable_db_ab.
  - split; [repeat constructor; set_solver|].
    intros r. change (people db_ab) with ({[1%nat]} ∪ ({[0%nat]} ∪ ∅) : gset nat).
    set_solver.
  - vm_compute. reflexivity.
Defined.

Section save_facts_int.

Variable py_int : string → option Z.
Hypothesis py_int_numerals : int_reads_numerals py_int.


Lemma save_records order db :
  reachable py_int db → enumerates order (people db) →
  json_object (save order db).2 ∧
  ∀ rec, rec ∈ (save order db).2 ↔
    ∃ r, r ∈ people db ∧
         person_id (deref (objs (save order db).1) r) = Some rec.1 ∧
         rec.2 = merge_sort key_le (identifiers (deref (objs db) r)).
Proof.
  intros Hreach Hen.
  assert (Hreach' := reach_save py_int order db Hreach Hen).
  destruct (reachable_ids py_int py_int_numerals _ Hreach') as [_ Hdis].
  destruct (reachable_db_inv py_int db Hreach) as [Hc _].
  destruct Hen as [Hnd Hen].
  assert (Hlt : ∀ r, r ∈ order → (r < length (objs db))%nat).
  { intros r Hr. apply Hc. by apply Hen. }
  destruct (save_loop_frame order db) as (F1 & _ & _).
  destruct (save_fold_spec order Hnd db ∅ Hlt) as (A & _ & _ & _ & _).
  assert (Hrep := save_fold_replay order Hnd db ∅ Hlt).
  rewrite save_snd. split; [apply json_dump_keys|].
  revert Hdis. rewrite save_fst. unfold save_loop in *.
  set (db' := (foldl save_person (db, ∅) order).1) in *. intros Hdis.
  assert (Hen' : enumerates order (people db')).
  { split; [done|]. intros r. by rewrite F1. }
  assert (Hpub : all_published db').
  { intros r Hr. apply A. apply Hen. by rewrite <- F1. }
  assert (Hfun : ids_functional db' order).
  { intros r r' s Hr Hr' Hs Hs'.
    rewrite (Hdis r r' s); [done|by apply Hen'|by apply Hen'|done..]. }
  intros rec. rewrite elem_of_json_dump, Hrep. split.
  - intros (d & Hd & Hsort).
    apply (save_out_lookup order db' rec.1 d Hen' Hpub Hfun) in Hd
      as (r & Hr & Hrec).
    injection Hrec as Hid Hd. exists r. split_and!.
    + by rewrite <- F1.
    + done.
    + rewrite Hsort, <- Hd. f_equal.
      by rewrite <- (save_identifiers order db r), save_fst.
  - intros (r & Hr & Hid & Hsort).
    exists (identifiers (deref (objs db') r)). split.
    + apply (save_out_lookup order db' _ _ Hen' Hpub Hfun).
      exists r. split; [by rewrite F1|]. unfold record_of. by rewrite Hid.
    + rewrite Hsort. f_equal.
      by rewrite <- (save_identifiers order db r), save_fst.
Qed.

(** X21.  [save] from a reachable state writes a document with one
    record for each person of the people set and no other record: no
    key occurs twice, and a record is in the document exactly when its
    key is the stable ID, after the call, of a person of the people set
    and its value the identifiers of that person, types sorted. *)
Theorem save_writes_every_person order db :
  reachable py_int db → enumerates order (people db) →
  json_object (save order db).2 ∧
  ∀ rec, rec ∈ (save order db).2 ↔
    ∃ r, r ∈ people db ∧
         person_id (deref (objs (save order db).1) r) = Some rec.1 ∧
         rec.2 = merge_sort key_le (identifiers (deref (objs db) r)).
Proof. apply save_records. Qed.

End save_facts_int.


Lemma save_writes_every_person_witness :
  json_object (save [0%nat; 1%nat] db_ab).2 ∧
  ∀ rec, rec ∈ (save [0%nat; 1%nat] db_ab).2 ↔
    ∃ r, r ∈ people db_ab ∧
         person_id (deref (objs (save [0%nat; 1%nat] db_ab).1) r) = Some rec.1 ∧
         rec.2 = merge_sort key_le (identifiers (deref (objs db_ab) r)).
Proof.
  apply (save_writes_every_person int_ascii int_ascii_reads_numerals
           [0%nat; 1%nat] db_ab).
  - apply reachable_db_ab.
  - apply enumerates_01. reflexivity.
Defined.

End save_facts.

(** * The dicts of the persons *)

Section store_wellformed.

Lemma dict_add_values_nonempty t v (d : dict) :
  values_nonempty d → values_nonempty (dict_add t v d).
Proof.
  unfold values_nonempty. induction d as [|[t0 vs] d IH]; intros Hv; cbn [dict_add].
  - by repeat constructor.
  - apply Forall_cons in Hv as [Hvs Hd].
    destruct (decide (t0 = t)) as [->|Hne].
    + constructor; [|done]. cbn [snd] in *. destruct (decide (v ∈ vs)); [done|].
      by destruct vs.
    + constructor; [done|]. by apply IH.
Qed.

Lemma dict_add_wf t v (d : dict) : dict_wf d → dict_wf (dict_add t v d).
Proof.
  intros (Hk & Hv & Hn). split_and!.
  - by apply dict_add_keys_distinct.
  - by apply dict_add_values_distinct.
  - by apply dict_add_values_nonempty.
Qed.

Lemma dict_wf_nil : dict_wf [].
Proof. split_and!; constructor. Qed.

Lemma alter_add_identifier_wf h (r0 : ref) t v :
  (∀ r, dict_wf (identifiers (deref h r))) →
  ∀ r, dict_wf (identifiers (deref (alter (add_identifier t v) r0 h) r)).
Proof.
  intros Hwf r. rewrite deref_alter. destruct (decide _); [|done].
  by apply dict_add_wf.
Qed.

Lemma add_all_wf dst (l : list (string * string)) h :
  (∀ r, dict_wf (identifiers (deref h r))) →
  ∀ r, dict_wf (identifiers (deref (add_all dst l h) r)).
Proof.
  revert h. induction l as [|k l IH]; intros h Hwf; [done|].
  rewrite add_all_cons. apply IH. by apply alter_add_identifier_wf.
Qed.

Lemma store_merge_into_wf src dst h :
  (∀ r, dict_wf (identifiers (deref h r))) →
  ∀ r, dict_wf (identifiers (deref (store_merge_into src dst h) r)).
Proof.
  intros Hwf r. rewrite store_merge_into_add_all, deref_alter.
  destruct (decide _); [apply dict_wf_nil|]. by apply add_all_wf.
Qed.

Lemma app_new_wf h (p : Participant) :
  (∀ r, dict_wf (identifiers (deref h r))) → dict_wf (identifiers p) →
  ∀ r, dict_wf (identifiers (deref (h ++ [p]) r)).
Proof.
  intros Hwf Hp r. destruct (decide (r < length h)%nat) as [Hlt|Hge].
  - by rewrite deref_app_l.
  - destruct (decide (r = length h)) as [->|Hne].
    + by rewrite deref_app_new.
    + rewrite deref_ge; [apply dict_wf_nil|]. rewrite length_app. cbn. lia.
Qed.

Lemma store_wf_empty : store_wf db_empty.
Proof. intros r. apply dict_wf_nil. Qed.

Lemma store_wf_person_with_identifier t v db :
  store_wf db → store_wf (person_with_identifier t v db).2.
Proof.
  intros Hwf. rewrite person_with_identifier_unfold.
  destruct (idx_get (idents db) t v); [done|]. cbn [snd]. intros r. cbn [objs].
  apply app_new_wf; [done|]. apply (dict_add_wf t v []), dict_wf_nil.
Qed.

Lemma store_wf_attach p t v db : store_wf db → store_wf (attach p t v db).
Proof. intros Hwf r. by apply (alter_add_identifier_wf (objs db)). Qed.

Lemma store_wf_absorb src dst db : store_wf db → store_wf (absorb src dst db).
Proof. intros Hwf r. by apply (store_merge_into_wf src dst (objs db)). Qed.

Lemma store_wf_merge_decision (p1 p2 : ref) db db' :
  store_wf db → merge_decision p1 p2 db = Ok db' → store_wf db'.
Proof.
  intros Hwf. unfold merge_decision.
  destruct (person_id (deref (objs db) p1)), (person_id (deref (objs db) p2)).
  - destruct (_ <? _)%nat; intros [= <-] r;
      apply (alter_add_identifier_wf (objs (absorb _ _ db)));
      by apply store_wf_absorb.
  - intros [_ ->]%people_remove_inv. by apply store_wf_absorb.
  - intros [_ ->]%people_remove_inv. by apply store_wf_absorb.
  - intros [_ ->]%people_remove_inv. by apply store_wf_absorb.
Qed.

Lemma store_wf_same_person_result t1 v1 t2 v2 db db' :
  store_wf db → same_person_result t1 v1 t2 v2 db = Ok db' → store_wf db'.
Proof.
  intros Hwf. assert (Hwf0 : store_wf (ensure_types t1 t2 db)) by done.
  unfold same_person_result. cbv zeta.
  destruct (idx_get _ t1 v1) as [p1|]; destruct (idx_get _ t2 v2) as [p2|].
  - destruct (decide (p1 = p2)); [by intros [= <-]|].
    by apply store_wf_merge_decision.
  - intros [= <-]. by apply store_wf_attach.
  - intros [= <-]. by apply store_wf_attach.
  - assert (Hwf1 := store_wf_person_with_identifier t1 v1 _ Hwf0).
    destruct (decide _); intros [= <-]; [done|]. by apply store_wf_attach.
Qed.

Lemma store_wf_save order db : store_wf db → store_wf (save order db).1.
Proof. intros Hwf r. rewrite save_identifiers. apply Hwf. Qed.

Section store_wellformed_int.

Variable py_int : string → option Z.

Lemma store_wf_load_person db rec db' :
  store_wf db → load_person py_int db rec = Ok db' → store_wf db'.
Proof.
  intros Hwf [_ Ho]%load_person_objs r. rewrite Ho.
  apply add_all_wf. apply app_new_wf; [done|apply dict_wf_nil].
Qed.

Lemma store_wf_load_loop L db db' :
  store_wf db → load_loop py_int L db = Ok db' → store_wf db'.
Proof.
  revert db. induction L as [|rec L IH]; intros db Hwf; cbn [load_loop].
  - by intros [= <-].
  - destruct (load_person py_int db rec) as [db1|] eqn:H1; [|done]. cbn.
    apply IH. by apply store_wf_load_person in H1.
Qed.

Lemma reachable_store_wf db : reachable py_int db → store_wf db.
Proof.
  induction 1 as [path db _ Hinit|t v db _ IH|fuel t1 v1 t2 v2 db db' Hr IH Hcall
                  |order db _ IH _].
  - destruct path as [data|]; cbn in Hinit.
    + apply (store_wf_load_loop data db_empty); [apply store_wf_empty|done].
    + injection Hinit as <-. apply store_wf_empty.
  - by apply store_wf_person_with_identifier.
  - apply identifies_same_person_Ok in Hcall.
    by apply (store_wf_same_person_result t1 v1 t2 v2 db).
  - by apply store_wf_save.
Qed.

(** X25.  In every reachable state the dict of every person lists no
    value twice under a type and no type with an empty list (and, as a
    Python dict, no type twice): a value that is added again, by a call
    or by a document that repeats it, is not stored again. *)
Theorem persons_list_each_value_once db r :
  reachable py_int db →
  keys_distinct (identifiers (deref (objs db) r)) ∧
  values_distinct (identifiers (deref (objs db) r)) ∧
  values_nonempty (identifiers (deref (objs db) r)).
Proof. intros Hreach. apply (reachable_store_wf db Hreach r). Qed.

End store_wellformed_int.

Lemma persons_list_each_value_once_witness :
  keys_distinct (identifiers (deref (objs db_merged) 1)) ∧
  values_distinct (identifiers (deref (objs db_merged) 1)) ∧
  values_nonempty (identifiers (deref (objs db_merged) 1)).
Proof.
  apply (persons_list_each_value_once int_ascii db_merged 1).
  apply (reach_same int_ascii 1 "email" "a" "email" "b" db_tie);
    [apply reachable_db_tie|].
  vm_compute. reflexivity.
Defined.

End store_wellformed.

(** * Documents in the form [save] writes *)

Section canonical_documents.

Lemma string_compare_trans s1 s2 s3 :
  (s1 ?= s2)%string ≠ Gt → (s2 ?= s3)%string ≠ Gt → (s1 ?= s3)%string ≠ Gt.
Proof.
  revert s2 s3.
  induction s1 as [|c1 s1 IH]; intros [|c2 s2] [|c3 s3]; cbn; try done.
  unfold Ascii.compare.
  destruct (N.compare_spec (N_of_ascii c1) (N_of_ascii c2)) as [E12|L12|G12];
    [| |done];
    destruct (N.compare_spec (N_of_ascii c2) (N_of_ascii c3)) as [E23|L23|G23];
    try done.
  - rewrite E12, E23, N.compare_refl. apply IH.
  - intros _ _. rewrite E12. by rewrite (proj2 (N.compare_lt_iff _ _) L23).
  - intros _ _. rewrite <- E23. by rewrite (proj2 (N.compare_lt_iff _ _) L12).
  - intros _ _.
    by rewrite (proj2 (N.compare_lt_iff _ _) (N.lt_trans _ _ _ L12 L23)).
Qed.

Lemma str_le_compare s1 s2 : str_le s1 s2 ↔ (s1 ?= s2)%string ≠ Gt.
Proof.
  unfold str_le, String.leb. by destruct (s1 ?= s2)%string.
Qed.

#[global] Instance str_le_trans : Transitive str_le.
Proof.
  intros s1 s2 s3. rewrite !str_le_compare. apply string_compare_trans.
Qed.

#[global] Instance key_le_trans {A} : Transitive (@key_le A).
Proof. intros a b c. unfold key_le. apply str_le_trans. Qed.

Lemma keys_determine {A} (l : list (string * A)) k a b :
  NoDup l.*1 → (k, a) ∈ l → (k, b) ∈ l → a = b.
Proof.
  intros Hnd Ha Hb.
  apply (elem_of_list_to_map (M := gmap string) l k a Hnd) in Ha.
  apply (elem_of_list_to_map (M := gmap string) l k b Hnd) in Hb. congruence.
Qed.

Lemma sorted_keys_unique {A} (l1 l2 : list (string * A)) :
  NoDup l1.*1 → Sorted key_le l1 → Sorted key_le l2 → l1 ≡ₚ l2 → l1 = l2.
Proof.
  intros Hnd H1 H2 Hp. apply (Sorted_unique_strong key_le); [|done..].
  intros [k1 a1] [k2 a2] Hx1 Hx2 Hle Hge. rewrite <- Hp in Hx2.
  unfold key_le, str_le in Hle, Hge. cbn in Hle, Hge.
  assert (k1 = k2) as -> by (by apply String.leb_antisym).
  f_equal. by apply (keys_determine l1 k2).
Qed.

Lemma merge_sort_sorted {A} (l : list (string * A)) :
  NoDup l.*1 → Sorted key_le l → merge_sort key_le l = l.
Proof.
  intros Hnd Hs. symmetry. apply sorted_keys_unique; [done|done| |].
  - apply (Sorted_merge_sort key_le).
  - by rewrite merge_sort_Permutation.
Qed.

Lemma dict_add_new t v (d : dict) :
  t ∉ d.*1 → dict_add t v d = (d ++ [(t, [v])])%list.
Proof.
  induction d as [|[t0 vs] d IH]; intros Hnin; [done|]. cbn [dict_add].
  cbn in Hnin. apply not_elem_of_cons in Hnin as [Hne Hnin].
  rewrite decide_False by done. cbn. f_equal. by apply IH.
Qed.

Lemma dict_add_last t v ws (d : dict) :
  t ∉ d.*1 → v ∉ ws →
  dict_add t v (d ++ [(t, ws)])%list = (d ++ [(t, (ws ++ [v])%list)])%list.
Proof.
  induction d as [|[t0 vs] d IH]; intros Hnin Hv.
  - cbn. rewrite decide_True by done. by rewrite decide_False.
  - cbn in Hnin. apply not_elem_of_cons in Hnin as [Hne Hnin].
    cbn. rewrite decide_False by done. f_equal. by apply IH.
Qed.

Lemma dict_add_values t vs ws (d : dict) :
  t ∉ d.*1 → NoDup (ws ++ vs)%list →
  foldl (fun (d' : dict) (tv : string * string) => dict_add tv.1 tv.2 d')
        (d ++ [(t, ws)])%list (pair t <$> vs)
  = (d ++ [(t, (ws ++ vs)%list)])%list.
Proof.
  revert ws. induction vs as [|v vs IH]; intros ws Hnin Hnd.
  - cbn. by rewrite app_nil_r.
  - cbn [fmap list_fmap foldl fst snd].
    apply NoDup_app in Hnd as (Hws & Hdis & Hvs).
    rewrite dict_add_last; [|done|].
    2: { intros Hin. apply (Hdis v Hin). left. }
    change (list_fmap _ _ (pair t) vs) with (pair t <$> vs).
    rewrite IH; [by rewrite <- app_assoc|done|].
    apply NoDup_cons in Hvs as [Hv Hvs].
    apply NoDup_app. split_and!.
    + apply NoDup_app. split_and!; [done| |apply NoDup_singleton].
      intros x Hx ->%list_elem_of_singleton. apply (Hdis v Hx). left.
    + intros x [Hx| ->%list_elem_of_singleton]%elem_of_app Hx'.
      * apply (Hdis x Hx). by right.
      * done.
    + done.
Qed.

Lemma dict_rebuild_from (d1 d2 : dict) :
  dict_wf d2 → (∀ t, t ∈ d1.*1 → t ∉ d2.*1) →
  foldl (fun (d' : dict) (tv : string * string) => dict_add tv.1 tv.2 d')
        d1 (items d2)
  = (d1 ++ d2)%list.
Proof.
  revert d1. induction d2 as [|[t vs] d2 IH]; intros d1 (Hk & Hv & Hn) Hdis.
  - cbn. by rewrite app_nil_r.
  - rewrite items_cons, foldl_app.
    unfold keys_distinct in Hk. cbn in Hk. apply NoDup_cons in Hk as [Hnin Hk].
    apply Forall_cons in Hv as [Hvs Hv]. apply Forall_cons in Hn as [Hne Hn].
    cbn [snd] in Hvs, Hne. destruct vs as [|v vs]; [done|].
    assert (Ht : t ∉ d1.*1).
    { intros Hin. apply (Hdis t Hin). left. }
    cbn [fmap list_fmap foldl fst snd]. rewrite dict_add_new by done.
    change (list_fmap _ _ (pair t) vs) with (pair t <$> vs).
    rewrite dict_add_values by done. cbn [app].
    rewrite IH.
    + by rewrite <- app_assoc.
    + by split_and!.
    + intros t' Hin Hin'. rewrite fmap_app in Hin. cbn in Hin.
      apply elem_of_app in Hin as [Hin| ->%list_elem_of_singleton]; [|done].
      apply (Hdis t' Hin). by right.
Qed.

Lemma dict_rebuild (d : dict) :
  dict_wf d →
  foldl (fun (d' : dict) (tv : string * string) => dict_add tv.1 tv.2 d')
        [] (items d) = d.
Proof.
  intros Hwf. rewrite (dict_rebuild_from [] d Hwf); [done|].
  by intros t ?%elem_of_nil.
Qed.

Lemma add_all_identifiers dst (l : list (string * string)) h :
  (dst < length h)%nat →
  identifiers (deref (add_all dst l h) dst) =
  foldl (fun (d' : dict) (tv : string * string) => dict_add tv.1 tv.2 d')
        (identifiers (deref h dst)) l.
Proof.
  revert h. induction l as [|k l IH]; intros h Hlt; [done|].
  rewrite add_all_cons, IH by (by rewrite length_alter). cbn [foldl].
  rewrite deref_alter. by rewrite decide_True.
Qed.

Section canonical_documents_int.

Variable py_int : string → option Z.

Lemma load_loop_identifiers L db db' (i : nat) rec :
  load_loop py_int L db = Ok db' → L !! i = Some rec → dict_wf rec.2 →
  identifiers (deref (objs db') (length (objs db) + i)) = rec.2.
Proof.
  revert db i. induction L as [|rec0 L IH]; intros db i; cbn [load_loop]; [done|].
  destruct (load_person py_int db rec0) as [db1|] eqn:H1; [|done].
  cbn [mbind result_bind]. intros Hrest Hi Hwf.
  destruct (load_person_store py_int _ _ _ H1) as (_ & Hl1 & _).
  destruct i as [|i].
  - injection Hi as ->. rewrite Nat.add_0_r.
    destruct (load_loop_store py_int L db1 db' Hrest) as (_ & _ & Ho & _).
    rewrite Ho by lia. destruct (load_person_objs py_int _ _ _ H1) as [_ ->].
    rewrite add_all_identifiers by (rewrite length_app; cbn; lia).
    rewrite deref_app_new. cbn [identifiers Participant_init].
    by apply dict_rebuild.
  - cbn in Hi. specialize (IH db1 i Hrest Hi Hwf). rewrite Hl1 in IH.
    by replace (length (objs db) + S i)%nat with (S (length (objs db)) + i)%nat
      by lia.
Qed.

Lemma load_then_save_general (L : list (string * dict)) db order :
  canonical L → load py_int L = Ok db → enumerates order (people db) →
  save order db = (db, L).
Proof.
  intros (Hsorted & Hnd & Hrecs) Hload Hen.
  destruct (load_loop_store py_int L db_empty db Hload) as (Hlen & Hp & _ & Hrec).
  assert (Hpeople : ∀ r, r ∈ people db ↔ (r < length L)%nat).
  { intros r. rewrite Hp. cbn. split; [intros [?%not_elem_of_empty|?]|];
      [done|lia|]. intros ?. right. lia. }
  assert (Hat : ∀ r, r ∈ people db → ∃ rec, L !! r = Some rec ∧
            record_of db r = (Some rec.1, rec.2)).
  { intros r Hr%Hpeople. destruct (lookup_lt_is_Some_2 L r Hr) as [rec Hi].
    exists rec. split; [done|]. unfold record_of.
    destruct (Hrec r rec Hi) as [Hid _]. cbn in Hid. rewrite Hid. f_equal.
    apply (load_loop_identifiers L db_empty db r rec Hload Hi).
    rewrite Forall_forall in Hrecs. apply Hrecs. by eapply list_elem_of_lookup_2. }
  assert (Hpub : all_published db).
  { intros r Hr. destruct (Hat r Hr) as (rec & _ & Hrecord).
    unfold unpublished. unfold record_of in Hrecord.
    injection Hrecord as Hid _. by rewrite Hid. }
  assert (Hfun : ids_functional db order).
  { intros r r' s Hr Hr' Hs Hs'. destruct Hen as [_ Hen].
    destruct (Hat r ltac:(by apply Hen)) as (rec & Hi & Hrecord).
    destruct (Hat r' ltac:(by apply Hen)) as (rec' & Hi' & Hrecord').
    unfold record_of in Hrecord, Hrecord'.
    injection Hrecord as Hid Hd. injection Hrecord' as Hid' Hd'.
    assert (r = r') as ->; [|done].
    apply (NoDup_lookup L.*1 r r' s Hnd).
    - apply list_lookup_fmap_Some. exists rec. split; [congruence|done].
    - apply list_lookup_fmap_Some. exists rec'. split; [congruence|done]. }
  assert (Hout : (save_loop order db).2 = list_to_map L).
  { apply map_eq. intros s. apply option_eq. intros d.
    rewrite (save_out_lookup order db s d Hen Hpub Hfun).
    rewrite <- (elem_of_list_to_map (M := gmap string) L s d Hnd). split.
    - intros (r & Hr & Hrecord). destruct (Hat r Hr) as (rec & Hi & Hrecord').
      rewrite Hrecord in Hrecord'. injection Hrecord' as -> ->.
      apply list_elem_of_lookup. exists r. by destruct rec.
    - intros [r Hi]%list_elem_of_lookup.
      assert (Hr : r ∈ people db).
      { apply Hpeople. by apply lookup_lt_Some in Hi. }
      exists r. split; [done|]. destruct (Hat r Hr) as (rec & Hi' & Hrecord).
      rewrite Hi in Hi'. injection Hi' as <-. done. }
  rewrite (surjective_pairing (save order db)). f_equal.
  - rewrite save_fst. unfold save_loop. apply save_fold_published.
    intros r Hr. apply Hpub. by apply Hen.
  - rewrite save_snd, Hout. unfold json_dump.
    symmetry. apply sorted_keys_unique; [done|done| |].
    + apply (Sorted_merge_sort key_le).
    + rewrite merge_sort_Permutation, (map_to_list_to_map L Hnd).
      rewrite (list_fmap_ext _ id L); [by rewrite list_fmap_id|].
      intros i [s d] Hi. cbn. f_equal.
      rewrite Forall_forall in Hrecs.
      destruct (Hrecs (s, d)) as (Hs & (Hk & _)); [by eapply list_elem_of_lookup_2|].
      by apply merge_sort_sorted.
Qed.

(** X26.  Loading a document that has its keys in order and each once,
    at both levels, and lists no value twice and no empty list, and
    saving at once, gives the document back as it was, whatever the
    order in which the people set is visited; the database is not
    changed by that [save]. *)
Theorem load_then_save L db order :
  canonical L → load py_int L = Ok db → enumerates order (people db) →
  save order db = (db, L).
Proof. apply load_then_save_general. Qed.

End canonical_documents_int.

End canonical_documents.

(** * What [save] writes can be loaded and saved again *)

Section saved_documents.

Lemma dict_wf_merge_sort (d : dict) : dict_wf d → dict_wf (merge_sort key_le d).
Proof.
  intros (Hk & Hv & Hn). unfold dict_wf, keys_distinct, values_distinct,
    values_nonempty in *.
  by rewrite !merge_sort_Permutation.
Qed.

Lemma canonical_saved_tie : canonical saved_tie.
Proof.
  split_and!.
  - repeat constructor.
  - apply (bool_decide_unpack _). reflexivity.
  - repeat constructor; try (apply (bool_decide_unpack _); reflexivity); done.
Qed.

Section saved_documents_int.

Variable py_int : string → option Z.
Hypothesis py_int_numerals : int_reads_numerals py_int.

Lemma save_canonical order db :
  reachable py_int db → enumerates order (people db) →
  canonical (save order db).2.
Proof.
  intros Hreach Hen.
  destruct (save_records py_int py_int_numerals order db Hreach Hen) as [Hobj Hrecs].
  split_and!.
  - rewrite save_snd. apply json_dump_sorted.
  - done.
  - apply Forall_forall. intros [s d] (r & Hr & _ & Hsort)%Hrecs.
    cbn [snd] in *. subst d.
    split; [apply (Sorted_merge_sort key_le)|].
    apply dict_wf_merge_sort. apply (reachable_store_wf py_int db Hreach).
Qed.

Lemma save_parses order db :
  reachable py_int db → enumerates order (people db) →
  Forall (fun rec : string * dict => is_Some (py_int (str_drop 4 rec.1)))
    (save order db).2.
Proof.
  intros Hreach Hen.
  destruct (save_records py_int py_int_numerals order db Hreach Hen) as [_ Hrecs].
  assert (Hreach' := reach_save py_int order db Hreach Hen).
  destruct (reachable_ids py_int py_int_numerals _ Hreach') as [[_ Hnum] _].
  apply Forall_forall. intros rec (r & Hr & Hid & _)%Hrecs.
  destruct (Hnum r rec.1) as (n & Hn & _); [|done|eauto].
  rewrite save_fst. destruct (save_loop_frame order db) as (F1 & _). by rewrite F1.
Qed.

(** X27.  The document [save] writes from a reachable state has its
    keys in order and each once, at both levels, and lists no value
    twice and no type with an empty list. *)
Theorem save_writes_canonical order db :
  reachable py_int db → enumerates order (people db) →
  canonical (save order db).2.
Proof. apply save_canonical. Qed.

(** X28.  The document [save] writes from a reachable state loads,
    and the loaded database saves to the same document, whatever the
    order in which its people set is visited. *)
Theorem saved_document_is_stable order db :
  reachable py_int db → enumerates order (people db) →
  ∃ db'', load py_int (save order db).2 = Ok db'' ∧
    ∀ order', enumerates order' (people db'') →
      save order' db'' = (db'', (save order db).2).
Proof.
  intros Hreach Hen.
  assert (Hcan := save_canonical order db Hreach Hen).
  assert (Hparse := save_parses order db Hreach Hen).
  destruct (load_loop_result py_int (save order db).2 db_empty)
    as [[_ [db'' Hok]]|[Hex _]].
  - exists db''. split; [done|]. intros order' Hen'.
    by apply (load_then_save_general py_int).
  - exfalso. apply Exists_exists in Hex as (rec & Hin & Hn).
    rewrite Forall_forall in Hparse. destruct (Hparse rec Hin). congruence.
Qed.

End saved_documents_int.

Lemma load_then_save_witness :
  save [0%nat; 1%nat] db_tie = (db_tie, saved_tie).
Proof.
  apply (load_then_save int_ascii saved_tie db_tie [0%nat; 1%nat]).
  - apply canonical_saved_tie.
  - vm_compute. reflexivity.
  - apply enumerates_01. reflexivity.
Defined.

Lemma save_writes_canonical_witness :
  canonical (save [0%nat; 1%nat] db_ab).2.
Proof.
  apply (save_writes_canonical int_ascii int_ascii_reads_numerals
           [0%nat; 1%nat] db_ab).
  - apply reachable_db_ab.
  - apply enumerates_01. reflexivity.
Defined.

Lemma saved_document_is_stable_witness :
  ∃ db'', load int_ascii (save [0%nat; 1%nat] db_merged).2 = Ok db'' ∧
    ∀ order', enumerates order' (people db'') →
      save order' db'' = (db'', (save [0%nat; 1%nat] db_merged).2).
Proof.
  apply (saved_document_is_stable int_ascii int_ascii_reads_numerals
           [0%nat; 1%nat] db_merged).
  - apply (reach_same int_ascii 1 "email" "a" "email" "b" db_tie);
      [apply reachable_db_tie|].
    vm_compute. reflexivity.
  - apply enumerates_01. vm_compute. reflexivity.
Defined.

End saved_documents.
